(** * The pseudo-terminal driver pair and the devpts file system (fs/pty.c)

    A shallow embedding of fs/pty.c: the master and slave driver
    operations, the allocator [ptmx_open] and the devpts path mapping,
    written as computations over an explicit kernel state.  Pointers are
    addresses into a heap of terminal objects, [NULL] is [None], and a
    computation that dereferences an absent or destroyed object, or indexes
    the slave table outside its bounds, ends in a [Fault] instead of a
    value: this is how undefined behaviour of the C code shows up. *)

From Stdlib Require Import ZArith Ascii String List Lia Bool Sorted.
From stdpp Require Import gmap strings list fin_maps pretty.

Open Scope Z_scope.

(** ** Constants *)

(** #define MAX_PTYS (1 << 12) *)
Definition MAX_PTYS : Z := Z.shiftl 1 12.

(** limits.h, for the LP64 targets of the emulator. *)
Definition INT_MAX : Z := 2147483647.
Definition INT_MIN : Z := -2147483648.
Definition LONG_MAX : Z := 9223372036854775807.
Definition LONG_MIN : Z := -9223372036854775808.

(** Modelled from the spec: kernel/errno.h is not part of the sources.  The
    four error conditions the driver returns (I/O error, invalid argument,
    resource exhaustion, not found) carry the Linux errno values, negated;
    fs/pty.c itself records that [_ENOENT] is -2. *)
Definition _EIO : Z := -5.
Definition _EINVAL : Z := -22.
Definition _ENOSPC : Z := -28.
Definition _ENOENT : Z := -2.

(** Modelled from the spec: fs/tty.h is not part of the sources.  The two
    control requests of the master (set the slave lock, get the slave
    number) carry the Linux request numbers, read as a C [int]. *)
Definition TIOCSPTLCK_ : Z := 1074025521.
Definition TIOCGPTN_ : Z := -2147199952.

(** ** Data model *)

(** The address of a [struct tty]; the null pointer is [None]. *)
Abbreviation addr := positive.
(** The identity of a [struct fd]. *)
Abbreviation fdid := positive.

(** [tty->driver]: the two drivers this file defines. *)
Inductive tty_driver := pty_master | pty_slave.

Global Instance tty_driver_eq_dec : EqDecision tty_driver.
Proof. solve_decision. Defined.

(** [struct tty], with the fields fs/pty.c touches: [num], [refcount],
    [pty.other], [pty.locked] and the descriptor list [fds]; [hung_up] and
    the input queue [input] stand for what the generic terminal layer keeps
    (hang-up and queue input are its primitives). *)
Record tty := mk_tty {
  driver : tty_driver;
  num : Z;
  refcount : Z;
  pty_other : option addr;
  pty_locked : bool;
  hung_up : bool;
  input : list ascii;
  tty_fds : list fdid
}.

(** [struct fd], with the fields fs/pty.c touches. *)
Record fd := mk_fd {
  fd_tty : option addr;
  pty_num : Z;
  offset : Z
}.

(** [struct dir_entry]. *)
Record dir_entry := mk_dir_entry {
  name : string;
  inode : Z
}.

(** The locks the code takes. *)
Inductive lock_id :=
  | ttys_lock
  | tty_lock (a : addr)
  | tty_fds_lock (a : addr).

(** What an observer of the kernel can see the driver do, in program
    order: lock operations, accesses to a slot of [pty_slave.ttys], stores
    to a pair link, and the calls into the generic terminal layer. *)
Inductive event :=
  | EvLock (l : lock_id)
  | EvUnlock (l : lock_id)
  | EvSlotRead (i : Z)
  | EvSlotWrite (i : Z) (v : option addr)
  | EvStoreOther (a : addr) (v : option addr)
  | EvHangup (a : addr)
  | EvRelease (a : addr)
  | EvInput (a : addr) (buf : list ascii) (blocking : bool).

(** The kernel state: the live terminal objects, the addresses of destroyed
    ones (never handed out again, so that a stale pointer is never mistaken
    for a live object), the table [pty_slave.ttys], the open file
    descriptions, and the trace of events so far. *)
Record kstate := mk_kstate {
  heap : gmap addr tty;
  freed : gset addr;
  slave_ttys : list (option addr);
  fds : gmap fdid fd;
  trace : list event
}.

(** The table [pty_slave.ttys] is declared with [MAX_PTYS] slots. *)
Definition ttys_wf (st : kstate) : Prop :=
  length (slave_ttys st) = Z.to_nat MAX_PTYS.

(** ** Field updates *)

Definition set_refcount (v : Z) (t : tty) : tty :=
  mk_tty (driver t) (num t) v (pty_other t) (pty_locked t) (hung_up t)
         (input t) (tty_fds t).
Definition set_other (v : option addr) (t : tty) : tty :=
  mk_tty (driver t) (num t) (refcount t) v (pty_locked t) (hung_up t)
         (input t) (tty_fds t).
Definition set_locked (v : bool) (t : tty) : tty :=
  mk_tty (driver t) (num t) (refcount t) (pty_other t) v (hung_up t)
         (input t) (tty_fds t).
Definition set_hung_up (v : bool) (t : tty) : tty :=
  mk_tty (driver t) (num t) (refcount t) (pty_other t) (pty_locked t) v
         (input t) (tty_fds t).
Definition set_input (v : list ascii) (t : tty) : tty :=
  mk_tty (driver t) (num t) (refcount t) (pty_other t) (pty_locked t)
         (hung_up t) v (tty_fds t).
Definition set_tty_fds (v : list fdid) (t : tty) : tty :=
  mk_tty (driver t) (num t) (refcount t) (pty_other t) (pty_locked t)
         (hung_up t) (input t) v.

Definition set_fd_tty (v : option addr) (f : fd) : fd :=
  mk_fd v (pty_num f) (offset f).
Definition set_pty_num (v : Z) (f : fd) : fd :=
  mk_fd (fd_tty f) v (offset f).
Definition set_offset (v : Z) (f : fd) : fd :=
  mk_fd (fd_tty f) (pty_num f) v.

Definition with_heap (h : gmap addr tty) (st : kstate) : kstate :=
  mk_kstate h (freed st) (slave_ttys st) (fds st) (trace st).
Definition with_freed (s : gset addr) (st : kstate) : kstate :=
  mk_kstate (heap st) s (slave_ttys st) (fds st) (trace st).
Definition with_slave_ttys (l : list (option addr)) (st : kstate) : kstate :=
  mk_kstate (heap st) (freed st) l (fds st) (trace st).
Definition with_fds (m : gmap fdid fd) (st : kstate) : kstate :=
  mk_kstate (heap st) (freed st) (slave_ttys st) m (trace st).
Definition with_trace (tr : list event) (st : kstate) : kstate :=
  mk_kstate (heap st) (freed st) (slave_ttys st) (fds st) tr.

(** ** The monad of kernel computations *)

Inductive fault :=
  | NullDeref                 (* a null pointer is dereferenced *)
  | Dangling (a : addr)       (* [a] does not hold a live terminal object *)
  | BadFd (f : fdid)          (* [f] is not an open file description *)
  | OutOfBounds (i : Z)       (* [pty_slave.ttys[i]] outside the array *)
  | SignedOverflow            (* [++] on an [int] that holds [INT_MAX] *)
  | AssertFail                (* an [assert] does not hold *)
  | OutOfFuel.                (* a loop ran longer than its bound *)

Inductive result (A : Type) :=
  | Ok (a : A)
  | Fault (f : fault).
Arguments Ok {A} a.
Arguments Fault {A} f.

Definition M (A : Type) : Type := kstate → result (A * kstate).

Global Instance M_ret : MRet M := λ A a st, Ok (a, st).
Global Instance M_bind : MBind M := λ A B f m st,
  match m st with
  | Ok (a, st') => f a st'
  | Fault e => Fault e
  end.

Definition raise {A} (e : fault) : M A := λ _, Fault e.
Definition get_state : M kstate := λ st, Ok (st, st).
Definition put_state (st : kstate) : M unit := λ _, Ok (tt, st).
Definition emit (e : event) : M unit := λ st,
  Ok (tt, with_trace (trace st ++ [e]) st).

(** [lock(&l)] and [unlock(&l)]: in this sequential model they only leave
    their mark in the trace. *)
Definition lock (l : lock_id) : M unit := emit (EvLock l).
Definition unlock (l : lock_id) : M unit := emit (EvUnlock l).

(** Reading [*p] for a [struct tty *p]. *)
Definition tty_load (p : option addr) : M tty := λ st,
  match p with
  | None => Fault NullDeref
  | Some a =>
      match heap st !! a with
      | Some t => Ok (t, st)
      | None => Fault (Dangling a)
      end
  end.

(** Updating fields of [*p]. *)
Definition tty_modify (p : option addr) (f : tty → tty) : M unit := λ st,
  match p with
  | None => Fault NullDeref
  | Some a =>
      match heap st !! a with
      | Some t => Ok (tt, with_heap (<[a := f t]> (heap st)) st)
      | None => Fault (Dangling a)
      end
  end.

(** [p->pty.other = v]. *)
Definition store_other (p : option addr) (v : option addr) : M unit :=
  t ← tty_load p;
  match p with
  | Some a => emit (EvStoreOther a v);; tty_modify p (set_other v)
  | None => raise NullDeref
  end.

(** [pty_slave.ttys[i]] as an rvalue. *)
Definition ttys_read (i : Z) : M (option addr) := λ st,
  if (0 <=? i) && (i <? Z.of_nat (length (slave_ttys st))) then
    match slave_ttys st !! Z.to_nat i with
    | Some slot => Ok (slot, with_trace (trace st ++ [EvSlotRead i]) st)
    | None => Fault (OutOfBounds i)
    end
  else Fault (OutOfBounds i).

(** [pty_slave.ttys[i] = v]. *)
Definition ttys_write (i : Z) (v : option addr) : M unit := λ st,
  if (0 <=? i) && (i <? Z.of_nat (length (slave_ttys st))) then
    Ok (tt, with_slave_ttys (<[Z.to_nat i := v]> (slave_ttys st))
              (with_trace (trace st ++ [EvSlotWrite i v]) st))
  else Fault (OutOfBounds i).

Definition fd_load (f : fdid) : M fd := λ st,
  match fds st !! f with
  | Some x => Ok (x, st)
  | None => Fault (BadFd f)
  end.

Definition fd_modify (f : fdid) (g : fd → fd) : M unit := λ st,
  match fds st !! f with
  | Some x => Ok (tt, with_fds (<[f := g x]> (fds st)) st)
  | None => Fault (BadFd f)
  end.

(** ** The generic terminal layer, as far as fs/pty.c calls it *)

(** Modelled from the spec: tty_alloc is part of the generic terminal layer,
    outside the sources.  It "allocates a new ... terminal object" for a
    driver and a number; the object is new, so its address is neither live
    nor the address of a destroyed object. *)
Definition tty_alloc (d : tty_driver) (n : Z) : M addr := λ st,
  let a := fresh (dom (heap st) ∪ freed st) in
  Ok (a, with_heap (<[a := mk_tty d n 0 None false false [] []]> (heap st)) st).

(** Modelled from the spec: tty_hangup is the external hang-up operation,
    which "notifies/evicts any holder" of the terminal; the object records
    that it was hung up. *)
Definition tty_hangup (p : option addr) : M unit :=
  match p with
  | None => raise NullDeref
  | Some a => emit (EvHangup a);; tty_modify p (set_hung_up true)
  end.

(** The slot of the slave table that belongs to number [n], emptied. *)
Definition clear_slot (n : Z) (l : list (option addr)) : list (option addr) :=
  if decide (0 <= n) then <[Z.to_nat n := None]> l else l.

(** Modelled from the spec: tty_release drops one reference and "may trigger
    the ... object's own destruction if no other holder remains"; a slot of
    the slave table "is non-absent if and only if a live slave object with
    that number exists", so destroying a slave empties its slot.  (The
    generic layer runs the cleanup hook of the object's driver first; the
    only call in fs/pty.c releases the slave, and pty_slave_ops has no
    cleanup hook.) *)
Definition tty_release (p : option addr) : M unit :=
  t ← tty_load p;
  match p with
  | None => raise NullDeref
  | Some a =>
      emit (EvRelease a);;
      if decide (refcount t - 1 = 0) then
        st ← get_state;
        put_state
          (mk_kstate (delete a (heap st)) ({[a]} ∪ freed st)
                     (match driver t with
                      | pty_slave => clear_slot (num t) (slave_ttys st)
                      | pty_master => slave_ttys st
                      end)
                     (fds st) (trace st))
      else tty_modify p (set_refcount (refcount t - 1))
  end.

(** Modelled from the spec: tty_input is the external queue-input
    primitive: the bytes become input of the terminal's queue, in order.
    It reads the terminal object it is given. *)
Definition tty_input (p : option addr) (buf : list ascii) (blocking : bool)
  : M Z :=
  t ← tty_load p;
  match p with
  | None => raise NullDeref
  | Some a =>
      emit (EvInput a buf blocking);;
      tty_modify p (set_input (input t ++ buf));;
      mret 0
  end.

(** [lock(&p->lock)] and [unlock(&p->lock)] for a [struct tty *p]. *)
Definition lock_tty (p : option addr) : M unit :=
  match p with
  | None => raise NullDeref
  | Some a => lock (tty_lock a)
  end.
Definition unlock_tty (p : option addr) : M unit :=
  match p with
  | None => raise NullDeref
  | Some a => unlock (tty_lock a)
  end.

(** ** The master and slave drivers *)

Definition pty_master_init (tty : addr) : M Z :=
  t ← tty_load (Some tty);
  slave ← tty_alloc pty_slave (num t);
  tty_modify (Some slave) (set_refcount 1);;
  ttys_write (num t) (Some slave);;
  store_other (Some tty) (Some slave);;
  store_other (Some slave) (Some tty);;
  tty_modify (Some slave) (set_locked true);;
  mret 0.

Definition pty_master_cleanup (tty : addr) : M unit :=
  t ← tty_load (Some tty);
  let slave := pty_other t in
  store_other slave None;;
  lock_tty slave;;
  tty_hangup slave;;
  unlock_tty slave;;
  tty_release slave.

Definition pty_slave_open (tty : addr) : M Z :=
  t ← tty_load (Some tty);
  if decide (pty_other t = None) then mret _EIO
  else if pty_locked t then mret _EIO
  else mret 0.

(** A [dword_t] holds a value modulo 2^32. *)
Definition to_dword (x : Z) : Z := x mod 2 ^ 32.

(** [arg] is the [dword_t] that the pointer argument points to; the second
    component of the result is that [dword_t] when the call returns. *)
Definition pty_ioctl (tty : addr) (cmd : Z) (arg : Z) : M (Z * Z) :=
  t ← tty_load (Some tty);
  let slave := pty_other t in
  if decide (cmd = TIOCSPTLCK_) then
    tty_modify slave (set_locked (negb (arg =? 0)));;
    mret (0, arg)
  else if decide (cmd = TIOCGPTN_) then
    s ← tty_load slave;
    mret (0, to_dword (num s))
  else mret (_EINVAL, arg).

Definition pty_write (tty : addr) (buf : list ascii) (blocking : bool) : M Z :=
  t ← tty_load (Some tty);
  tty_input (pty_other t) buf blocking.

Definition pty_return_eio (tty : addr) : M Z := mret _EIO.

(** [struct tty_driver_ops]: a hook is [None] where the table leaves it
    out. *)
Record tty_driver_ops := mk_ops {
  init : option (addr → M Z);
  open : option (addr → M Z);
  write : option (addr → list ascii → bool → M Z);
  ioctl : option (addr → Z → Z → M (Z * Z));
  cleanup : option (addr → M unit)
}.

Definition pty_master_ops : tty_driver_ops :=
  {| init := Some pty_master_init;
     open := Some pty_return_eio;
     write := Some pty_write;
     ioctl := Some pty_ioctl;
     cleanup := Some pty_master_cleanup |}.

Definition pty_slave_ops : tty_driver_ops :=
  {| init := Some pty_return_eio;
     open := Some pty_slave_open;
     write := Some pty_write;
     ioctl := None;
     cleanup := None |}.

Definition ops (d : tty_driver) : tty_driver_ops :=
  match d with
  | pty_master => pty_master_ops
  | pty_slave => pty_slave_ops
  end.

(** A pointer or an error code ([ERR_PTR], [IS_ERR], [PTR_ERR]). *)
Inductive ptr_result (A : Type) :=
  | Ptr (p : A)
  | ErrPtr (e : Z).
Arguments Ptr {A} p.
Arguments ErrPtr {A} e.

(** Modelled from the spec: tty_get is the external terminal-construction
    primitive, which "obtains (creates) a new ... terminal object for that
    number" and "internally invokes" the init hook of the driver; the caller
    holds a reference to the object it gets. *)
Definition tty_get (d : tty_driver) (n : Z) : M (ptr_result addr) :=
  a ← tty_alloc d n;
  err ← (match init (ops d) with
         | Some f => f a
         | None => mret 0
         end);
  if decide (err < 0) then mret (ErrPtr err)
  else
    t ← tty_load (Some a);
    tty_modify (Some a) (set_refcount (refcount t + 1));;
    mret (Ptr a).

(** ** The allocator *)

(** The loop of ptmx_open; [fuel] bounds the number of iterations. *)
Fixpoint ptmx_scan (fuel : nat) (pty_num : Z) : M Z :=
  if decide (pty_num < MAX_PTYS) then
    match fuel with
    | O => raise OutOfFuel
    | S fuel' =>
        slot ← ttys_read pty_num;
        match slot with
        | None => mret pty_num
        | Some _ => ptmx_scan fuel' (pty_num + 1)
        end
    end
  else mret pty_num.

Definition ptmx_open (fd : fdid) : M Z :=
  lock ttys_lock;;
  pty_num ← ptmx_scan (Z.to_nat MAX_PTYS) 0;
  unlock ttys_lock;;
  if decide (pty_num = MAX_PTYS) then mret _ENOSPC
  else
    r ← tty_get pty_master pty_num;
    match r with
    | ErrPtr e => mret e
    | Ptr tty =>
        fd_modify fd (set_fd_tty (Some tty));;
        lock (tty_fds_lock tty);;
        tty_modify (Some tty) (λ t, set_tty_fds (fd :: tty_fds t) t);;
        unlock (tty_fds_lock tty);;
        mret 0
    end.

(** ** C strings and numbers *)

(** A path is the sequence of characters before the terminating NUL. *)

(** [isdigit], in the C locale. *)
Definition isdigit (c : ascii) : bool :=
  let n := Z.of_N (N_of_ascii c) in (48 <=? n) && (n <=? 57).

(** [isspace], in the C locale. *)
Definition isspace (c : ascii) : bool :=
  let n := Z.of_N (N_of_ascii c) in (n =? 32) || ((9 <=? n) && (n <=? 13)).

Definition digit_val (c : ascii) : Z := Z.of_N (N_of_ascii c) - 48.

Fixpoint isdigits (str : string) : bool :=
  match str with
  | EmptyString => true
  | String c rest => if negb (isdigit c) then false else isdigits rest
  end.

(** [strchr(s, c)] for a character [c] other than NUL: the suffix of [s]
    that starts at the first [c], or the null pointer. *)
Fixpoint strchr (s : string) (c : ascii) : option string :=
  match s with
  | EmptyString => None
  | String d rest => if Ascii.eqb d c then Some s else strchr rest c
  end.

(** The digits at the start of [s], read in base 10 onto [acc]. *)
Fixpoint read_digits (acc : Z) (s : string) : Z :=
  match s with
  | EmptyString => acc
  | String c rest =>
      if isdigit c then read_digits (acc * 10 + digit_val c) rest else acc
  end.

Fixpoint skip_space (s : string) : string :=
  match s with
  | String c rest => if isspace c then skip_space rest else s
  | EmptyString => s
  end.

Definition clamp_long (x : Z) : Z := Z.max LONG_MIN (Z.min LONG_MAX x).

(** [atol]: white space, an optional sign, digits; a value that a [long]
    cannot hold comes out as the nearest bound, as [strtol] gives it. *)
Definition atol (s : string) : Z :=
  match skip_space s with
  | String "-" rest => clamp_long (- read_digits 0 rest)
  | String "+" rest => clamp_long (read_digits 0 rest)
  | s' => clamp_long (read_digits 0 s')
  end.

(** The conversion of an integer to [int]. *)
Definition to_int (x : Z) : Z := (x - INT_MIN) mod 2 ^ 32 + INT_MIN.

(** [sprintf(buf, "%d", n)]. *)
Definition sprintf_d (n : Z) : string := pretty n.

(** ** The devpts file system *)

Definition devpts_pty_exists (pty_num : Z) : M bool :=
  if decide (pty_num < 0 ∨ pty_num > MAX_PTYS) then mret false
  else
    lock ttys_lock;;
    slot ← ttys_read pty_num;
    let exists_ := bool_decide (slot ≠ None) in
    unlock ttys_lock;;
    mret exists_.

Definition devpts_get_pty_num (path : string) : M Z :=
  match path with
  | EmptyString => mret (-1)
  | String c0 name =>
      if negb (Ascii.eqb c0 "/") || bool_decide (name = EmptyString)
         || bool_decide (strchr name "/" ≠ None)
      then mret _ENOENT
      else if negb (isdigits name) then mret _ENOENT
      else
        let pty_long := atol name in
        if decide (pty_long > INT_MAX) then mret _ENOENT
        else
          let pty_num := to_int pty_long in
          e ← devpts_pty_exists pty_num;
          if negb e then mret _ENOENT else mret pty_num
  end.

(** Modelled from the spec: fd_create belongs to the file-descriptor
    abstraction, outside the sources; open "produces a filesystem handle",
    a new file description. *)
Definition fd_create : M fdid := λ st,
  let f := fresh (dom (fds st)) in
  Ok (f, with_fds (<[f := mk_fd None 0 0]> (fds st)) st).

Definition devpts_open (path : string) : M (ptr_result fdid) :=
  pty_num ← devpts_get_pty_num path;
  if decide (pty_num = _ENOENT) then mret (ErrPtr _ENOENT)
  else
    fd ← fd_create;
    fd_modify fd (set_pty_num pty_num);;
    mret (Ptr fd).

(** The second component is what the call leaves in [buf]. *)
Definition devpts_getpath (fd : fdid) : M (Z * string) :=
  f ← fd_load fd;
  if decide (pty_num f = -1) then mret (0, EmptyString)
  else mret (0, String "/" (sprintf_d (pty_num f))).

(** The do-while loop of devpts_readdir, entered with the value of
    [pty_num] before the increment. *)
Fixpoint readdir_scan (fuel : nat) (pty_num : Z) : M Z :=
  if decide (pty_num = INT_MAX) then raise SignedOverflow
  else
    let pty_num := pty_num + 1 in
    if decide (pty_num < MAX_PTYS) then
      e ← devpts_pty_exists pty_num;
      if negb e then
        match fuel with
        | O => raise OutOfFuel
        | S fuel' => readdir_scan fuel' pty_num
        end
      else mret pty_num
    else mret pty_num.

(** The result is the return value and, when that is 1, the entry the call
    filled in. *)
Definition devpts_readdir (fd : fdid) : M (Z * option dir_entry) :=
  f ← fd_load fd;
  if decide (pty_num f = -1) then
    let pty_num := to_int (offset f - 1) in
    pty_num ← readdir_scan (Z.to_nat (MAX_PTYS - pty_num)) pty_num;
    if decide (pty_num >= MAX_PTYS) then mret (0, None)
    else mret (1, Some (mk_dir_entry (sprintf_d pty_num) (pty_num + 3)))
  else raise AssertFail.


(** ** States used in examples *)

(** No pair allocated; file description 1 is open. *)
Definition st_empty : kstate :=
  mk_kstate ∅ ∅ (replicate (Z.to_nat MAX_PTYS) None)
            {[1%positive := mk_fd None 0 0]} [].

Definition example_master : tty :=
  mk_tty pty_master 0 1 (Some 2%positive) false false [] [1%positive].
Definition example_slave : tty :=
  mk_tty pty_slave 0 2 (Some 1%positive) false false [] [].

(** One pair with number 0: the master at address 1, the slave at address
    2, unlocked and held by a second holder; file description 1 is the
    master's, file description 2 is a devpts root handle. *)
Definition st_pair : kstate :=
  mk_kstate {[1%positive := example_master; 2%positive := example_slave]} ∅
            (<[0%nat := Some 2%positive]> (replicate (Z.to_nat MAX_PTYS) None))
            {[1%positive := mk_fd (Some 1%positive) 0 0;
              2%positive := mk_fd None (-1) 0]} [].

(** Every slot of the slave table taken. *)
Definition st_full : kstate :=
  mk_kstate ∅ ∅ (replicate (Z.to_nat MAX_PTYS) (Some 1%positive))
            {[1%positive := mk_fd None 0 0]} [].

(** A master that the generic layer has allocated for number 0 and not yet
    initialised. *)
Definition st_new_master : kstate :=
  mk_kstate {[1%positive := mk_tty pty_master 0 0 None false false [] []]} ∅
            (replicate (Z.to_nat MAX_PTYS) None) ∅ [].

(** The state a computation leaves behind (the state it started from, if it
    faults). *)
Definition exec {A} (m : M A) (st : kstate) : kstate :=
  match m st with
  | Ok (_, st') => st'
  | Fault _ => st
  end.

(** [st_pair] after opening "/0", and after opening "/00". *)
Definition st_pair_open_0 : kstate := exec (devpts_open "/0") st_pair.
Definition st_pair_open_00 : kstate := exec (devpts_open "/00") st_pair.

(** [st_pair] after the master's cleanup. *)
Definition st_pair_cleaned : kstate := exec (pty_master_cleanup 1%positive) st_pair.

(** ** The slave table and traces *)

(** Slot [j] of the slave table holds a terminal object. *)
Definition slot_present (st : kstate) (j : nat) : Prop :=
  ∃ a, slave_ttys st !! j = Some (Some a).

(** The slot reads of a scan over [len] numbers from [i] on. *)
Definition slot_reads (i : Z) (len : Z) : list event :=
  EvSlotRead <$> seqZ i len.

Global Arguments slot_reads : simpl never.

(** The objects a successful [tty_get(&pty_master, n)] creates. *)
Definition new_master (n : Z) (s : addr) : tty :=
  mk_tty pty_master n 1 (Some s) false false [] [].
Definition new_slave (n : Z) (m : addr) : tty :=
  mk_tty pty_slave n 1 (Some m) true false [] [].

(** The events of one [pty_master_cleanup] on a master linked to [s]. *)
Definition cleanup_events (s : addr) : list event :=
  [EvStoreOther s None; EvLock (tty_lock s); EvHangup s;
   EvUnlock (tty_lock s); EvRelease s].

(** ** Canonical paths *)

(** A digit string without a redundant leading zero: "0" itself, or one
    that does not start with "0". *)
Definition no_leading_zero (name : string) : bool :=
  match name with
  | EmptyString => true
  | String c rest => negb (Ascii.eqb c "0") || bool_decide (rest = EmptyString)
  end.

(** The empty path, or a slash followed by such a digit string. *)
Definition canonical_path (path : string) : bool :=
  match path with
  | EmptyString => true
  | String _ name => no_leading_zero name
  end.

(** ** Enumerating the directory *)

(** Pair number [i] is in the slave table. *)
Definition pty_presentb (st : kstate) (i : Z) : bool :=
  match (if decide (0 <= i) then slave_ttys st !! Z.to_nat i else None) with
  | Some (Some _) => true
  | _ => false
  end.

(** The events of one existence check below [MAX_PTYS]. *)
Definition probe_events (i : Z) : list event :=
  if decide (i < 0) then []
  else [EvLock ttys_lock; EvSlotRead i; EvUnlock ttys_lock].

(** The events of the existence checks for [len] numbers from [c] on. *)
Definition readdir_events (c len : Z) : list event :=
  concat (probe_events <$> seqZ c len).

(** The entry [devpts_readdir] fills in for pair number [n]. *)
Definition entry_of (n : Z) : dir_entry := mk_dir_entry (sprintf_d n) (n + 3).

(** The pair numbers from [c] up to [MAX_PTYS] that are in the table. *)
Definition present_from (st : kstate) (c : Z) : list Z :=
  List.filter (pty_presentb st) (seqZ c (MAX_PTYS - c)).

(** A caller that lists the directory: it calls [devpts_readdir] until
    there is no entry, and after each entry it moves the cursor of the
    handle to one past the number of that entry ([inode - 3]). *)
Fixpoint readdir_all (fuel : nat) (fid : fdid) : M (list dir_entry) :=
  match fuel with
  | O => mret []
  | S fuel' =>
      r ← devpts_readdir fid;
      match r with
      | (_, Some e) =>
          fd_modify fid (set_offset (inode e - 3 + 1));;
          es ← readdir_all fuel' fid;
          mret (e :: es)
      | (_, None) => mret []
      end
  end.

(** Following the spec's words: the entry one call yields is that of "the
    first present slot found" when "starting just after the handle's
    current cursor". *)
Fixpoint first_present_after (fuel : nat) (st : kstate) (cursor : Z)
  : option Z :=
  match fuel with
  | O => None
  | S fuel' =>
      let n := cursor + 1 in
      if decide (MAX_PTYS <= n) then None
      else if pty_presentb st n then Some n
      else first_present_after fuel' st n
  end.
Definition readdir_spec (st : kstate) (cursor : Z) : option dir_entry :=
  entry_of <$> first_present_after (Z.to_nat (MAX_PTYS - cursor)) st cursor.

(** [st_pair] with the root handle's cursor on the entry just read. *)
Definition st_pair_cursor_0 : kstate :=
  exec (fd_modify 2%positive (set_offset 0)) (exec (devpts_readdir 2%positive) st_pair).

(** ** The operations of the core, and the shape of the pair links *)

(** What the rest of the kernel can ask of this file: a hook of a terminal's
    driver on a live terminal, [ptmx_open], or a devpts request. *)
Inductive core_op :=
  | OpInit (t : addr)
  | OpOpen (t : addr)
  | OpWrite (t : addr) (buf : list ascii) (blocking : bool)
  | OpIoctl (t : addr) (cmd arg : Z)
  | OpCleanup (t : addr)
  | OpPtmxOpen (fid : fdid)
  | OpDevptsOpen (path : string)
  | OpDevptsGetpath (fid : fdid)
  | OpDevptsReaddir (fid : fdid).

(** The call goes through the operation table of the terminal's driver; a
    hook that the table leaves out is not called. *)
Definition run_op (o : core_op) : M unit :=
  match o with
  | OpInit t =>
      x ← tty_load (Some t);
      match init (ops (driver x)) with
      | Some h => h t;; mret tt
      | None => mret tt
      end
  | OpOpen t =>
      x ← tty_load (Some t);
      match open (ops (driver x)) with
      | Some h => h t;; mret tt
      | None => mret tt
      end
  | OpWrite t buf blocking =>
      x ← tty_load (Some t);
      match write (ops (driver x)) with
      | Some h => h t buf blocking;; mret tt
      | None => mret tt
      end
  | OpIoctl t cmd arg =>
      x ← tty_load (Some t);
      match ioctl (ops (driver x)) with
      | Some h => h t cmd arg;; mret tt
      | None => mret tt
      end
  | OpCleanup t =>
      x ← tty_load (Some t);
      match cleanup (ops (driver x)) with
      | Some h => h t
      | None => mret tt
      end
  | OpPtmxOpen fid => ptmx_open fid;; mret tt
  | OpDevptsOpen path => devpts_open path;; mret tt
  | OpDevptsGetpath fid => devpts_getpath fid;; mret tt
  | OpDevptsReaddir fid => devpts_readdir fid;; mret tt
  end.

(** Every link of a live object points to an address that is live or was
    live once. *)
Definition links_closed (st : kstate) : Prop :=
  ∀ a t x, heap st !! a = Some t → pty_other t = Some x →
           x ∈ dom (heap st) ∪ freed st.

(** The link of a live master does not point to a live master. *)
Definition master_links (st : kstate) : Prop :=
  ∀ a t x tx, heap st !! a = Some t → driver t = pty_master →
              pty_other t = Some x → heap st !! x = Some tx →
              driver tx = pty_slave.

Definition pair_inv (st : kstate) : Prop := links_closed st ∧ master_links st.

(** What one operation can do to the terminal objects. *)
Inductive heap_effect (st st' : kstate) : Prop :=
  | eff_none :
      heap st' = heap st → freed st' = freed st → heap_effect st st'
  | eff_update a t t' :
      heap st !! a = Some t →
      driver t' = driver t → pty_other t' = pty_other t →
      heap st' = <[a := t']> (heap st) → freed st' = freed st →
      heap_effect st st'
  | eff_init m tm s ts :
      heap st !! m = Some tm → driver tm = pty_master →
      heap st !! s = None → s ∉ freed st →
      driver ts = pty_slave → pty_other ts = Some m →
      heap st' = <[s := ts]> (<[m := set_other (Some s) tm]> (heap st)) →
      freed st' = freed st →
      heap_effect st st'
  | eff_cleanup_keep m tm s ts ts' :
      heap st !! m = Some tm → driver tm = pty_master →
      pty_other tm = Some s → heap st !! s = Some ts →
      driver ts' = driver ts → pty_other ts' = None →
      heap st' = <[s := ts']> (heap st) → freed st' = freed st →
      heap_effect st st'
  | eff_cleanup_destroy m tm s ts :
      heap st !! m = Some tm → driver tm = pty_master →
      pty_other tm = Some s → heap st !! s = Some ts →
      heap st' = delete s (heap st) → freed st' = {[s]} ∪ freed st →
      heap_effect st st'
  | eff_alloc_pair m tm s ts :
      heap st !! m = None → m ∉ freed st →
      heap st !! s = None → s ∉ freed st → m ≠ s →
      driver tm = pty_master → pty_other tm = Some s →
      driver ts = pty_slave → pty_other ts = Some m →
      heap st' = <[m := tm]> (<[s := ts]> (heap st)) →
      freed st' = freed st →
      heap_effect st st'.

(** The terminal objects and the slave table are the same in both states. *)
Definition same_objects (st st' : kstate) : Prop :=
  heap st' = heap st ∧ freed st' = freed st
  ∧ slave_ttys st' = slave_ttys st.

(** The effect of one operation: on the terminal objects as above, and the
    slave table keeps its size. *)
Definition op_effect (st st' : kstate) : Prop :=
  heap_effect st st' ∧ length (slave_ttys st') = length (slave_ttys st).

(** ** stat on devpts *)

(** sys/stat.h: the file type bits of a directory and of a character
    device. *)
Definition S_IFDIR : Z := 16384.
Definition S_IFCHR : Z := 8192.

(** [struct statbuf], with the fields fs/pty.c writes. *)
Record statbuf := mk_statbuf {
  stat_mode : Z;
  stat_uid : Z;
  stat_gid : Z;
  stat_inode : Z;
  stat_rdev : Z
}.

(** [tty->pty.perms], [tty->pty.uid], [tty->pty.gid]: set by other parts of
    the kernel, only read here. *)
Record pty_owner := mk_pty_owner {
  perms : Z;
  uid : Z;
  gid : Z
}.

Section Stat.

(** The owner fields of the terminal object at an address, and what
    fs/tty.h and the device-number header (not part of the sources)
    define: the major number of slave terminals and [dev_make]. *)
Variable owner : addr → pty_owner.
Variable TTY_PSEUDO_SLAVE_MAJOR : Z.
Variable dev_make : Z → Z → Z.

(** The [statbuf] comes in as the caller has it and the result is what
    the call leaves in it. *)
Definition devpts_stat_num (pty_num : Z) (stat : statbuf) : M statbuf :=
  if decide (pty_num = -1) then
    mret (mk_statbuf (Z.lor S_IFDIR 493) (stat_uid stat) (stat_gid stat)
                     1 (stat_rdev stat))
  else
    lock ttys_lock;;
    tty ← ttys_read pty_num;
    match tty with
    | None => raise AssertFail
    | Some a =>
        t ← tty_load (Some a);
        lock (tty_lock a);;
        let stat' :=
          mk_statbuf (Z.lor S_IFCHR (perms (owner a))) (uid (owner a))
                     (gid (owner a)) (pty_num + 3)
                     (dev_make TTY_PSEUDO_SLAVE_MAJOR pty_num) in
        unlock (tty_lock a);;
        unlock ttys_lock;;
        mret stat'
    end.

Definition devpts_fstat (fd : fdid) (stat : statbuf) : M (Z * statbuf) :=
  f ← fd_load fd;
  stat' ← devpts_stat_num (pty_num f) stat;
  mret (0, stat').

Definition devpts_stat (path : string) (stat : statbuf) : M (Z * statbuf) :=
  pty_num ← devpts_get_pty_num path;
  if decide (pty_num = _ENOENT) then mret (_ENOENT, stat)
  else
    stat' ← devpts_stat_num pty_num stat;
    mret (0, stat').

End Stat.

(** What stat reports for the root, and for pair number [n] whose slave is
    at address [a]. *)
Definition root_stat (sb : statbuf) : statbuf :=
  mk_statbuf (Z.lor S_IFDIR 493) (stat_uid sb) (stat_gid sb) 1 (stat_rdev sb).
Definition slave_stat (owner : addr → pty_owner) (major : Z)
    (dev_make : Z → Z → Z) (n : Z) (a : addr) : statbuf :=
  mk_statbuf (Z.lor S_IFCHR (perms (owner a))) (uid (owner a))
             (gid (owner a)) (n + 3) (dev_make major n).

(** The events of [devpts_stat_num] for pair number [n] at address [a]. *)
Definition stat_events (n : Z) (a : addr) : list event :=
  [EvLock ttys_lock; EvSlotRead n; EvLock (tty_lock a);
   EvUnlock (tty_lock a); EvUnlock ttys_lock].

(** ** The slave table against the heap *)

(** Every slot of the slave table that is taken holds a live terminal
    object of the slave driver whose number is the index of the slot. *)
Definition table_live (st : kstate) : Prop :=
  ∀ (i : nat) (a : addr),
    slave_ttys st !! i = Some (Some a) →
    ∃ t, heap st !! a = Some t ∧ driver t = pty_slave ∧ num t = Z.of_nat i.

(** Owner fields, major number and [dev_make] used in examples. *)
Definition example_owner (a : addr) : pty_owner := mk_pty_owner 400 0 5.
Definition example_dev_make (major minor : Z) : Z :=
  Z.lor (Z.lor (Z.shiftl (Z.land minor 1048320) 12) (Z.shiftl major 8))
        (Z.land minor 255).
Definition example_statbuf : statbuf := mk_statbuf 0 0 0 0 0.

(** ** Reachable states *)

(** A system that has no terminal object yet. *)
Definition initial (st : kstate) : Prop :=
  heap st = ∅ ∧ slave_ttys st = replicate (Z.to_nat MAX_PTYS) None.

(** The states the core gets to from there, one operation after the
    other. *)
Inductive reachable : kstate → Prop :=
  | reach_initial st : initial st → reachable st
  | reach_step o st st' :
      reachable st → run_op o st = Ok (tt, st') → reachable st'.

(** [st_empty] after one [ptmx_open]. *)
Definition st_one_pair : kstate := exec (ptmx_open 1%positive) st_empty.

(** Every descriptor of [st] is still there in [st'], with the same
    contents. *)
Definition fds_kept (st st' : kstate) : Prop :=
  ∀ (fid : fdid) (f : fd), fds st !! fid = Some f → fds st' !! fid = Some f.

(** ** The locking discipline *)

Global Instance lock_id_eq_dec : EqDecision lock_id.
Proof. solve_decision. Defined.

(** The locks held after the events [tr], starting from the locks [held]
    (the one taken last comes first).  There is no answer when a lock is
    released that is not the one taken last, or when a slot of the slave
    table is read without [ttys_lock]. *)
Fixpoint locks_after (tr : list event) (held : list lock_id)
  : option (list lock_id) :=
  match tr with
  | [] => Some held
  | EvLock l :: tr' => locks_after tr' (l :: held)
  | EvUnlock l :: tr' =>
      match held with
      | l' :: held' => if decide (l' = l) then locks_after tr' held' else None
      | [] => None
      end
  | EvSlotRead _ :: tr' =>
      if decide (ttys_lock ∈ held) then locks_after tr' held else None
  | _ :: tr' => locks_after tr' held
  end.

(** From [st] to [st'] the trace has grown by events that take the held
    locks from [held] to [held']. *)
Definition locks_run (held held' : list lock_id) (st st' : kstate) : Prop :=
  ∃ tr, trace st' = trace st ++ tr ∧ locks_after tr held = Some held'.

(** ** Pair numbers over time *)

(** From the first state the second is reached by core operations, one
    after the other. *)
Inductive run_ops : kstate → kstate → Prop :=
  | run_ops_refl st : run_ops st st
  | run_ops_step o st st' st'' :
      run_ops st st' → run_op o st' = Ok (tt, st'') → run_ops st st''.

(** What one operation can do to numbers and links: an object of [st']
    was there before with the same number, and its link is the same, or
    null, or points to an object that is new and carries its number; or
    the object itself is new. *)
Definition numbers_kept (st st' : kstate) : Prop :=
  ∀ (a : addr) (t' : tty), heap st' !! a = Some t' →
    (∃ t, heap st !! a = Some t ∧ num t' = num t
          ∧ (pty_other t' = pty_other t ∨ pty_other t' = None
             ∨ ∃ s ts, pty_other t' = Some s
                       ∧ heap st !! s = None ∧ s ∉ freed st
                       ∧ heap st' !! s = Some ts ∧ num ts = num t))
    ∨ (heap st !! a = None ∧ a ∉ freed st).

(** The address [m] is in use, and as long as the object there is live
    it has number [n] and so has the object its link points to, if that
    one is live. *)
Definition pair_number (m : addr) (n : Z) (st : kstate) : Prop :=
  m ∈ dom (heap st) ∪ freed st
  ∧ ∀ tm, heap st !! m = Some tm →
      num tm = n
      ∧ ∀ s, pty_other tm = Some s →
          s ∈ dom (heap st) ∪ freed st
          ∧ ∀ ts, heap st !! s = Some ts → num ts = n.

(** [st_one_pair] after the master has taken the slave's lock off. *)
Definition st_one_pair_unlocked : kstate :=
  exec (run_op (OpIoctl 1%positive TIOCSPTLCK_ 0)) st_one_pair.

(** The body of [pty_write] (pty.c:55-57) over any input primitive: the
    external [tty_input] is a parameter here. *)
Definition pty_write_with
    (input_prim : option addr → list ascii → bool → M Z)
    (tty : addr) (buf : list ascii) (blocking : bool) : M Z :=
  t ← tty_load (Some tty);
  input_prim (pty_other t) buf blocking.
(** * Properties *)

(** ** Running computations *)

Lemma bind_Ok {A B} (m : M A) (f : A → M B) st a st' :
  m st = Ok (a, st') → (m ≫= f) st = f a st'.
Proof. intros H. unfold mbind, M_bind. by rewrite H. Qed.

Lemma bind_Fault {A B} (m : M A) (f : A → M B) st e :
  m st = Fault e → (m ≫= f) st = Fault e.
Proof. intros H. unfold mbind, M_bind. by rewrite H. Qed.

Lemma bind_inv {A B} (m : M A) (f : A → M B) st b st2 :
  (m ≫= f) st = Ok (b, st2) →
  ∃ a st1, m st = Ok (a, st1) ∧ f a st1 = Ok (b, st2).
Proof.
  unfold mbind, M_bind. destruct (m st) as [[a st1]|e]; [|done]. eauto.
Qed.

Lemma Ok_inv {A} (a b : A) (s s' : kstate) :
  Ok (a, s) = Ok (b, s') → a = b ∧ s = s'.
Proof. by intros [= -> ->]. Qed.

Lemma tty_load_Ok st a t :
  heap st !! a = Some t → tty_load (Some a) st = Ok (t, st).
Proof. intros H. unfold tty_load. by rewrite H. Qed.

Lemma tty_modify_Ok st a t f :
  heap st !! a = Some t →
  tty_modify (Some a) f st = Ok (tt, with_heap (<[a := f t]> (heap st)) st).
Proof. intros H. unfold tty_modify. by rewrite H. Qed.

Lemma store_other_Ok st a t v :
  heap st !! a = Some t →
  store_other (Some a) v st =
    Ok (tt, with_heap (<[a := set_other v t]> (heap st))
              (with_trace (trace st ++ [EvStoreOther a v]) st)).
Proof.
  intros H. unfold store_other.
  rewrite (bind_Ok _ _ _ _ _ (tty_load_Ok _ _ _ H)).
  unfold mbind, M_bind, emit. simpl. by rewrite H.
Qed.

Lemma ttys_read_Ok st (n : nat) slot :
  slave_ttys st !! n = Some slot →
  ttys_read (Z.of_nat n) st =
    Ok (slot, with_trace (trace st ++ [EvSlotRead (Z.of_nat n)]) st).
Proof.
  intros H. unfold ttys_read.
  pose proof (lookup_lt_Some _ _ _ H) as Hlt.
  rewrite Nat2Z.id, H.
  destruct (0 <=? Z.of_nat n) eqn:E1; [|lia].
  destruct (Z.of_nat n <? Z.of_nat (length (slave_ttys st))) eqn:E2; [done|lia].
Qed.

Lemma ttys_read_oob st i :
  i < 0 ∨ Z.of_nat (length (slave_ttys st)) <= i →
  ttys_read i st = Fault (OutOfBounds i).
Proof.
  intros H. unfold ttys_read.
  destruct (0 <=? i) eqn:E1; [|done].
  destruct (i <? Z.of_nat (length (slave_ttys st))) eqn:E2; [lia|done].
Qed.

Lemma ttys_write_Ok st i v :
  0 <= i < Z.of_nat (length (slave_ttys st)) →
  ttys_write i v st =
    Ok (tt, with_slave_ttys (<[Z.to_nat i := v]> (slave_ttys st))
              (with_trace (trace st ++ [EvSlotWrite i v]) st)).
Proof.
  intros H. unfold ttys_write.
  destruct (0 <=? i) eqn:E1; [|lia].
  destruct (i <? Z.of_nat (length (slave_ttys st))) eqn:E2; [done|lia].
Qed.

Lemma MAX_PTYS_eq : MAX_PTYS = 4096.
Proof. reflexivity. Qed.

(** ** The slave's open *)

(** C3: on a live terminal object, [pty_slave_open] returns [_EIO] exactly
    when [pty.other] is null or [pty.locked] is set, returns 0 in every
    other case, and leaves the whole state as it was. *)
Theorem pty_slave_open_spec (st : kstate) (s : addr) (t : tty) :
  heap st !! s = Some t →
  ∃ r, pty_slave_open s st = Ok (r, st)
       ∧ (r = _EIO ↔ pty_other t = None ∨ pty_locked t = true)
       ∧ (r ≠ _EIO → r = 0).
Proof.
  intros Ht. unfold pty_slave_open.
  rewrite (bind_Ok _ _ _ _ _ (tty_load_Ok _ _ _ Ht)).
  destruct (decide (pty_other t = None)) as [Hn|Hn].
  - exists _EIO. split; [done|]. split; [tauto|done].
  - destruct (pty_locked t) eqn:Hl.
    + exists _EIO. split; [done|]. split; [tauto|done].
    + exists 0. split; [done|]. split; [|done].
      split; [discriminate|]. intros [?|?]; congruence.
Qed.

Lemma pty_slave_open_spec_witness :
  ∃ r, pty_slave_open 2%positive st_pair = Ok (r, st_pair)
       ∧ (r = _EIO ↔ pty_other example_slave = None
                      ∨ pty_locked example_slave = true)
       ∧ (r ≠ _EIO → r = 0).
Proof. apply (pty_slave_open_spec st_pair 2%positive example_slave). reflexivity. Defined.

(** ** The master's init *)

Lemma fresh_not_live st :
  heap st !! fresh (dom (heap st) ∪ freed st) = None.
Proof.
  apply not_elem_of_dom. intros H.
  apply (is_fresh (dom (heap st) ∪ freed st)). set_solver.
Qed.

Lemma fresh_not_freed st :
  fresh (dom (heap st) ∪ freed st) ∉ freed st.
Proof.
  intros H. apply (is_fresh (dom (heap st) ∪ freed st)). set_solver.
Qed.

(** The state [pty_master_init] leaves behind, for the master [m] with
    contents [tm]. *)
Lemma pty_master_init_run (st : kstate) (m : addr) (tm : tty) :
  heap st !! m = Some tm →
  0 <= num tm < Z.of_nat (length (slave_ttys st)) →
  let slave := fresh (dom (heap st) ∪ freed st) in
  pty_master_init m st =
    Ok (0, mk_kstate
             (<[slave := mk_tty pty_slave (num tm) 1 (Some m) true false [] []]>
                (<[m := set_other (Some slave) tm]> (heap st)))
             (freed st)
             (<[Z.to_nat (num tm) := Some slave]> (slave_ttys st))
             (fds st)
             (trace st ++ [EvSlotWrite (num tm) (Some slave);
                           EvStoreOther m (Some slave);
                           EvStoreOther slave (Some m)])).
Proof.
  intros Hm Hn slave.
  assert (Hne : slave ≠ m).
  { intros E. pose proof (fresh_not_live st) as F. fold slave in F. congruence. }
  unfold pty_master_init.
  rewrite (bind_Ok _ _ _ _ _ (tty_load_Ok _ _ _ Hm)).
  unfold tty_alloc at 1. unfold mbind at 1, M_bind at 1. fold slave.
  erewrite bind_Ok; cycle 1.
  { apply tty_modify_Ok. simpl. apply lookup_insert_eq. }
  erewrite bind_Ok; cycle 1.
  { apply ttys_write_Ok. simpl. done. }
  erewrite bind_Ok; cycle 1.
  { apply store_other_Ok. simpl. rewrite lookup_insert_ne, lookup_insert_ne by done. done. }
  erewrite bind_Ok; cycle 1.
  { apply store_other_Ok. simpl. rewrite lookup_insert_ne by done. apply lookup_insert_eq. }
  erewrite bind_Ok; cycle 1.
  { apply tty_modify_Ok. simpl. apply lookup_insert_eq. }
  unfold mret, M_ret, with_heap, with_trace, with_slave_ttys. simpl.
  do 2 f_equal. f_equal.
  - apply map_eq. intros i.
    destruct (decide (i = slave)) as [->|Hi]; [by rewrite !lookup_insert_eq|].
    rewrite !(lookup_insert_ne _ slave) by done.
    destruct (decide (i = m)) as [->|Hi']; [by rewrite !lookup_insert_eq|].
    rewrite !(lookup_insert_ne _ m) by done.
    by rewrite !(lookup_insert_ne _ slave) by done.
  - rewrite <- !app_assoc. done.
Qed.

(** C4: [pty_master_init] on a live master whose number indexes the slave
    table returns 0 and leaves exactly this state: a new slave object with
    the master's number and reference count 1, held by the table slot of
    that number, the two objects linked to each other, the slave locked,
    and everything else as before. *)
Theorem pty_master_init_spec (st : kstate) (m : addr) (tm : tty) :
  heap st !! m = Some tm →
  ttys_wf st →
  0 <= num tm < MAX_PTYS →
  ∃ st' slave ts tm',
    pty_master_init m st = Ok (0, st')
    ∧ heap st !! slave = None ∧ (slave ∉ freed st)
    ∧ heap st' !! slave = Some ts
    ∧ driver ts = pty_slave ∧ num ts = num tm ∧ refcount ts = 1
    ∧ slave_ttys st' !! Z.to_nat (num tm) = Some (Some slave)
    ∧ heap st' !! m = Some tm' ∧ pty_other tm' = Some slave
    ∧ pty_other ts = Some m
    ∧ pty_locked ts = true
    ∧ tm' = set_other (Some slave) tm
    ∧ (∀ a, a ≠ m → a ≠ slave → heap st' !! a = heap st !! a)
    ∧ (∀ i, i ≠ Z.to_nat (num tm) → slave_ttys st' !! i = slave_ttys st !! i)
    ∧ length (slave_ttys st') = length (slave_ttys st)
    ∧ fds st' = fds st ∧ freed st' = freed st.
Proof.
  intros Hm Hwf Hn. unfold ttys_wf in Hwf.
  set (slave := fresh (dom (heap st) ∪ freed st)).
  assert (Hne : slave ≠ m).
  { intros E. pose proof (fresh_not_live st) as F. fold slave in F. congruence. }
  eexists _, slave, _, _. split.
  { apply pty_master_init_run; [done|]. rewrite Hwf, Z2Nat.id; lia. }
  simpl. split; [apply fresh_not_live|]. split; [apply fresh_not_freed|].
  split; [apply lookup_insert_eq|]. do 3 (split; [done|]).
  split. { apply list_lookup_insert_eq. rewrite Hwf. lia. }
  split. { rewrite lookup_insert_ne by done. apply lookup_insert_eq. }
  do 4 (split; [done|]).
  split. { intros a ??. by rewrite !lookup_insert_ne. }
  split. { intros i ?. by rewrite list_lookup_insert_ne. }
  split; [apply length_insert|done].
Qed.

Lemma pty_master_init_spec_witness :
  ∃ st' slave,
    pty_master_init 1%positive st_new_master = Ok (0, st')
    ∧ slave_ttys st' !! 0%nat = Some (Some slave)
    ∧ pty_other <$> (heap st' !! 1%positive) = Some (Some slave)
    ∧ pty_other <$> (heap st' !! slave) = Some (Some 1%positive).
Proof.
  destruct (pty_master_init_spec st_new_master 1%positive
              (mk_tty pty_master 0 0 None false false [] []))
    as (st' & slave & ts & tm' & H & _ & _ & Hs & _ & _ & _ & Hslot & Hm' & Ho & Hso & _).
  - reflexivity.
  - reflexivity.
  - rewrite MAX_PTYS_eq. simpl. lia.
  - exists st', slave. split; [exact H|]. split; [exact Hslot|].
    rewrite Hm', Hs. simpl. by rewrite Ho, Hso.
Defined.

(** ** The master's cleanup *)

Lemma emit_Ok st e : emit e st = Ok (tt, with_trace (trace st ++ [e]) st).
Proof. done. Qed.

Lemma tty_hangup_Ok st a t :
  heap st !! a = Some t →
  tty_hangup (Some a) st =
    Ok (tt, with_heap (<[a := set_hung_up true t]> (heap st))
              (with_trace (trace st ++ [EvHangup a]) st)).
Proof.
  intros H. unfold tty_hangup.
  rewrite (bind_Ok _ _ _ _ _ (emit_Ok _ _)).
  by rewrite (tty_modify_Ok _ _ t).
Qed.

(** Releasing a reference that is not the last one. *)
Lemma tty_release_keep st a t :
  heap st !! a = Some t → refcount t - 1 ≠ 0 →
  tty_release (Some a) st =
    Ok (tt, with_heap (<[a := set_refcount (refcount t - 1) t]> (heap st))
              (with_trace (trace st ++ [EvRelease a]) st)).
Proof.
  intros H Hr. unfold tty_release.
  rewrite (bind_Ok _ _ _ _ _ (tty_load_Ok _ _ _ H)).
  rewrite (bind_Ok _ _ _ _ _ (emit_Ok _ _)).
  destruct (decide (refcount t - 1 = 0)); [done|].
  by rewrite (tty_modify_Ok _ _ t).
Qed.

(** Releasing the last reference destroys the object. *)
Lemma tty_release_last st a t :
  heap st !! a = Some t → refcount t - 1 = 0 →
  tty_release (Some a) st =
    Ok (tt, mk_kstate (delete a (heap st)) ({[a]} ∪ freed st)
              (match driver t with
               | pty_slave => clear_slot (num t) (slave_ttys st)
               | pty_master => slave_ttys st
               end)
              (fds st) (trace st ++ [EvRelease a])).
Proof.
  intros H Hr. unfold tty_release.
  rewrite (bind_Ok _ _ _ _ _ (tty_load_Ok _ _ _ H)).
  rewrite (bind_Ok _ _ _ _ _ (emit_Ok _ _)).
  destruct (decide (refcount t - 1 = 0)); [done|done].
Qed.

(** The state [pty_master_cleanup] leaves behind when the slave has other
    holders, and when it has none. *)
Lemma pty_master_cleanup_run (st : kstate) (m : addr) (tm : tty) (s : addr)
    (ts : tty) :
  heap st !! m = Some tm → pty_other tm = Some s → heap st !! s = Some ts →
  let ts' := set_hung_up true (set_other None ts) in
  pty_master_cleanup m st =
    Ok (tt,
        if decide (refcount ts - 1 = 0) then
          mk_kstate (delete s (heap st)) ({[s]} ∪ freed st)
            (match driver ts with
             | pty_slave => clear_slot (num ts) (slave_ttys st)
             | pty_master => slave_ttys st
             end)
            (fds st) (trace st ++ cleanup_events s)
        else
          mk_kstate (<[s := set_refcount (refcount ts - 1) ts']> (heap st))
            (freed st) (slave_ttys st) (fds st)
            (trace st ++ cleanup_events s)).
Proof.
  intros Hm Ho Hs ts'. unfold pty_master_cleanup.
  rewrite (bind_Ok _ _ _ _ _ (tty_load_Ok _ _ _ Hm)).
  rewrite Ho. simpl.
  rewrite (bind_Ok _ _ _ _ _ (store_other_Ok _ _ _ _ Hs)).
  unfold lock, unlock.
  rewrite (bind_Ok _ _ _ _ _ (emit_Ok _ _)).
  erewrite bind_Ok; cycle 1.
  { apply tty_hangup_Ok. simpl. apply lookup_insert_eq. }
  rewrite (bind_Ok _ _ _ _ _ (emit_Ok _ _)).
  destruct (decide (refcount ts - 1 = 0)) as [Hr|Hr].
  - erewrite tty_release_last; cycle 1.
    { simpl. apply lookup_insert_eq. }
    { done. }
    simpl. do 2 f_equal. f_equal.
    + rewrite !delete_insert_eq. done.
    + unfold cleanup_events. by rewrite <- !app_assoc.
  - erewrite tty_release_keep; cycle 1.
    { simpl. apply lookup_insert_eq. }
    { done. }
    simpl. unfold with_heap, with_trace. simpl. do 2 f_equal. f_equal.
    + by rewrite !insert_insert_eq.
    + unfold cleanup_events. by rewrite <- !app_assoc.
Qed.

(** C1: [pty_master_cleanup] on a master linked to a live slave [s] first
    stores null into the slave's [pty.other], then takes the slave's lock,
    hangs the slave up, drops the lock, and then releases the slave: these
    five events, in this order, are all it adds to the trace, and the
    hang-up and the release run from a state in which the slave's link is
    already null.  Afterwards, as long as the slave object exists, its
    [pty.other] is null and [pty_slave_open] on it returns [_EIO]. *)
Theorem pty_master_cleanup_order (st : kstate) (m : addr) (tm : tty)
    (s : addr) (ts : tty) :
  heap st !! m = Some tm → pty_other tm = Some s → heap st !! s = Some ts →
  ∃ st1 st',
    pty_master_cleanup m st = Ok (tt, st')
    ∧ trace st' = trace st ++ [EvStoreOther s None; EvLock (tty_lock s);
                               EvHangup s; EvUnlock (tty_lock s);
                               EvRelease s]
    ∧ store_other (Some s) None st = Ok (tt, st1)
    ∧ pty_other <$> (heap st1 !! s) = Some None
    ∧ (lock_tty (Some s);; tty_hangup (Some s);; unlock_tty (Some s);;
       tty_release (Some s)) st1 = Ok (tt, st')
    ∧ (∀ ts', heap st' !! s = Some ts' →
              pty_other ts' = None ∧ pty_slave_open s st' = Ok (_EIO, st'))
    ∧ (refcount ts ≠ 1 → is_Some (heap st' !! s))
    ∧ (refcount ts = 1 → heap st' !! s = None).
Proof.
  intros Hm Ho Hs.
  pose proof (pty_master_cleanup_run st m tm s ts Hm Ho Hs) as Hrun.
  simpl in Hrun.
  eexists _, _. split; [exact Hrun|].
  split. { by destruct (decide (refcount ts - 1 = 0)). }
  split. { by apply store_other_Ok. }
  split. { simpl. by rewrite lookup_insert_eq. }
  split.
  { rewrite <- Hrun. unfold pty_master_cleanup.
    rewrite (bind_Ok _ _ _ _ _ (tty_load_Ok _ _ _ Hm)). rewrite Ho.
    by rewrite (bind_Ok _ _ _ _ _ (store_other_Ok _ _ _ _ Hs)). }
  destruct (decide (refcount ts - 1 = 0)) as [Hr|Hr]; simpl.
  - split. { intros ts'. by rewrite lookup_delete_eq. }
    split; [lia|]. intros _. apply lookup_delete_eq.
  - split.
    { intros ts'. rewrite lookup_insert_eq. intros [= <-]. split; [done|].
      unfold pty_slave_open. erewrite bind_Ok; cycle 1.
      { apply tty_load_Ok. simpl. apply lookup_insert_eq. }
      done. }
    split; [|lia]. intros _. rewrite lookup_insert_eq. eauto.
Qed.

Lemma pty_master_cleanup_order_witness :
  ∃ st',
    pty_master_cleanup 1%positive st_pair = Ok (tt, st')
    ∧ trace st' = [EvStoreOther 2%positive None; EvLock (tty_lock 2%positive);
                   EvHangup 2%positive; EvUnlock (tty_lock 2%positive);
                   EvRelease 2%positive]
    ∧ pty_slave_open 2%positive st' = Ok (_EIO, st').
Proof.
  destruct (pty_master_cleanup_order st_pair 1%positive example_master
              2%positive example_slave)
    as (st1 & st' & H & Htr & _ & _ & _ & Hopen & Hlive & _).
  - reflexivity.
  - reflexivity.
  - reflexivity.
  - exists st'. split; [exact H|]. split; [exact Htr|].
    destruct Hlive as [ts' Hts']; [simpl; lia|].
    exact (proj2 (Hopen ts' Hts')).
Defined.

(** ** The existence check of devpts *)

Lemma with_trace_id st : with_trace (trace st) st = st.
Proof. by destruct st. Qed.

Lemma with_trace_nil_r st : with_trace (trace st ++ []) st = st.
Proof. rewrite app_nil_r. apply with_trace_id. Qed.

(** Outside [0, MAX_PTYS] the check answers "absent" and touches nothing:
    no lock is taken and no slot is read. *)
Lemma devpts_pty_exists_outside st n :
  n < 0 ∨ n > MAX_PTYS → devpts_pty_exists n st = Ok (false, st).
Proof.
  intros H. unfold devpts_pty_exists.
  by destruct (decide (n < 0 ∨ n > MAX_PTYS)).
Qed.

(** Below [MAX_PTYS] the check reads the one slot it is asked about, with
    the table lock held. *)
Lemma devpts_pty_exists_inside st (n : nat) slot :
  Z.of_nat n <= MAX_PTYS →
  slave_ttys st !! n = Some slot →
  devpts_pty_exists (Z.of_nat n) st =
    Ok (bool_decide (slot ≠ None),
        with_trace (trace st ++ [EvLock ttys_lock; EvSlotRead (Z.of_nat n);
                                 EvUnlock ttys_lock]) st).
Proof.
  intros Hn Hslot. unfold devpts_pty_exists.
  destruct (decide (Z.of_nat n < 0 ∨ Z.of_nat n > MAX_PTYS)); [lia|].
  unfold lock, unlock.
  rewrite (bind_Ok _ _ _ _ _ (emit_Ok _ _)).
  erewrite bind_Ok; cycle 1.
  { apply ttys_read_Ok. simpl. exact Hslot. }
  rewrite (bind_Ok _ _ _ _ _ (emit_Ok _ _)).
  unfold mret, M_ret, with_trace. simpl. by rewrite <- !app_assoc.
Qed.

(** At [MAX_PTYS] itself the guard lets the call through and the slot read
    is out of bounds. *)
Lemma devpts_pty_exists_capacity_fault st :
  ttys_wf st → devpts_pty_exists MAX_PTYS st = Fault (OutOfBounds MAX_PTYS).
Proof.
  intros Hwf. unfold ttys_wf in Hwf. unfold devpts_pty_exists.
  destruct (decide (MAX_PTYS < 0 ∨ MAX_PTYS > MAX_PTYS)) as [[?|?]|_];
    [rewrite MAX_PTYS_eq in *; lia|lia|].
  unfold lock. rewrite (bind_Ok _ _ _ _ _ (emit_Ok _ _)).
  apply bind_Fault. apply ttys_read_oob. simpl. rewrite Hwf.
  rewrite MAX_PTYS_eq. lia.
Qed.

(** C2: at [pty_num = MAX_PTYS] the guard of [devpts_pty_exists] lets the
    call through, and the check reads [pty_slave.ttys[MAX_PTYS]], one slot
    past the end of the table; the path "/4096" reaches that read. *)
Theorem devpts_pty_exists_at_capacity (st : kstate) :
  ttys_wf st →
  devpts_pty_exists MAX_PTYS st = Fault (OutOfBounds MAX_PTYS)
  ∧ devpts_get_pty_num "/4096" st = Fault (OutOfBounds MAX_PTYS).
Proof.
  intros Hwf.
  pose proof (devpts_pty_exists_capacity_fault st Hwf) as H.
  split; [exact H|].
  unfold devpts_get_pty_num.
  change (atol "4096") with 4096. change (to_int 4096) with MAX_PTYS.
  simpl. by apply bind_Fault.
Qed.

Lemma devpts_pty_exists_at_capacity_witness :
  devpts_pty_exists 4096 st_pair = Fault (OutOfBounds 4096).
Proof.
  apply (proj1 (devpts_pty_exists_at_capacity st_pair ltac:(reflexivity))).
Defined.

(** ** The allocator *)

Lemma slot_reads_cons i len :
  0 < len → slot_reads i len = EvSlotRead i :: slot_reads (i + 1) (len - 1).
Proof.
  intros H. unfold slot_reads. rewrite (seqZ_cons i len) by done.
  by rewrite Z.add_1_r, Z.sub_1_r.
Qed.

(** The scan stops at the first empty slot [n] at or after [i]. *)
Lemma ptmx_scan_found (fuel : nat) : ∀ (i n : nat) (st : kstate),
  (i ≤ n)%nat → Z.of_nat n < MAX_PTYS →
  slave_ttys st !! n = Some None →
  (∀ j, (i ≤ j < n)%nat → slot_present st j) →
  (n - i < fuel)%nat →
  ptmx_scan fuel (Z.of_nat i) st =
    Ok (Z.of_nat n,
        with_trace (trace st ++ slot_reads (Z.of_nat i) (Z.of_nat (n - i) + 1)) st).
Proof.
  induction fuel as [|fuel IH]; intros i n st Hin Hn Hslot Hbelow Hfuel; [lia|].
  simpl. destruct (decide (Z.of_nat i < MAX_PTYS)); [|lia].
  destruct (decide (i = n)) as [->|Hne].
  - rewrite (bind_Ok _ _ _ _ _ (ttys_read_Ok _ _ _ Hslot)).
    replace (n - n)%nat with 0%nat by lia. done.
  - destruct (Hbelow i) as [a Ha]; [lia|].
    rewrite (bind_Ok _ _ _ _ _ (ttys_read_Ok _ _ _ Ha)).
    replace (Z.of_nat i + 1) with (Z.of_nat (S i)) by lia.
    rewrite (IH (S i) n); [|lia|done|done| |lia].
    + rewrite (slot_reads_cons (Z.of_nat i)) by lia.
      unfold with_trace. simpl. do 3 f_equal.
      rewrite <- app_assoc. simpl. do 3 f_equal; lia.
    + intros j Hj. apply Hbelow. lia.
Qed.

(** The scan runs to [MAX_PTYS] when every slot from [i] on is taken. *)
Lemma ptmx_scan_full (fuel : nat) : ∀ (i : nat) (st : kstate),
  Z.of_nat i <= MAX_PTYS →
  (∀ j, (i ≤ j)%nat → Z.of_nat j < MAX_PTYS → slot_present st j) →
  (Z.to_nat MAX_PTYS - i ≤ fuel)%nat →
  ptmx_scan fuel (Z.of_nat i) st =
    Ok (MAX_PTYS,
        with_trace (trace st ++ slot_reads (Z.of_nat i) (MAX_PTYS - Z.of_nat i)) st).
Proof.
  induction fuel as [|fuel IH]; intros i st Hi Hall Hfuel.
  - assert (Z.of_nat i = MAX_PTYS) as -> by (rewrite MAX_PTYS_eq in *; lia).
    simpl. destruct (decide (MAX_PTYS < MAX_PTYS)); [lia|].
    rewrite Z.sub_diag. unfold slot_reads. simpl.
    by rewrite with_trace_nil_r.
  - simpl. destruct (decide (Z.of_nat i < MAX_PTYS)) as [Hlt|Hge].
    + destruct (Hall i) as [a Ha]; [lia|done|].
      rewrite (bind_Ok _ _ _ _ _ (ttys_read_Ok _ _ _ Ha)).
      replace (Z.of_nat i + 1) with (Z.of_nat (S i)) by lia.
      rewrite (IH (S i)); [|lia| |lia].
      * rewrite (slot_reads_cons (Z.of_nat i)) by lia.
        unfold with_trace. simpl. do 3 f_equal.
        rewrite <- app_assoc. simpl. do 3 f_equal; lia.
      * intros j Hj. apply Hall. lia.
    + assert (Z.of_nat i = MAX_PTYS) as -> by lia.
      rewrite Z.sub_diag. unfold slot_reads. simpl.
      by rewrite with_trace_nil_r.
Qed.

(** A table with [MAX_PTYS] slots either has a first empty slot or is
    full. *)
Lemma first_empty_or_full (st : kstate) :
  ttys_wf st →
  (∃ n : nat, Z.of_nat n < MAX_PTYS ∧ slave_ttys st !! n = Some None
              ∧ ∀ j, (j < n)%nat → slot_present st j)
  ∨ (∀ j : nat, Z.of_nat j < MAX_PTYS → slot_present st j).
Proof.
  intros Hwf. unfold ttys_wf in Hwf. unfold slot_present.
  assert (G : ∀ k : nat, (k ≤ length (slave_ttys st))%nat →
    (∃ n : nat, (n < k)%nat ∧ slave_ttys st !! n = Some None
                ∧ ∀ j, (j < n)%nat → ∃ a, slave_ttys st !! j = Some (Some a))
    ∨ (∀ j : nat, (j < k)%nat → ∃ a, slave_ttys st !! j = Some (Some a))).
  { induction k as [|k IH]; intros Hk.
    - right. intros j Hj. lia.
    - destruct IH as [(n & Hn & Hs & Hb)|Hall]; [lia| |].
      + left. exists n. split; [lia|done].
      + destruct (lookup_lt_is_Some_2 (slave_ttys st) k) as [[a|] Ha]; [lia| |].
        * right. intros j Hj. destruct (decide (j = k)) as [->|]; [eauto|].
          apply Hall. lia.
        * left. exists k. split; [lia|]. split; [done|]. exact Hall. }
  destruct (G (length (slave_ttys st))) as [(n & Hn & Hs & Hb)|Hall]; [done| |].
  - left. exists n. split; [lia|done].
  - right. intros j Hj. apply Hall. lia.
Qed.

Lemma fd_modify_Ok st f x g :
  fds st !! f = Some x →
  fd_modify f g st = Ok (tt, with_fds (<[f := g x]> (fds st)) st).
Proof. intros H. unfold fd_modify. by rewrite H. Qed.

Lemma fd_load_Ok st f x : fds st !! f = Some x → fd_load f st = Ok (x, st).
Proof. intros H. unfold fd_load. by rewrite H. Qed.

(** What [tty_get(&pty_master, n)] does: a new master [m] and, through the
    init hook, a new slave [s]. *)
Lemma tty_get_master_run (st : kstate) (n : Z) :
  0 <= n < Z.of_nat (length (slave_ttys st)) →
  let m := fresh (dom (heap st) ∪ freed st) in
  let s := fresh (dom (<[m := mk_tty pty_master n 0 None false false [] []]>
                         (heap st)) ∪ freed st) in
  m ≠ s ∧ heap st !! m = None ∧ heap st !! s = None
  ∧ (m ∉ freed st) ∧ (s ∉ freed st)
  ∧ tty_get pty_master n st =
      Ok (Ptr m,
          mk_kstate (<[m := new_master n s]> (<[s := new_slave n m]> (heap st)))
                    (freed st)
                    (<[Z.to_nat n := Some s]> (slave_ttys st))
                    (fds st)
                    (trace st ++ [EvSlotWrite n (Some s);
                                  EvStoreOther m (Some s);
                                  EvStoreOther s (Some m)])).
Proof.
  intros Hn m s.
  set (st1 := with_heap (<[m := mk_tty pty_master n 0 None false false [] []]>
                           (heap st)) st).
  pose proof (fresh_not_live st1) as Hs1. simpl in Hs1. fold s in Hs1.
  assert (Hms : m ≠ s).
  { intros E. rewrite <- E, lookup_insert_eq in Hs1. done. }
  rewrite lookup_insert_ne in Hs1 by done.
  split; [done|]. split; [apply fresh_not_live|]. split; [done|].
  split; [apply fresh_not_freed|].
  split; [apply (fresh_not_freed st1)|].
  unfold tty_get, tty_alloc at 1. unfold mbind at 1, M_bind at 1.
  fold m. fold st1. simpl init.
  pose proof (pty_master_init_run st1 m
                (mk_tty pty_master n 0 None false false [] [])) as Hinit.
  simpl in Hinit. fold s in Hinit.
  rewrite (bind_Ok _ _ _ _ _ (Hinit (lookup_insert_eq _ _ _) Hn)).
  destruct (decide (0 < 0)); [lia|].
  erewrite bind_Ok; cycle 1.
  { apply tty_load_Ok. simpl. rewrite lookup_insert_ne by done.
    apply lookup_insert_eq. }
  erewrite bind_Ok; cycle 1.
  { apply tty_modify_Ok. simpl. rewrite lookup_insert_ne by done.
    apply lookup_insert_eq. }
  unfold mret, M_ret, with_heap. simpl. do 2 f_equal. f_equal.
  apply map_eq. intros i. unfold new_master, new_slave.
  destruct (decide (i = m)) as [->|Hi]; [by rewrite !lookup_insert_eq|].
  rewrite !(lookup_insert_ne _ m) by done.
  destruct (decide (i = s)) as [->|Hi']; [by rewrite !lookup_insert_eq|].
  rewrite !(lookup_insert_ne _ s) by done.
  by rewrite !(lookup_insert_ne _ m) by done.
Qed.

(** [ptmx_open] when [n] is the first empty slot. *)
Lemma ptmx_open_found (st : kstate) (fid : fdid) (f : fd) (n : nat) :
  ttys_wf st →
  fds st !! fid = Some f →
  Z.of_nat n < MAX_PTYS →
  slave_ttys st !! n = Some None →
  (∀ j, (j < n)%nat → slot_present st j) →
  ∃ m s,
    m ≠ s ∧ heap st !! m = None ∧ heap st !! s = None
    ∧ (m ∉ freed st) ∧ (s ∉ freed st)
    ∧ ptmx_open fid st =
        Ok (0,
            mk_kstate
              (<[m := set_tty_fds [fid] (new_master (Z.of_nat n) s)]>
                 (<[s := new_slave (Z.of_nat n) m]> (heap st)))
              (freed st)
              (<[n := Some s]> (slave_ttys st))
              (<[fid := set_fd_tty (Some m) f]> (fds st))
              (trace st ++ [EvLock ttys_lock]
                 ++ slot_reads 0 (Z.of_nat n + 1)
                 ++ [EvUnlock ttys_lock;
                     EvSlotWrite (Z.of_nat n) (Some s);
                     EvStoreOther m (Some s); EvStoreOther s (Some m);
                     EvLock (tty_fds_lock m); EvUnlock (tty_fds_lock m)])).
Proof.
  intros Hwf Hfd Hn Hslot Hbelow. unfold ttys_wf in Hwf.
  set (st3 := with_trace (trace st ++ [EvLock ttys_lock]
                            ++ slot_reads 0 (Z.of_nat n + 1)
                            ++ [EvUnlock ttys_lock]) st).
  destruct (tty_get_master_run st3 (Z.of_nat n))
    as (Hms & Hm & Hs & Hmf & Hsf & Hget).
  { simpl. lia. }
  simpl in Hget, Hm, Hs, Hmf, Hsf.
  eexists _, _. split; [exact Hms|]. split; [exact Hm|]. split; [exact Hs|].
  split; [exact Hmf|]. split; [exact Hsf|].
  unfold ptmx_open, lock, unlock.
  rewrite (bind_Ok _ _ _ _ _ (emit_Ok _ _)).
  erewrite bind_Ok; cycle 1.
  { apply (ptmx_scan_found _ 0 n);
      [lia|done|done| |rewrite MAX_PTYS_eq in *; lia].
    intros j Hj. apply Hbelow. lia. }
  rewrite (bind_Ok _ _ _ _ _ (emit_Ok _ _)).
  destruct (decide (Z.of_nat n = MAX_PTYS)); [lia|].
  replace (with_trace _ _) with st3; cycle 1.
  { unfold st3, with_trace. simpl. rewrite Nat.sub_0_r.
    by rewrite <- !app_assoc. }
  rewrite (bind_Ok _ _ _ _ _ Hget).
  erewrite bind_Ok; cycle 1.
  { apply fd_modify_Ok. simpl. exact Hfd. }
  rewrite (bind_Ok _ _ _ _ _ (emit_Ok _ _)).
  erewrite bind_Ok; cycle 1.
  { apply tty_modify_Ok. simpl. apply lookup_insert_eq. }
  rewrite (bind_Ok _ _ _ _ _ (emit_Ok _ _)).
  unfold mret, M_ret, with_heap, with_trace, with_fds. simpl.
  do 2 f_equal. f_equal.
  - by rewrite insert_insert_eq.
  - by rewrite Nat2Z.id.
  - repeat (rewrite <- !app_assoc; simpl). done.
Qed.

(** [ptmx_open] when every slot is taken. *)
Lemma ptmx_open_full (st : kstate) (fid : fdid) :
  ttys_wf st →
  (∀ j : nat, Z.of_nat j < MAX_PTYS → slot_present st j) →
  ptmx_open fid st =
    Ok (_ENOSPC,
        with_trace (trace st ++ [EvLock ttys_lock] ++ slot_reads 0 MAX_PTYS
                      ++ [EvUnlock ttys_lock]) st).
Proof.
  intros Hwf Hall. unfold ptmx_open, lock, unlock.
  rewrite (bind_Ok _ _ _ _ _ (emit_Ok _ _)).
  erewrite bind_Ok; cycle 1.
  { apply (ptmx_scan_full _ 0); [rewrite MAX_PTYS_eq; lia| |lia].
    intros j _ Hj. destruct (Hall j Hj) as [a Ha]. exists a. exact Ha. }
  rewrite (bind_Ok _ _ _ _ _ (emit_Ok _ _)).
  destruct (decide (MAX_PTYS = MAX_PTYS)); [|done].
  unfold mret, M_ret, with_trace. cbn [heap freed slave_ttys fds trace].
  change (Z.of_nat 0) with 0. rewrite Z.sub_0_r.
  by rewrite <- !app_assoc.
Qed.

(** C5: [ptmx_open] takes the table lock, reads the slots 0, 1, 2, ... in
    this order and drops the lock; the number it goes on with is the first
    one whose slot is empty, and the master it then obtains carries that
    number.  It returns [_ENOSPC] exactly when all [MAX_PTYS] slots hold a
    terminal object, and then no object is created: heap, table and file
    descriptions are as before. *)
Theorem ptmx_open_spec (st : kstate) (fid : fdid) (f : fd) :
  ttys_wf st →
  fds st !! fid = Some f →
  (∀ n : nat,
     Z.of_nat n < MAX_PTYS →
     slave_ttys st !! n = Some None →
     (∀ j, (j < n)%nat → slot_present st j) →
     ∃ st' m tm rest,
       ptmx_open fid st = Ok (0, st')
       ∧ heap st !! m = None
       ∧ heap st' !! m = Some tm
       ∧ driver tm = pty_master ∧ num tm = Z.of_nat n
       ∧ fd_tty <$> (fds st' !! fid) = Some (Some m)
       ∧ trace st' = trace st ++ [EvLock ttys_lock]
                       ++ slot_reads 0 (Z.of_nat n + 1)
                       ++ [EvUnlock ttys_lock] ++ rest)
  ∧ ((∀ j : nat, Z.of_nat j < MAX_PTYS → slot_present st j)
     ↔ ∃ st', ptmx_open fid st = Ok (_ENOSPC, st'))
  ∧ (∀ st', ptmx_open fid st = Ok (_ENOSPC, st') →
       heap st' = heap st ∧ freed st' = freed st
       ∧ slave_ttys st' = slave_ttys st ∧ fds st' = fds st
       ∧ trace st' = trace st ++ [EvLock ttys_lock]
                       ++ slot_reads 0 MAX_PTYS ++ [EvUnlock ttys_lock]).
Proof.
  intros Hwf Hfd.
  assert (Hiff : ∀ st', ptmx_open fid st = Ok (_ENOSPC, st') →
            ∀ j : nat, Z.of_nat j < MAX_PTYS → slot_present st j).
  { intros st' Hrun.
    destruct (first_empty_or_full st Hwf) as [(n & Hn & Hs & Hb)|Hall]; [|done].
    destruct (ptmx_open_found st fid f n Hwf Hfd Hn Hs Hb)
      as (m & s & _ & _ & _ & _ & _ & Hok).
    rewrite Hok in Hrun. discriminate Hrun. }
  split; [|split].
  - intros n Hn Hs Hb.
    destruct (ptmx_open_found st fid f n Hwf Hfd Hn Hs Hb)
      as (m & s & Hms & Hm & _ & _ & _ & Hok).
    eexists _, m, _, _. split; [exact Hok|]. simpl.
    split; [exact Hm|]. split; [apply lookup_insert_eq|].
    split; [done|]. split; [done|].
    split; [by rewrite lookup_insert_eq|]. done.
  - split.
    + intros Hall. eexists. by apply ptmx_open_full.
    + intros [st' Hrun]. by apply (Hiff st').
  - intros st' Hrun. pose proof (Hiff st' Hrun) as Hall.
    rewrite (ptmx_open_full st fid Hwf Hall) in Hrun.
    apply Ok_inv in Hrun as [_ <-]. unfold with_trace.
    cbn [heap freed slave_ttys fds trace]. done.
Qed.

Lemma ptmx_open_spec_witness :
  (∃ st', ptmx_open 1%positive st_empty = Ok (0, st'))
  ∧ (∃ st', ptmx_open 1%positive st_full = Ok (_ENOSPC, st')).
Proof.
  split.
  - destruct (ptmx_open_spec st_empty 1%positive (mk_fd None 0 0)) as [H _].
    + reflexivity.
    + reflexivity.
    + destruct (H 0%nat) as (st' & m & tm & rest & Hok & _).
      * rewrite MAX_PTYS_eq. simpl. lia.
      * reflexivity.
      * intros j Hj. lia.
      * exists st'. exact Hok.
  - destruct (ptmx_open_spec st_full 1%positive (mk_fd None 0 0)) as (_ & H & _).
    + reflexivity.
    + reflexivity.
    + apply H. intros j Hj. exists 1%positive.
      change (slave_ttys st_full)
        with (replicate (Z.to_nat MAX_PTYS) (Some 1%positive)).
      apply lookup_replicate_2. rewrite MAX_PTYS_eq in *. lia.
Defined.

(** ** Digits and numbers *)

Lemma isdigit_range c :
  isdigit c = true ↔ 48 <= Z.of_N (N_of_ascii c) <= 57.
Proof. unfold isdigit. rewrite andb_true_iff, !Z.leb_le. done. Qed.

Lemma digit_val_range c : isdigit c = true → 0 <= digit_val c <= 9.
Proof. rewrite isdigit_range. unfold digit_val. lia. Qed.

Lemma isdigit_not_space c : isdigit c = true → isspace c = false.
Proof.
  rewrite isdigit_range. unfold isspace. intros H.
  apply orb_false_iff. split; [apply Z.eqb_neq; lia|].
  apply andb_false_iff. right. apply Z.leb_gt. lia.
Qed.

Lemma isdigit_not_char c d :
  isdigit c = true → ¬ (48 <= Z.of_N (N_of_ascii d) <= 57) → Ascii.eqb c d = false.
Proof.
  rewrite isdigit_range. intros H Hd. apply Ascii.eqb_neq. intros ->. done.
Qed.

Lemma isdigits_cons c rest :
  isdigits (String c rest) = true ↔ isdigit c = true ∧ isdigits rest = true.
Proof. simpl. destruct (isdigit c); simpl; intuition congruence. Qed.

Lemma isdigits_strchr_slash name :
  isdigits name = true → strchr name "/" = None.
Proof.
  induction name as [|c rest IH]; [done|].
  rewrite isdigits_cons. intros [Hc Hr]. simpl.
  rewrite (isdigit_not_char c "/" Hc) by (simpl; lia). auto.
Qed.

Lemma read_digits_nonneg name : ∀ acc, 0 <= acc → 0 <= read_digits acc name.
Proof.
  induction name as [|c rest IH]; intros acc Hacc; simpl; [done|].
  destruct (isdigit c) eqn:Hc; [|done].
  apply IH. pose proof (digit_val_range c Hc). lia.
Qed.

Lemma read_digits_mono name : ∀ acc, 0 <= acc → acc <= read_digits acc name.
Proof.
  induction name as [|c rest IH]; intros acc Hacc; simpl; [lia|].
  destruct (isdigit c) eqn:Hc; [|lia].
  pose proof (digit_val_range c Hc).
  etrans; [|apply IH; lia]. lia.
Qed.

(** On a string of digits [atol] is the decimal value, cut at
    [LONG_MAX]. *)
Lemma atol_digits name :
  isdigits name = true → atol name = Z.min LONG_MAX (read_digits 0 name).
Proof.
  intros Hd. pose proof (read_digits_nonneg name 0 ltac:(lia)) as Hnn.
  assert (Hclamp : clamp_long (read_digits 0 name)
                   = Z.min LONG_MAX (read_digits 0 name)).
  { unfold clamp_long, LONG_MIN, LONG_MAX. lia. }
  destruct name as [|c rest]; [done|].
  apply isdigits_cons in Hd as [Hc Hr].
  unfold atol. cbn [skip_space]. rewrite (isdigit_not_space c Hc).
  rewrite <- Hclamp.
  destruct c as [[] [] [] [] [] [] [] []]; try reflexivity; discriminate Hc.
Qed.

Lemma to_int_small x : INT_MIN <= x <= INT_MAX → to_int x = x.
Proof.
  unfold to_int, INT_MIN, INT_MAX. intros H.
  rewrite Z.mod_small; lia.
Qed.

(** ** Path resolution *)

Lemma devpts_get_pty_num_root st : devpts_get_pty_num "" st = Ok (-1, st).
Proof. done. Qed.

(** A path that is neither empty nor a slash followed by digits. *)
Lemma devpts_get_pty_num_malformed st path :
  path ≠ EmptyString →
  (∀ name, path = String "/" name → name = EmptyString ∨ isdigits name = false) →
  devpts_get_pty_num path st = Ok (_ENOENT, st).
Proof.
  intros Hne Hshape. destruct path as [|c0 name]; [done|].
  unfold devpts_get_pty_num.
  destruct (Ascii.eqb c0 "/") eqn:Hc0; [|done].
  apply Ascii.eqb_eq in Hc0 as ->. simpl negb. simpl orb.
  destruct (Hshape name eq_refl) as [->|Hd]; [done|].
  destruct (bool_decide (name = EmptyString)); [done|].
  destruct (bool_decide (strchr name "/" ≠ None)); [done|].
  simpl. by rewrite Hd.
Qed.

(** A slash followed by digits of value [v]. *)
Lemma devpts_get_pty_num_digits st name :
  ttys_wf st → name ≠ EmptyString → isdigits name = true →
  let v := read_digits 0 name in
  devpts_get_pty_num (String "/" name) st =
    if decide (MAX_PTYS < v) then Ok (_ENOENT, st)
    else if decide (v = MAX_PTYS) then Fault (OutOfBounds MAX_PTYS)
    else Ok (match slave_ttys st !! Z.to_nat v with
             | Some (Some _) => v
             | _ => _ENOENT
             end,
             with_trace (trace st ++ [EvLock ttys_lock; EvSlotRead v;
                                      EvUnlock ttys_lock]) st).
Proof.
  intros Hwf Hne Hd v.
  pose proof (read_digits_nonneg name 0 ltac:(lia)) as Hnn. fold v in Hnn.
  unfold devpts_get_pty_num.
  change (Ascii.eqb "/" "/") with true. simpl negb. simpl orb.
  rewrite (bool_decide_eq_false_2 _ Hne).
  rewrite (isdigits_strchr_slash name Hd).
  rewrite bool_decide_eq_false_2 by (intros H; by apply H).
  rewrite Hd. change (negb true) with false. cbn [orb]. cbv iota.
  rewrite (atol_digits name Hd). fold v.
  assert (HM : MAX_PTYS = 4096) by reflexivity.
  destruct (decide (Z.min LONG_MAX v > INT_MAX)) as [Hbig|Hsmall].
  { destruct (decide (MAX_PTYS < v)); [done|].
    unfold LONG_MAX, INT_MAX in Hbig. lia. }
  assert (Hv : v <= INT_MAX) by (unfold LONG_MAX, INT_MAX in *; lia).
  replace (Z.min LONG_MAX v) with v by (unfold LONG_MAX, INT_MAX in *; lia).
  rewrite to_int_small by (unfold INT_MIN; lia).
  destruct (decide (MAX_PTYS < v)) as [Hgt|Hle].
  { rewrite (bind_Ok _ _ _ _ _ (devpts_pty_exists_outside st v ltac:(lia))).
    done. }
  destruct (decide (v = MAX_PTYS)) as [->|Hne'].
  { apply bind_Fault. by apply devpts_pty_exists_capacity_fault. }
  unfold ttys_wf in Hwf.
  destruct (lookup_lt_is_Some_2 (slave_ttys st) (Z.to_nat v)) as [slot Hslot].
  { rewrite Hwf. lia. }
  pose proof (devpts_pty_exists_inside st (Z.to_nat v) slot) as Hex.
  rewrite Z2Nat.id in Hex by lia.
  rewrite (bind_Ok _ _ _ _ _ (Hex ltac:(lia) Hslot)).
  rewrite Hslot. by destruct slot.
Qed.

(** C7: the path "/4096" names a number outside the table, and
    [devpts_open] does not answer [_ENOENT] for it: resolution goes through
    the existence check, which reads the slave table one slot past its
    end. *)
Theorem devpts_open_at_capacity (st : kstate) :
  ttys_wf st → devpts_open "/4096" st = Fault (OutOfBounds MAX_PTYS).
Proof.
  intros Hwf. unfold devpts_open. apply bind_Fault.
  pose proof (devpts_get_pty_num_digits st "4096" Hwf) as H.
  change (read_digits 0 "4096") with MAX_PTYS in H. simpl in H.
  destruct (decide (MAX_PTYS < MAX_PTYS)); [lia|].
  destruct (decide (MAX_PTYS = MAX_PTYS)); [|done].
  by apply H.
Qed.

Lemma devpts_open_at_capacity_witness :
  devpts_open "/4096" st_pair = Fault (OutOfBounds 4096).
Proof. apply (devpts_open_at_capacity st_pair). reflexivity. Defined.

(** ** Printing and reading decimal numbers *)

Lemma string_app_assoc (s1 s2 s3 : string) :
  (s1 +:+ s2) +:+ s3 = s1 +:+ (s2 +:+ s3).
Proof.
  induction s1 as [|c s1 IH]; [done|].
  change (String c ((s1 +:+ s2) +:+ s3) = String c (s1 +:+ (s2 +:+ s3))).
  by rewrite IH.
Qed.

Lemma string_app_nil_r (s : string) : s +:+ EmptyString = s.
Proof.
  induction s as [|c s IH]; [done|].
  change (String c (s +:+ EmptyString) = String c s). by rewrite IH.
Qed.

Lemma pretty_N_go_app (x : N) : ∀ s,
  pretty_N_go x s = pretty_N_go x EmptyString +:+ s.
Proof.
  induction (N.lt_wf_0 x) as [x _ IH]. intros s.
  destruct (decide (x = 0)%N) as [->|Hx].
  - by rewrite !pretty_N_go_0.
  - rewrite (pretty_N_go_step x s), (pretty_N_go_step x EmptyString) by lia.
    rewrite (IH (x `div` 10)%N) by (apply N.div_lt; lia).
    rewrite (IH (x `div` 10)%N ltac:(apply N.div_lt; lia) (String _ EmptyString)).
    by rewrite string_app_assoc.
Qed.

Lemma pretty_Z_pos (v : Z) :
  0 < v → pretty v = pretty_N_go (Z.to_N v) EmptyString.
Proof. destruct v as [|p|p]; [lia| |lia]. intros _. reflexivity. Qed.

Lemma pretty_N_char_digit c :
  isdigit c = true → pretty_N_char (Z.to_N (digit_val c)) = c.
Proof.
  intros Hc.
  destruct c as [[] [] [] [] [] [] [] []]; try reflexivity; discriminate Hc.
Qed.

Lemma isdigit_pretty_N_char (y : N) :
  (y < 10)%N →
  isdigit (pretty_N_char y) = true ∧ digit_val (pretty_N_char y) = Z.of_N y.
Proof.
  intros Hy.
  assert (y = 0 ∨ y = 1 ∨ y = 2 ∨ y = 3 ∨ y = 4 ∨ y = 5 ∨ y = 6 ∨ y = 7
          ∨ y = 8 ∨ y = 9)%N as H by lia.
  repeat (destruct H as [->|H]; [by split|]). subst y. by split.
Qed.

(** Printing what was read: digits read onto a positive [acc] extend the
    print of [acc]. *)
Lemma pretty_read_digits name : ∀ acc,
  isdigits name = true → 0 < acc →
  pretty_N_go (Z.to_N (read_digits acc name)) EmptyString
  = pretty_N_go (Z.to_N acc) EmptyString +:+ name.
Proof.
  induction name as [|c rest IH]; intros acc Hd Hacc.
  - simpl. by rewrite string_app_nil_r.
  - apply isdigits_cons in Hd as [Hc Hr]. simpl. rewrite Hc.
    pose proof (digit_val_range c Hc) as Hdv.
    rewrite IH by (done || lia).
    rewrite (pretty_N_go_step (Z.to_N (acc * 10 + digit_val c))) by lia.
    replace (Z.to_N (acc * 10 + digit_val c) `div` 10)%N with (Z.to_N acc);
      cycle 1.
    { apply (N.div_unique _ _ _ (Z.to_N (digit_val c))); lia. }
    replace (Z.to_N (acc * 10 + digit_val c) `mod` 10)%N
      with (Z.to_N (digit_val c)); cycle 1.
    { apply (N.mod_unique _ _ (Z.to_N acc)); lia. }
    rewrite (pretty_N_char_digit c Hc).
    rewrite pretty_N_go_app. by rewrite string_app_assoc.
Qed.

(** [sprintf_d] gives back a digit string without a redundant leading
    zero. *)
Lemma sprintf_d_read_digits name :
  name ≠ EmptyString → isdigits name = true → no_leading_zero name = true →
  sprintf_d (read_digits 0 name) = name.
Proof.
  intros Hne Hd Hz. destruct name as [|c rest]; [done|].
  apply isdigits_cons in Hd as [Hc Hr].
  pose proof (digit_val_range c Hc) as Hdv.
  unfold no_leading_zero in Hz. simpl read_digits. rewrite Hc.
  destruct (Ascii.eqb c "0") eqn:Hc0.
  - apply Ascii.eqb_eq in Hc0 as ->. simpl in Hz.
    apply bool_decide_eq_true_1 in Hz as ->. reflexivity.
  - assert (0 < digit_val c).
    { apply Ascii.eqb_neq in Hc0.
      destruct (decide (digit_val c = 0)) as [E|]; [|lia].
      exfalso. apply Hc0.
      rewrite <- (pretty_N_char_digit c Hc), E. reflexivity. }
    change (0 * 10 + digit_val c) with (digit_val c).
    pose proof (read_digits_mono rest (digit_val c) ltac:(lia)).
    unfold sprintf_d. rewrite pretty_Z_pos by lia.
    rewrite pretty_read_digits by done.
    rewrite (pretty_N_go_step (Z.to_N (digit_val c))) by lia.
    rewrite N.div_small, N.mod_small by lia.
    rewrite pretty_N_go_0, (pretty_N_char_digit c Hc). reflexivity.
Qed.

(** Reading what was printed. *)
Lemma read_digits_pretty_N_go (x : N) :
  ∃ k : Z, 0 <= k ∧ ∀ acc s,
    read_digits acc (pretty_N_go x s) = read_digits (acc * 10 ^ k + Z.of_N x) s.
Proof.
  induction (N.lt_wf_0 x) as [x _ IH].
  destruct (decide (x = 0)%N) as [->|Hx].
  - exists 0. split; [done|]. intros acc s. rewrite pretty_N_go_0.
    f_equal. lia.
  - destruct (IH (x `div` 10)%N) as (k & Hk & Hread); [apply N.div_lt; lia|].
    exists (k + 1). split; [lia|]. intros acc s.
    rewrite pretty_N_go_step by lia. rewrite Hread. simpl.
    destruct (isdigit_pretty_N_char (x `mod` 10)%N) as [-> ->];
      [apply N.mod_lt; lia|].
    f_equal. rewrite Z.pow_add_r by lia.
    pose proof (N.div_mod x 10 ltac:(lia)). lia.
Qed.

Lemma isdigits_pretty_N_go (x : N) : ∀ s,
  isdigits (pretty_N_go x s) = isdigits s.
Proof.
  induction (N.lt_wf_0 x) as [x _ IH]. intros s.
  destruct (decide (x = 0)%N) as [->|Hx]; [by rewrite pretty_N_go_0|].
  rewrite pretty_N_go_step by lia. rewrite IH by (apply N.div_lt; lia).
  simpl. by destruct (isdigit_pretty_N_char (x `mod` 10)%N) as [-> _];
    [apply N.mod_lt; lia|].
Qed.

Lemma sprintf_d_digits (n : Z) :
  0 <= n →
  sprintf_d n ≠ EmptyString ∧ isdigits (sprintf_d n) = true
  ∧ read_digits 0 (sprintf_d n) = n.
Proof.
  intros Hn. destruct (decide (n = 0)) as [->|Hne]; [by repeat split|].
  unfold sprintf_d. rewrite pretty_Z_pos by lia.
  split; [|split].
  - rewrite pretty_N_go_step by lia. rewrite pretty_N_go_app.
    intros H. destruct (pretty_N_go _ EmptyString); discriminate H.
  - by rewrite isdigits_pretty_N_go.
  - destruct (read_digits_pretty_N_go (Z.to_N n)) as (k & _ & ->). simpl. lia.
Qed.

(** ** getpath and resolution *)

Lemma devpts_getpath_run st fid f :
  fds st !! fid = Some f →
  devpts_getpath fid st =
    Ok ((0, if decide (pty_num f = -1) then EmptyString
            else String "/" (sprintf_d (pty_num f))), st).
Proof.
  intros Hf. unfold devpts_getpath.
  rewrite (bind_Ok _ _ _ _ _ (fd_load_Ok _ _ _ Hf)).
  by destruct (decide (pty_num f = -1)).
Qed.

(** What [devpts_open] does once the path is resolved. *)
Lemma devpts_open_run st path n st1 :
  devpts_get_pty_num path st = Ok (n, st1) →
  devpts_open path st =
    if decide (n = _ENOENT) then Ok (ErrPtr _ENOENT, st1)
    else Ok (Ptr (fresh (dom (fds st1))),
             with_fds (<[fresh (dom (fds st1)) := mk_fd None n 0]> (fds st1)) st1).
Proof.
  intros H. unfold devpts_open. rewrite (bind_Ok _ _ _ _ _ H).
  destruct (decide (n = _ENOENT)); [done|].
  unfold fd_create at 1. unfold mbind at 1, M_bind at 1.
  erewrite bind_Ok; cycle 1.
  { apply fd_modify_Ok. simpl. apply lookup_insert_eq. }
  unfold mret, M_ret, with_fds. simpl. by rewrite insert_insert_eq.
Qed.

(** The paths for which [devpts_open] produces a handle, and the handle. *)
Lemma devpts_open_inv st path fid st' :
  ttys_wf st →
  devpts_open path st = Ok (Ptr fid, st') →
  ∃ n, fds st' !! fid = Some (mk_fd None n 0)
       ∧ slave_ttys st' = slave_ttys st
       ∧ ((path = EmptyString ∧ n = -1)
          ∨ ∃ name, path = String "/" name ∧ name ≠ EmptyString
                    ∧ isdigits name = true ∧ n = read_digits 0 name
                    ∧ 0 <= n < MAX_PTYS ∧ slot_present st (Z.to_nat n)).
Proof.
  intros Hwf Hopen.
  destruct path as [|c0 name].
  { rewrite (devpts_open_run st _ _ _ (devpts_get_pty_num_root st)) in Hopen.
    destruct (decide (-1 = _ENOENT)); [done|].
    injection Hopen as <- <-. exists (-1). simpl.
    rewrite lookup_insert_eq. auto. }
  destruct (decide (c0 = "/"%char ∧ name ≠ EmptyString ∧ isdigits name = true))
    as [(-> & Hne & Hd)|Hbad].
  - pose proof (devpts_get_pty_num_digits st name Hwf Hne Hd) as Hnum.
    cbv zeta in Hnum.
    pose proof (read_digits_nonneg name 0 ltac:(lia)) as Hnn.
    destruct (decide (MAX_PTYS < read_digits 0 name)).
    { rewrite (devpts_open_run st _ _ _ Hnum) in Hopen. done. }
    destruct (decide (read_digits 0 name = MAX_PTYS)).
    { unfold devpts_open in Hopen. by rewrite (bind_Fault _ _ _ _ Hnum) in Hopen. }
    rewrite (devpts_open_run st _ _ _ Hnum) in Hopen.
    destruct (slave_ttys st !! Z.to_nat (read_digits 0 name))
      as [[a|]|] eqn:Hslot; [|done|done].
    destruct (decide (read_digits 0 name = _ENOENT)); [done|].
    injection Hopen as <- <-. exists (read_digits 0 name). simpl.
    rewrite lookup_insert_eq. split; [done|]. split; [done|].
    right. exists name. repeat split; try done; try lia. by exists a.
  - rewrite (devpts_open_run st _ _ENOENT st) in Hopen; [done|].
    apply devpts_get_pty_num_malformed; [done|].
    intros name' [= -> <-].
    destruct (decide (name = EmptyString)) as [|Hne]; [by left|]. right.
    destruct (isdigits name) eqn:Hd; [|done].
    exfalso. apply Hbad. done.
Qed.

(** C9, as the code has it: [devpts_getpath] writes the empty path for the
    root sentinel and a slash followed by the decimal number otherwise; for
    a path that [devpts_open] accepts and whose digits carry no redundant
    leading zero, [devpts_getpath] on the handle gives the path back; and
    for every accepted path, the path it gives resolves to the number of
    the handle. *)
Theorem devpts_getpath_inverse (st : kstate) (fid : fdid) (f : fd) :
  fds st !! fid = Some f →
  devpts_getpath fid st =
    Ok ((0, if decide (pty_num f = -1) then EmptyString
            else String "/" (sprintf_d (pty_num f))), st)
  ∧ (∀ st0 path,
       ttys_wf st0 →
       devpts_open path st0 = Ok (Ptr fid, st) →
       canonical_path path = true →
       devpts_getpath fid st = Ok ((0, path), st))
  ∧ (∀ st0 path,
       ttys_wf st0 →
       devpts_open path st0 = Ok (Ptr fid, st) →
       ∃ out st', devpts_getpath fid st = Ok ((0, out), st)
                  ∧ devpts_get_pty_num out st = Ok (pty_num f, st')).
Proof.
  intros Hf. pose proof (devpts_getpath_run st fid f Hf) as Hrun.
  split; [exact Hrun|]. split.
  - intros st0 path Hwf Hopen Hcan.
    destruct (devpts_open_inv st0 path fid st Hwf Hopen)
      as (n & Hfd & _ & [[-> ->]|(name & -> & Hne & Hd & -> & Hr & _)]);
      rewrite Hfd in Hf; injection Hf as <-; simpl in Hrun.
    + exact Hrun.
    + rewrite Hrun. destruct (decide (read_digits 0 name = -1)); [lia|].
      simpl in Hcan. by rewrite sprintf_d_read_digits.
  - intros st0 path Hwf Hopen.
    destruct (devpts_open_inv st0 path fid st Hwf Hopen)
      as (n & Hfd & Htbl & [[-> ->]|(name & -> & Hne & Hd & -> & Hr & Hp)]);
      rewrite Hfd in Hf; injection Hf as <-; simpl in Hrun; simpl.
    + eexists _, _. split; [exact Hrun|]. apply devpts_get_pty_num_root.
    + destruct (decide (read_digits 0 name = -1)); [lia|].
      destruct (sprintf_d_digits (read_digits 0 name)) as (Hne' & Hd' & Hv');
        [lia|].
      assert (Hwf' : ttys_wf st) by (unfold ttys_wf in *; by rewrite Htbl).
      pose proof (devpts_get_pty_num_digits st _ Hwf' Hne' Hd') as Hnum.
      cbv zeta in Hnum. rewrite Hv' in Hnum.
      destruct (decide (MAX_PTYS < read_digits 0 name)); [lia|].
      destruct (decide (read_digits 0 name = MAX_PTYS)); [lia|].
      destruct Hp as [a Ha]. rewrite Htbl, Ha in Hnum.
      eexists _, _. split; [exact Hrun|]. exact Hnum.
Qed.

Lemma devpts_getpath_inverse_witness :
  devpts_open "/0" st_pair = Ok (Ptr 3%positive, st_pair_open_0)
  ∧ devpts_getpath 3%positive st_pair_open_0 = Ok ((0, "/0"), st_pair_open_0).
Proof.
  assert (Hopen : devpts_open "/0" st_pair = Ok (Ptr 3%positive, st_pair_open_0))
    by (vm_compute; reflexivity).
  split; [exact Hopen|].
  destruct (devpts_getpath_inverse st_pair_open_0 3%positive (mk_fd None 0 0))
    as (_ & H & _).
  - vm_compute. reflexivity.
  - apply (H st_pair "/0").
    + reflexivity.
    + exact Hopen.
    + reflexivity.
Defined.

(** C9 as the spec words it fails: "/00" is accepted and resolves to pair
    0, and the handle's path is "/0". *)
Lemma devpts_getpath_not_inverse :
  ¬ (∀ st path fid st',
       ttys_wf st →
       devpts_open path st = Ok (Ptr fid, st') →
       devpts_getpath fid st' = Ok ((0, path), st')).
Proof.
  intros H.
  specialize (H st_pair "/00" 3%positive st_pair_open_00).
  assert (Hget : devpts_getpath 3%positive st_pair_open_00
                 = Ok ((0, "/0"), st_pair_open_00))
    by (vm_compute; reflexivity).
  rewrite Hget in H.
  assert (Hne : Ok (0, "/0", st_pair_open_00) ≠ Ok (0, "/00", st_pair_open_00))
    by (intros [=]).
  apply Hne, H.
  - reflexivity.
  - vm_compute. reflexivity.
Qed.

(** ** Enumerating the directory *)

Lemma readdir_scan_unfold fuel p :
  readdir_scan fuel p =
    if decide (p = INT_MAX) then raise SignedOverflow
    else
      if decide (p + 1 < MAX_PTYS) then
        e ← devpts_pty_exists (p + 1);
        if negb e then
          match fuel with
          | O => raise OutOfFuel
          | S fuel' => readdir_scan fuel' (p + 1)
          end
        else mret (p + 1)
      else mret (p + 1).
Proof. by destruct fuel. Qed.

(** Below [MAX_PTYS] the existence check is defined and says whether the
    number is in the table. *)
Lemma devpts_pty_exists_below st i :
  ttys_wf st → i < MAX_PTYS →
  devpts_pty_exists i st =
    Ok (pty_presentb st i, with_trace (trace st ++ probe_events i) st).
Proof.
  intros Hwf Hi. unfold pty_presentb, probe_events.
  destruct (decide (i < 0)) as [Hneg|Hpos].
  - rewrite devpts_pty_exists_outside by lia.
    destruct (decide (0 <= i)); [lia|]. by rewrite with_trace_nil_r.
  - destruct (decide (0 <= i)); [|lia]. unfold ttys_wf in Hwf.
    destruct (lookup_lt_is_Some_2 (slave_ttys st) (Z.to_nat i)) as [slot Hslot].
    { rewrite Hwf. lia. }
    pose proof (devpts_pty_exists_inside st (Z.to_nat i) slot) as H.
    rewrite Z2Nat.id in H by lia. rewrite H by (lia || done).
    rewrite Hslot. by destruct slot.
Qed.

Lemma readdir_events_cons c len :
  0 < len →
  readdir_events c len = probe_events c ++ readdir_events (c + 1) (len - 1).
Proof.
  intros H. unfold readdir_events. rewrite (seqZ_cons c len) by done.
  by rewrite Z.add_1_r, Z.sub_1_r.
Qed.

Lemma with_trace_app st tr1 tr2 :
  with_trace (trace (with_trace (trace st ++ tr1) st) ++ tr2)
             (with_trace (trace st ++ tr1) st)
  = with_trace (trace st ++ tr1 ++ tr2) st.
Proof. unfold with_trace. simpl. by rewrite app_assoc. Qed.

(** The loop stops at the first number after [p] that is in the table. *)
Lemma readdir_scan_found (fuel : nat) : ∀ (p n : Z) (st : kstate),
  ttys_wf st →
  p < n → n < MAX_PTYS →
  pty_presentb st n = true →
  (∀ i, p < i < n → pty_presentb st i = false) →
  (Z.to_nat (n - p) ≤ S fuel)%nat →
  readdir_scan fuel p st =
    Ok (n, with_trace (trace st ++ readdir_events (p + 1) (n - p)) st).
Proof.
  assert (HM : MAX_PTYS = 4096) by reflexivity.
  induction fuel as [|fuel IH]; intros p n st Hwf Hpn Hn Hpres Habs Hfuel;
    rewrite readdir_scan_unfold;
    (destruct (decide (p = INT_MAX)); [unfold INT_MAX in *; lia|]);
    (destruct (decide (p + 1 < MAX_PTYS)); [|lia]);
    rewrite (bind_Ok _ _ _ _ _ (devpts_pty_exists_below st (p + 1) Hwf ltac:(lia)));
    rewrite (readdir_events_cons (p + 1)) by lia;
    (destruct (decide (p + 1 = n)) as [E|E];
     [rewrite E, Hpres; simpl; replace (n - p - 1) with 0 by lia;
      unfold readdir_events; simpl; by rewrite app_nil_r
     |rewrite Habs by lia; simpl]).
  - lia.
  - rewrite (IH (p + 1) n); [|done|lia|lia|done| |lia].
    + rewrite with_trace_app.
      replace (n - (p + 1)) with (n - p - 1) by lia. done.
    + intros i Hi. apply Habs. lia.
Qed.

(** The loop runs up to [MAX_PTYS] when no number after [p] is in the
    table. *)
Lemma readdir_scan_none (fuel : nat) : ∀ (p : Z) (st : kstate),
  ttys_wf st →
  p < MAX_PTYS →
  (∀ i, p < i < MAX_PTYS → pty_presentb st i = false) →
  (Z.to_nat (MAX_PTYS - p) ≤ S fuel)%nat →
  readdir_scan fuel p st =
    Ok (MAX_PTYS,
        with_trace (trace st ++ readdir_events (p + 1) (MAX_PTYS - p - 1)) st).
Proof.
  assert (HM : MAX_PTYS = 4096) by reflexivity.
  induction fuel as [|fuel IH]; intros p st Hwf Hp Habs Hfuel;
    rewrite readdir_scan_unfold;
    (destruct (decide (p = INT_MAX)); [unfold INT_MAX in *; lia|]);
    (destruct (decide (p + 1 < MAX_PTYS)) as [Hlt|Hge];
     [|replace (p + 1) with MAX_PTYS by lia;
       replace (MAX_PTYS - p - 1) with 0 by lia;
       unfold readdir_events; simpl; by rewrite with_trace_nil_r]);
    rewrite (bind_Ok _ _ _ _ _ (devpts_pty_exists_below st (p + 1) Hwf ltac:(lia)));
    rewrite (readdir_events_cons (p + 1)) by lia;
    rewrite Habs by lia; simpl.
  - lia.
  - rewrite (IH (p + 1)); [|done|lia| |lia].
    + rewrite with_trace_app.
      replace (MAX_PTYS - (p + 1) - 1) with (MAX_PTYS - p - 1 - 1) by lia.
      done.
    + intros i Hi. apply Habs. lia.
Qed.

(** From [c] on there is a first number in the table, or none. *)
Lemma first_present_or_none st (k : nat) : ∀ c,
  (∃ n, c <= n < c + Z.of_nat k ∧ pty_presentb st n = true
        ∧ ∀ i, c <= i < n → pty_presentb st i = false)
  ∨ (∀ i, c <= i < c + Z.of_nat k → pty_presentb st i = false).
Proof.
  induction k as [|k IH]; intros c.
  - right. intros i Hi. lia.
  - destruct (pty_presentb st c) eqn:Hc.
    + left. exists c. split; [lia|]. split; [done|]. intros i Hi. lia.
    + destruct (IH (c + 1)) as [(n & Hn & Hp & Hbelow)|Hnone].
      * left. exists n. split; [lia|]. split; [done|]. intros i Hi.
        destruct (decide (i = c)) as [->|]; [done|]. apply Hbelow. lia.
      * right. intros i Hi.
        destruct (decide (i = c)) as [->|]; [done|]. apply Hnone. lia.
Qed.

(** One call of [devpts_readdir] on a root handle whose cursor is an
    [int]: the first number at or after the cursor that is in the table. *)
Lemma devpts_readdir_found st fid f n :
  ttys_wf st → fds st !! fid = Some f → pty_num f = -1 →
  INT_MIN < offset f <= INT_MAX →
  offset f <= n < MAX_PTYS →
  pty_presentb st n = true →
  (∀ i, offset f <= i < n → pty_presentb st i = false) →
  devpts_readdir fid st =
    Ok ((1, Some (entry_of n)),
        with_trace (trace st ++ readdir_events (offset f) (n - offset f + 1)) st).
Proof.
  intros Hwf Hf Hroot Hoff Hn Hp Habs. unfold devpts_readdir.
  rewrite (bind_Ok _ _ _ _ _ (fd_load_Ok _ _ _ Hf)).
  destruct (decide (pty_num f = -1)); [|done].
  rewrite to_int_small by (unfold INT_MIN, INT_MAX in *; lia).
  erewrite bind_Ok; cycle 1.
  { apply (readdir_scan_found _ _ n); [done|lia|lia|done| |lia].
    intros i Hi. apply Habs. lia. }
  destruct (decide (n >= MAX_PTYS)); [lia|].
  unfold mret, M_ret, entry_of. do 3 f_equal.
  replace (offset f - 1 + 1) with (offset f) by lia.
  replace (n - (offset f - 1)) with (n - offset f + 1) by lia. done.
Qed.

(** ... and no entry when no number from the cursor on is in the table. *)
Lemma devpts_readdir_none st fid f :
  ttys_wf st → fds st !! fid = Some f → pty_num f = -1 →
  INT_MIN < offset f <= INT_MAX →
  (∀ i, offset f <= i < MAX_PTYS → pty_presentb st i = false) →
  devpts_readdir fid st =
    Ok ((0, None),
        with_trace (trace st ++ readdir_events (offset f) (MAX_PTYS - offset f)) st).
Proof.
  intros Hwf Hf Hroot Hoff Habs. unfold devpts_readdir.
  rewrite (bind_Ok _ _ _ _ _ (fd_load_Ok _ _ _ Hf)).
  destruct (decide (pty_num f = -1)); [|done].
  rewrite to_int_small by (unfold INT_MIN, INT_MAX in *; lia).
  destruct (decide (offset f - 1 < MAX_PTYS)) as [Hlt|Hge].
  - erewrite bind_Ok; cycle 1.
    { apply readdir_scan_none; [done|lia| |lia].
      intros i Hi. apply Habs. lia. }
    destruct (decide (MAX_PTYS >= MAX_PTYS)); [|lia].
    unfold mret, M_ret. do 3 f_equal.
    replace (offset f - 1 + 1) with (offset f) by lia.
    replace (MAX_PTYS - (offset f - 1) - 1) with (MAX_PTYS - offset f) by lia.
    done.
  - rewrite (bind_Ok _ _ st (offset f) st); cycle 1.
    { rewrite readdir_scan_unfold.
      destruct (decide (offset f - 1 = INT_MAX)); [lia|].
      destruct (decide (offset f - 1 + 1 < MAX_PTYS)); [lia|].
      unfold mret, M_ret. do 2 f_equal. lia. }
    destruct (decide (offset f >= MAX_PTYS)); [|lia].
    unfold readdir_events. rewrite seqZ_nil by lia. simpl.
    by rewrite with_trace_nil_r.
Qed.

(** *** The numbers a listing has to yield *)

Lemma present_from_ge st c : MAX_PTYS <= c → present_from st c = [].
Proof. intros H. unfold present_from. by rewrite seqZ_nil by lia. Qed.

Lemma present_from_step st c :
  c < MAX_PTYS →
  present_from st c =
    (if pty_presentb st c then [c] else []) ++ present_from st (c + 1).
Proof.
  intros H. unfold present_from. rewrite (seqZ_cons c) by lia.
  rewrite Z.add_1_r, Z.sub_succ_r. simpl.
  by destruct (pty_presentb st c).
Qed.

Lemma present_from_ext st st' c :
  slave_ttys st' = slave_ttys st → present_from st' c = present_from st c.
Proof.
  intros H. unfold present_from. apply List.filter_ext. intros i.
  unfold pty_presentb. by rewrite H.
Qed.

Lemma present_from_In st c n :
  In n (present_from st c) ↔ c <= n < MAX_PTYS ∧ pty_presentb st n = true.
Proof.
  unfold present_from. rewrite List.filter_In, <- list_elem_of_In, elem_of_seqZ.
  intuition lia.
Qed.

Lemma present_from_found st n : ∀ (k : nat) c,
  Z.of_nat k = n - c → n < MAX_PTYS →
  pty_presentb st n = true →
  (∀ i, c <= i < n → pty_presentb st i = false) →
  present_from st c = n :: present_from st (n + 1).
Proof.
  induction k as [|k IH]; intros c Hk Hn Hp Habs.
  - assert (c = n) as -> by lia. rewrite present_from_step by done.
    by rewrite Hp.
  - rewrite present_from_step by lia. rewrite Habs by lia. simpl.
    apply IH; [lia|done|done|]. intros i Hi. apply Habs. lia.
Qed.

Lemma present_from_none st : ∀ (k : nat) c,
  Z.of_nat k = Z.max 0 (MAX_PTYS - c) →
  (∀ i, c <= i < MAX_PTYS → pty_presentb st i = false) →
  present_from st c = [].
Proof.
  induction k as [|k IH]; intros c Hk Habs.
  - apply present_from_ge. lia.
  - rewrite present_from_step by lia. rewrite Habs by lia. simpl.
    apply IH; [lia|]. intros i Hi. apply Habs. lia.
Qed.

Lemma present_from_sorted st : ∀ (k : nat) c,
  Z.of_nat k = Z.max 0 (MAX_PTYS - c) →
  StronglySorted Z.lt (present_from st c).
Proof.
  induction k as [|k IH]; intros c Hk.
  - rewrite present_from_ge by lia. constructor.
  - rewrite present_from_step by lia.
    specialize (IH (c + 1) ltac:(lia)).
    destruct (pty_presentb st c); simpl; [|done].
    constructor; [done|]. apply List.Forall_forall. intros n Hn.
    apply present_from_In in Hn. lia.
Qed.

(** *** Listing the directory *)

Lemma readdir_all_run (fid : fdid) (fuel : nat) : ∀ (st : kstate) (f : fd),
  ttys_wf st → fds st !! fid = Some f → pty_num f = -1 →
  INT_MIN < offset f <= INT_MAX →
  (Z.to_nat (MAX_PTYS - offset f) < fuel)%nat →
  ∃ st', readdir_all fuel fid st
         = Ok (entry_of <$> present_from st (offset f), st')
         ∧ slave_ttys st' = slave_ttys st ∧ heap st' = heap st.
Proof.
  assert (HM : MAX_PTYS = 4096) by reflexivity.
  induction fuel as [|fuel IH]; intros st f Hwf Hf Hroot Hoff Hfuel; [lia|].
  simpl readdir_all.
  destruct (first_present_or_none st (Z.to_nat (MAX_PTYS - offset f)) (offset f))
    as [(n & Hn & Hp & Habs)|Hnone].
  - rewrite (bind_Ok _ _ _ _ _
      (devpts_readdir_found st fid f n Hwf Hf Hroot Hoff ltac:(lia) Hp Habs)).
    erewrite bind_Ok; cycle 1.
    { apply fd_modify_Ok. simpl. exact Hf. }
    match goal with
    | |- context [(readdir_all fuel fid ≫= _) ?s] => set (st2 := s)
    end.
    destruct (IH st2 (set_offset (inode (entry_of n) - 3 + 1) f))
      as (st' & Hrun & Htbl & Hheap).
    + done.
    + apply lookup_insert_eq.
    + done.
    + simpl. unfold INT_MIN, INT_MAX in *. lia.
    + simpl. lia.
    + rewrite (bind_Ok _ _ _ _ _ Hrun). exists st'.
      split; [|by rewrite Htbl, Hheap].
      unfold mret, M_ret. do 2 f_equal.
      rewrite (present_from_found st n (Z.to_nat (n - offset f)) (offset f))
        by (done || lia).
      simpl. f_equal.
      replace (n + 3 - 3 + 1) with (n + 1) by lia.
      by rewrite (present_from_ext st st2).
  - assert (Hnone' : ∀ i, offset f <= i < MAX_PTYS → pty_presentb st i = false).
    { intros i Hi. apply Hnone. lia. }
    rewrite (bind_Ok _ _ _ _ _
      (devpts_readdir_none st fid f Hwf Hf Hroot Hoff Hnone')).
    rewrite (present_from_none st (Z.to_nat (Z.max 0 (MAX_PTYS - offset f))))
      by (done || lia).
    eexists. split; [reflexivity|done].
Qed.

(** C8, as the code has it: on a root handle whose cursor is an [int], one
    call of [devpts_readdir] yields the smallest pair number at or after
    the cursor that is in the table, with its decimal name and the inode
    number + 3, and leaves the cursor where it was; it reports no entry
    exactly when no number from the cursor up to [MAX_PTYS] is in the
    table.  A caller that moves the cursor one past each number it gets
    therefore receives the numbers in the table from the cursor on, in
    strictly increasing order, without duplicates and without omissions. *)
Theorem devpts_readdir_spec (st : kstate) (fid : fdid) (f : fd) :
  ttys_wf st → fds st !! fid = Some f → pty_num f = -1 →
  INT_MIN < offset f <= INT_MAX →
  (∀ n, offset f <= n < MAX_PTYS →
        pty_presentb st n = true →
        (∀ i, offset f <= i < n → pty_presentb st i = false) →
        ∃ st', devpts_readdir fid st
               = Ok ((1, Some (mk_dir_entry (sprintf_d n) (n + 3))), st')
               ∧ fds st' = fds st ∧ slave_ttys st' = slave_ttys st)
  ∧ ((∀ i, offset f <= i < MAX_PTYS → pty_presentb st i = false)
     ↔ ∃ st', devpts_readdir fid st = Ok ((0, None), st'))
  ∧ (∀ fuel : nat,
       (Z.to_nat (MAX_PTYS - offset f) < fuel)%nat →
       ∃ nums st',
         readdir_all fuel fid st = Ok (entry_of <$> nums, st')
         ∧ StronglySorted Z.lt nums
         ∧ List.NoDup nums
         ∧ ∀ n, In n nums ↔ offset f <= n < MAX_PTYS ∧ pty_presentb st n = true).
Proof.
  intros Hwf Hf Hroot Hoff. split; [|split].
  - intros n Hn Hp Habs. eexists. split.
    + by apply (devpts_readdir_found st fid f n).
    + done.
  - split.
    + intros Hnone. eexists. by apply (devpts_readdir_none st fid f).
    + intros [st' Hrun].
      destruct (first_present_or_none st (Z.to_nat (MAX_PTYS - offset f))
                  (offset f)) as [(n & Hn & Hp & Habs)|Hnone].
      * rewrite (devpts_readdir_found st fid f n) in Hrun by (done || lia).
        discriminate Hrun.
      * intros i Hi. apply Hnone. lia.
  - intros fuel Hfuel.
    destruct (readdir_all_run fid fuel st f Hwf Hf Hroot Hoff Hfuel)
      as (st' & Hrun & _).
    exists (present_from st (offset f)), st'. split; [exact Hrun|].
    split.
    { apply (present_from_sorted st (Z.to_nat (Z.max 0 (MAX_PTYS - offset f)))).
      lia. }
    split.
    { unfold present_from. apply List.NoDup_filter, NoDup_ListNoDup, NoDup_seqZ. }
    intros n. apply present_from_In.
Qed.

Lemma devpts_readdir_spec_witness :
  (∃ st', devpts_readdir 2%positive st_pair
          = Ok ((1, Some (mk_dir_entry "0" 3)), st'))
  ∧ (∃ nums st', readdir_all 4097 2%positive st_pair
                 = Ok (entry_of <$> nums, st')
                 ∧ ∀ n, In n nums ↔ 0 <= n < MAX_PTYS
                                     ∧ pty_presentb st_pair n = true).
Proof.
  destruct (devpts_readdir_spec st_pair 2%positive (mk_fd None (-1) 0))
    as (H1 & _ & H3).
  - reflexivity.
  - reflexivity.
  - reflexivity.
  - simpl. unfold INT_MIN, INT_MAX. lia.
  - split.
    + destruct (H1 0) as (st' & Hrun & _).
      * simpl. rewrite MAX_PTYS_eq. lia.
      * reflexivity.
      * simpl. intros i Hi. lia.
      * exists st'. exact Hrun.
    + destruct (H3 4097%nat) as (nums & st' & Hrun & _ & _ & Hin).
      * simpl. rewrite MAX_PTYS_eq. lia.
      * exists nums, st'. split; [exact Hrun|exact Hin].
Defined.

(** C8 as the spec words it fails: with pair 0 in the table and the cursor
    at 0, the call yields pair 0, which is not after the cursor; and the
    call does not move the cursor, so that a caller who puts the cursor on
    the number just read gets that number again. *)
Lemma devpts_readdir_not_after_cursor :
  ¬ (∀ st fid f,
       ttys_wf st → fds st !! fid = Some f → pty_num f = -1 →
       ∃ st', devpts_readdir fid st
              = Ok (match readdir_spec st (offset f) with
                    | Some e => (1, Some e)
                    | None => (0, None)
                    end, st'))
  ∧ (∃ st', devpts_readdir 2%positive st_pair
            = Ok ((1, Some (entry_of 0)), st'))
  ∧ (∃ st', devpts_readdir 2%positive st_pair_cursor_0
            = Ok ((1, Some (entry_of 0)), st')).
Proof.
  assert (Hrun : devpts_readdir 2%positive st_pair
                 = Ok ((1, Some (entry_of 0)),
                       exec (devpts_readdir 2%positive) st_pair))
    by (vm_compute; reflexivity).
  split; [|split].
  - intros H.
    destruct (H st_pair 2%positive (mk_fd None (-1) 0)) as [st' Hst'];
      [reflexivity|reflexivity|reflexivity|].
    rewrite Hrun in Hst'.
    assert (Hspec : readdir_spec st_pair 0 = None) by (vm_compute; reflexivity).
    simpl offset in Hst'. rewrite Hspec in Hst'. discriminate Hst'.
  - eexists. exact Hrun.
  - eexists. vm_compute. reflexivity.
Qed.

(** ** Operations that leave the terminal objects alone *)

Lemma same_objects_refl st : same_objects st st.
Proof. by repeat split. Qed.

Lemma same_objects_trans st1 st2 st3 :
  same_objects st1 st2 → same_objects st2 st3 → same_objects st1 st3.
Proof.
  intros (H1 & H2 & H3) (G1 & G2 & G3). repeat split; congruence.
Qed.

Lemma mret_inv {A} (a b : A) st st' :
  (mret a : M A) st = Ok (b, st') → b = a ∧ st' = st.
Proof. unfold mret, M_ret. by intros [= -> ->]. Qed.

Lemma emit_same e st r st' : emit e st = Ok (r, st') → same_objects st st'.
Proof. unfold emit. intros [= _ <-]. by repeat split. Qed.

Lemma ttys_read_same i st r st' :
  ttys_read i st = Ok (r, st') → same_objects st st'.
Proof.
  unfold ttys_read. destruct (_ && _); [|done].
  destruct (slave_ttys st !! Z.to_nat i); [|done].
  intros [= _ <-]. by repeat split.
Qed.

Lemma fd_load_same fid st r st' :
  fd_load fid st = Ok (r, st') → same_objects st st'.
Proof.
  unfold fd_load. destruct (fds st !! fid); [|done].
  intros [= _ <-]. by repeat split.
Qed.

Lemma fd_modify_same fid g st r st' :
  fd_modify fid g st = Ok (r, st') → same_objects st st'.
Proof.
  unfold fd_modify. destruct (fds st !! fid); [|done].
  intros [= _ <-]. by repeat split.
Qed.

Lemma devpts_pty_exists_same i st r st' :
  devpts_pty_exists i st = Ok (r, st') → same_objects st st'.
Proof.
  unfold devpts_pty_exists, lock, unlock.
  destruct (decide (i < 0 ∨ i > MAX_PTYS)).
  { intros [-> ->]%mret_inv. apply same_objects_refl. }
  intros (? & st1 & H1 & H)%bind_inv.
  apply bind_inv in H as (? & st2 & H2 & H).
  apply bind_inv in H as (? & st3 & H3 & H).
  apply mret_inv in H as [_ ->].
  apply emit_same in H1, H3. apply ttys_read_same in H2.
  exact (same_objects_trans _ _ _ (same_objects_trans _ _ _ H1 H2) H3).
Qed.

Lemma devpts_get_pty_num_same path st r st' :
  devpts_get_pty_num path st = Ok (r, st') → same_objects st st'.
Proof.
  unfold devpts_get_pty_num. destruct path as [|c0 name].
  { intros [-> ->]%mret_inv. apply same_objects_refl. }
  destruct (_ || _).
  { intros [-> ->]%mret_inv. apply same_objects_refl. }
  destruct (negb (isdigits name)).
  { intros [-> ->]%mret_inv. apply same_objects_refl. }
  destruct (decide (atol name > INT_MAX)).
  { intros [-> ->]%mret_inv. apply same_objects_refl. }
  intros (e & st1 & H1 & H)%bind_inv.
  apply devpts_pty_exists_same in H1.
  destruct (negb e); apply mret_inv in H as [_ ->]; exact H1.
Qed.

Lemma devpts_open_same path st r st' :
  devpts_open path st = Ok (r, st') → same_objects st st'.
Proof.
  unfold devpts_open. intros (n & st1 & H1 & H)%bind_inv.
  apply devpts_get_pty_num_same in H1.
  destruct (decide (n = _ENOENT)).
  { apply mret_inv in H as [_ ->]. exact H1. }
  apply bind_inv in H as (f & st2 & H2 & H).
  apply bind_inv in H as (? & st3 & H3 & H).
  apply mret_inv in H as [_ ->].
  apply fd_modify_same in H3.
  assert (H12 : same_objects st1 st2).
  { unfold fd_create in H2. injection H2 as _ <-. by repeat split. }
  exact (same_objects_trans _ _ _ (same_objects_trans _ _ _ H1 H12) H3).
Qed.

Lemma devpts_getpath_same fid st r st' :
  devpts_getpath fid st = Ok (r, st') → same_objects st st'.
Proof.
  unfold devpts_getpath. intros (f & st1 & H1 & H)%bind_inv.
  apply fd_load_same in H1.
  destruct (decide (pty_num f = -1)); apply mret_inv in H as [_ ->]; exact H1.
Qed.

Lemma readdir_scan_same fuel : ∀ p st r st',
  readdir_scan fuel p st = Ok (r, st') → same_objects st st'.
Proof.
  induction fuel as [|fuel IH]; intros p st r st';
    rewrite readdir_scan_unfold;
    (destruct (decide (p = INT_MAX)); [done|]);
    (destruct (decide (p + 1 < MAX_PTYS));
     [|intros [_ ->]%mret_inv; apply same_objects_refl]);
    intros (e & st1 & H1 & H)%bind_inv;
    apply devpts_pty_exists_same in H1;
    (destruct (negb e); [|apply mret_inv in H as [_ ->]; exact H1]).
  - done.
  - eauto using same_objects_trans.
Qed.

Lemma devpts_readdir_same fid st r st' :
  devpts_readdir fid st = Ok (r, st') → same_objects st st'.
Proof.
  unfold devpts_readdir. intros (f & st1 & H1 & H)%bind_inv.
  apply fd_load_same in H1.
  destruct (decide (pty_num f = -1)); [|done].
  apply bind_inv in H as (n & st2 & H2 & H).
  apply readdir_scan_same in H2.
  destruct (decide (n >= MAX_PTYS)); apply mret_inv in H as [_ ->];
    eauto using same_objects_trans.
Qed.

(** ** The driver hooks on every state *)

Lemma tty_load_dangling st a :
  heap st !! a = None → tty_load (Some a) st = Fault (Dangling a).
Proof. intros H. unfold tty_load. by rewrite H. Qed.

Lemma ttys_write_oob st i v :
  ¬ (0 <= i < Z.of_nat (length (slave_ttys st))) →
  ttys_write i v st = Fault (OutOfBounds i).
Proof.
  intros H. unfold ttys_write.
  destruct (0 <=? i) eqn:E1; [|done].
  destruct (i <? Z.of_nat (length (slave_ttys st))) eqn:E2; [lia|done].
Qed.

(** [pty_write]: the link is dereferenced whatever it holds. *)
Lemma pty_write_char (t : addr) buf blocking st :
  pty_write t buf blocking st =
    match heap st !! t with
    | None => Fault (Dangling t)
    | Some x =>
        match pty_other x with
        | None => Fault NullDeref
        | Some s =>
            match heap st !! s with
            | None => Fault (Dangling s)
            | Some ts =>
                Ok (0, with_heap (<[s := set_input (input ts ++ buf) ts]> (heap st))
                         (with_trace (trace st ++ [EvInput s buf blocking]) st))
            end
        end
    end.
Proof.
  unfold pty_write. destruct (heap st !! t) as [x|] eqn:Ht.
  - rewrite (bind_Ok _ _ _ _ _ (tty_load_Ok _ _ _ Ht)).
    unfold tty_input. destruct (pty_other x) as [s|]; [|done].
    destruct (heap st !! s) as [ts|] eqn:Hs.
    + rewrite (bind_Ok _ _ _ _ _ (tty_load_Ok _ _ _ Hs)).
      rewrite (bind_Ok _ _ _ _ _ (emit_Ok _ _)).
      erewrite bind_Ok; [|apply tty_modify_Ok; simpl; exact Hs]. done.
    + by rewrite (bind_Fault _ _ _ _ (tty_load_dangling _ _ Hs)).
  - by rewrite (bind_Fault _ _ _ _ (tty_load_dangling _ _ Ht)).
Qed.

(** [pty_ioctl]: the two requests it knows dereference the link whatever
    it holds. *)
Lemma pty_ioctl_char (t : addr) cmd arg st :
  pty_ioctl t cmd arg st =
    match heap st !! t with
    | None => Fault (Dangling t)
    | Some x =>
        if decide (cmd = TIOCSPTLCK_ ∨ cmd = TIOCGPTN_) then
          match pty_other x with
          | None => Fault NullDeref
          | Some s =>
              match heap st !! s with
              | None => Fault (Dangling s)
              | Some ts =>
                  if decide (cmd = TIOCSPTLCK_) then
                    Ok ((0, arg),
                        with_heap (<[s := set_locked (negb (arg =? 0)) ts]>
                                     (heap st)) st)
                  else Ok ((0, to_dword (num ts)), st)
              end
          end
        else Ok ((_EINVAL, arg), st)
    end.
Proof.
  unfold pty_ioctl. destruct (heap st !! t) as [x|] eqn:Ht.
  - rewrite (bind_Ok _ _ _ _ _ (tty_load_Ok _ _ _ Ht)).
    destruct (decide (cmd = TIOCSPTLCK_)) as [->|H1].
    + destruct (decide (_ ∨ _)) as [_|H]; [|exfalso; auto].
      destruct (pty_other x) as [s|]; [|done].
      destruct (heap st !! s) as [ts|] eqn:Hs.
      * by rewrite (bind_Ok _ _ _ _ _ (tty_modify_Ok _ _ _ _ Hs)).
      * unfold mbind, M_bind, tty_modify. by rewrite Hs.
    + destruct (decide (cmd = TIOCGPTN_)) as [->|H2].
      * destruct (decide (_ ∨ _)) as [_|H]; [|exfalso; auto].
        destruct (pty_other x) as [s|]; [|done].
        destruct (heap st !! s) as [ts|] eqn:Hs.
        -- by rewrite (bind_Ok _ _ _ _ _ (tty_load_Ok _ _ _ Hs)).
        -- by rewrite (bind_Fault _ _ _ _ (tty_load_dangling _ _ Hs)).
      * destruct (decide (_ ∨ _)) as [[?|?]|_]; done.
  - by rewrite (bind_Fault _ _ _ _ (tty_load_dangling _ _ Ht)).
Qed.

Lemma pty_master_init_char (m : addr) st :
  pty_master_init m st =
    match heap st !! m with
    | None => Fault (Dangling m)
    | Some tm =>
        if decide (0 <= num tm < Z.of_nat (length (slave_ttys st))) then
          let slave := fresh (dom (heap st) ∪ freed st) in
          Ok (0, mk_kstate
                   (<[slave := mk_tty pty_slave (num tm) 1 (Some m) true false [] []]>
                      (<[m := set_other (Some slave) tm]> (heap st)))
                   (freed st)
                   (<[Z.to_nat (num tm) := Some slave]> (slave_ttys st))
                   (fds st)
                   (trace st ++ [EvSlotWrite (num tm) (Some slave);
                                 EvStoreOther m (Some slave);
                                 EvStoreOther slave (Some m)]))
        else Fault (OutOfBounds (num tm))
    end.
Proof.
  destruct (heap st !! m) as [tm|] eqn:Hm.
  - destruct (decide (0 <= num tm < Z.of_nat (length (slave_ttys st)))) as [Hn|Hn].
    + by apply pty_master_init_run.
    + unfold pty_master_init.
      rewrite (bind_Ok _ _ _ _ _ (tty_load_Ok _ _ _ Hm)).
      unfold tty_alloc at 1. unfold mbind at 1, M_bind at 1.
      erewrite bind_Ok; cycle 1.
      { apply tty_modify_Ok. simpl. apply lookup_insert_eq. }
      apply bind_Fault. by apply ttys_write_oob.
  - unfold pty_master_init.
    by rewrite (bind_Fault _ _ _ _ (tty_load_dangling _ _ Hm)).
Qed.

Lemma pty_master_cleanup_char (m : addr) st :
  pty_master_cleanup m st =
    match heap st !! m with
    | None => Fault (Dangling m)
    | Some tm =>
        match pty_other tm with
        | None => Fault NullDeref
        | Some s =>
            match heap st !! s with
            | None => Fault (Dangling s)
            | Some ts =>
                Ok (tt,
                    if decide (refcount ts - 1 = 0) then
                      mk_kstate (delete s (heap st)) ({[s]} ∪ freed st)
                        (match driver ts with
                         | pty_slave => clear_slot (num ts) (slave_ttys st)
                         | pty_master => slave_ttys st
                         end)
                        (fds st) (trace st ++ cleanup_events s)
                    else
                      mk_kstate
                        (<[s := set_refcount (refcount ts - 1)
                                  (set_hung_up true (set_other None ts))]>
                           (heap st))
                        (freed st) (slave_ttys st) (fds st)
                        (trace st ++ cleanup_events s))
            end
        end
    end.
Proof.
  destruct (heap st !! m) as [tm|] eqn:Hm.
  - destruct (pty_other tm) as [s|] eqn:Ho.
    + destruct (heap st !! s) as [ts|] eqn:Hs.
      * by apply (pty_master_cleanup_run st m tm s ts).
      * unfold pty_master_cleanup.
        rewrite (bind_Ok _ _ _ _ _ (tty_load_Ok _ _ _ Hm)). rewrite Ho.
        apply bind_Fault. unfold store_other.
        by rewrite (bind_Fault _ _ _ _ (tty_load_dangling _ _ Hs)).
    + unfold pty_master_cleanup.
      rewrite (bind_Ok _ _ _ _ _ (tty_load_Ok _ _ _ Hm)). by rewrite Ho.
  - unfold pty_master_cleanup.
    by rewrite (bind_Fault _ _ _ _ (tty_load_dangling _ _ Hm)).
Qed.

(** ** One operation at a time *)

Lemma same_objects_effect st st' : same_objects st st' → op_effect st st'.
Proof.
  intros (H1 & H2 & H3). split; [by apply eff_none|]. by rewrite H3.
Qed.

Lemma pty_slave_open_same (t : addr) st r st' :
  pty_slave_open t st = Ok (r, st') → st' = st.
Proof.
  unfold pty_slave_open. intros (x & st1 & H1 & H)%bind_inv.
  assert (st1 = st) as ->.
  { unfold tty_load in H1. destruct (heap st !! t); [|done]. by injection H1. }
  destruct (decide (pty_other x = None)); [by apply mret_inv in H as [_ ->]|].
  destruct (pty_locked x); by apply mret_inv in H as [_ ->].
Qed.

Lemma clear_slot_length n l : length (clear_slot n l) = length l.
Proof.
  unfold clear_slot. destruct (decide (0 <= n)); [apply length_insert|done].
Qed.

Lemma pty_return_eio_effect (t : addr) st r st' :
  pty_return_eio t st = Ok (r, st') → op_effect st st'.
Proof.
  intros [_ ->]%mret_inv. apply same_objects_effect, same_objects_refl.
Qed.

Lemma pty_write_effect (t : addr) buf blocking st r st' :
  pty_write t buf blocking st = Ok (r, st') → op_effect st st'.
Proof.
  rewrite pty_write_char.
  destruct (heap st !! t) as [x|]; [|done].
  destruct (pty_other x) as [s|]; [|done].
  destruct (heap st !! s) as [ts|] eqn:Hs; [|done].
  intros [= _ <-]. split; [|done].
  by apply (eff_update _ _ s ts (set_input (input ts ++ buf) ts)).
Qed.

Lemma pty_ioctl_effect (t : addr) cmd arg st r st' :
  pty_ioctl t cmd arg st = Ok (r, st') → op_effect st st'.
Proof.
  rewrite pty_ioctl_char.
  destruct (heap st !! t) as [x|]; [|done].
  destruct (decide (_ ∨ _)); cycle 1.
  { intros [= _ <-]. apply same_objects_effect, same_objects_refl. }
  destruct (pty_other x) as [s|]; [|done].
  destruct (heap st !! s) as [ts|] eqn:Hs; [|done].
  destruct (decide (cmd = TIOCSPTLCK_)).
  - intros [= _ <-]. split; [|done].
    by apply (eff_update _ _ s ts (set_locked (negb (arg =? 0)) ts)).
  - intros [= _ <-]. apply same_objects_effect, same_objects_refl.
Qed.

Lemma pty_master_init_effect (m : addr) (x : tty) st r st' :
  heap st !! m = Some x → driver x = pty_master →
  pty_master_init m st = Ok (r, st') → op_effect st st'.
Proof.
  intros Hm Hd. rewrite pty_master_init_char, Hm.
  destruct (decide (0 <= num x < _)); [|done].
  intros [= _ <-]. split; [|apply length_insert].
  eapply (eff_init _ _ m x); try done.
  - apply fresh_not_live.
  - apply fresh_not_freed.
  - done.
  - done.
Qed.

Lemma pty_master_cleanup_effect (m : addr) (x : tty) st r st' :
  heap st !! m = Some x → driver x = pty_master →
  pty_master_cleanup m st = Ok (r, st') → op_effect st st'.
Proof.
  intros Hm Hd. rewrite pty_master_cleanup_char, Hm.
  destruct (pty_other x) as [s|] eqn:Ho; [|done].
  destruct (heap st !! s) as [ts|] eqn:Hs; [|done].
  intros [= <- <-].
  destruct (decide (refcount ts - 1 = 0)).
  - split.
    + by apply (eff_cleanup_destroy _ _ m x s ts).
    + simpl. destruct (driver ts); [done|apply clear_slot_length].
  - split; [|done].
    by apply (eff_cleanup_keep _ _ m x s ts
                (set_refcount (refcount ts - 1)
                   (set_hung_up true (set_other None ts)))).
Qed.

Lemma ptmx_open_effect (fid : fdid) st r st' :
  ttys_wf st → ptmx_open fid st = Ok (r, st') → op_effect st st'.
Proof.
  intros Hwf Hopen.
  destruct (first_empty_or_full st Hwf) as [(n & Hn & Hs & Hb)|Hall].
  - destruct (fds st !! fid) as [f|] eqn:Hf.
    + destruct (ptmx_open_found st fid f n Hwf Hf Hn Hs Hb)
        as (m & s & Hms & Hm & Hsl & Hmf & Hsf & Hok).
      rewrite Hok in Hopen. injection Hopen as _ <-.
      split; [|apply length_insert].
      by apply (eff_alloc_pair _ _ m
                  (set_tty_fds [fid] (new_master (Z.of_nat n) s))
                  s (new_slave (Z.of_nat n) m)).
    + exfalso. revert Hopen. unfold ptmx_open, lock, unlock.
      rewrite (bind_Ok _ _ _ _ _ (emit_Ok _ _)).
      erewrite bind_Ok; cycle 1.
      { apply (ptmx_scan_found _ 0 n);
          [lia|done|done| |rewrite MAX_PTYS_eq in *; lia].
        intros j Hj. apply Hb. lia. }
      rewrite (bind_Ok _ _ _ _ _ (emit_Ok _ _)).
      destruct (decide (Z.of_nat n = MAX_PTYS)); [lia|].
      match goal with
      | |- (tty_get pty_master ?x ≫= _) ?y = _ → _ =>
          destruct (tty_get_master_run y x) as (_ & _ & _ & _ & _ & Hg);
            [simpl; unfold ttys_wf in Hwf; lia|]
      end.
      rewrite (bind_Ok _ _ _ _ _ Hg).
      unfold mbind, M_bind, fd_modify. simpl. by rewrite Hf.
  - rewrite (ptmx_open_full st fid Hwf Hall) in Hopen.
    apply Ok_inv in Hopen as [_ <-]. apply same_objects_effect.
    unfold same_objects, with_trace. cbn [heap freed slave_ttys]. done.
Qed.

Lemma tty_load_inv p st x st' :
  tty_load p st = Ok (x, st') →
  st' = st ∧ ∃ a, p = Some a ∧ heap st !! a = Some x.
Proof.
  unfold tty_load. destruct p as [a|]; [|done].
  destruct (heap st !! a) eqn:H; [|done]. intros [= -> ->]. eauto.
Qed.

(** Every operation has one of the effects of [heap_effect]. *)
Lemma run_op_effect (o : core_op) st st' :
  ttys_wf st → run_op o st = Ok (tt, st') → op_effect st st'.
Proof.
  intros Hwf. destruct o as [t|t|t buf b|t cmd arg|t|fid|path|fid|fid]; simpl.
  - intros (x & st1 & [-> (a & [= <-] & Hx)]%tty_load_inv & H)%bind_inv.
    destruct (driver x) eqn:Hd; simpl in H;
      apply bind_inv in H as (r & st2 & H2 & [_ ->]%mret_inv).
    + by eapply pty_master_init_effect.
    + by eapply pty_return_eio_effect.
  - intros (x & st1 & [-> (a & [= <-] & Hx)]%tty_load_inv & H)%bind_inv.
    destruct (driver x) eqn:Hd; simpl in H;
      apply bind_inv in H as (r & st2 & H2 & [_ ->]%mret_inv).
    + by eapply pty_return_eio_effect.
    + apply pty_slave_open_same in H2 as ->.
      apply same_objects_effect, same_objects_refl.
  - intros (x & st1 & [-> (a & [= <-] & Hx)]%tty_load_inv & H)%bind_inv.
    destruct (driver x) eqn:Hd; simpl in H;
      apply bind_inv in H as (r & st2 & H2 & [_ ->]%mret_inv);
      by eapply pty_write_effect.
  - intros (x & st1 & [-> (a & [= <-] & Hx)]%tty_load_inv & H)%bind_inv.
    destruct (driver x) eqn:Hd; simpl in H.
    + apply bind_inv in H as (r & st2 & H2 & [_ ->]%mret_inv).
      by eapply pty_ioctl_effect.
    + apply mret_inv in H as [_ ->].
      apply same_objects_effect, same_objects_refl.
  - intros (x & st1 & [-> (a & [= <-] & Hx)]%tty_load_inv & H)%bind_inv.
    destruct (driver x) eqn:Hd; simpl in H.
    + by eapply pty_master_cleanup_effect.
    + apply mret_inv in H as [_ ->].
      apply same_objects_effect, same_objects_refl.
  - intros (r & st1 & H1 & [_ ->]%mret_inv)%bind_inv.
    by eapply ptmx_open_effect.
  - intros (r & st1 & H1 & [_ ->]%mret_inv)%bind_inv.
    by eapply same_objects_effect, devpts_open_same.
  - intros (r & st1 & H1 & [_ ->]%mret_inv)%bind_inv.
    by eapply same_objects_effect, devpts_getpath_same.
  - intros (r & st1 & H1 & [_ ->]%mret_inv)%bind_inv.
    by eapply same_objects_effect, devpts_readdir_same.
Qed.

(** ** The shape of the links is kept *)

Lemma heap_effect_addresses st st' :
  heap_effect st st' →
  dom (heap st) ∪ freed st ⊆ dom (heap st') ∪ freed st'.
Proof.
  intros [Hh Hf|a t t' Ha _ _ Hh Hf|m tm s ts _ _ _ _ _ _ Hh Hf
          |m tm s ts ts' _ _ _ _ _ _ Hh Hf|m tm s ts _ _ _ _ Hh Hf
          |m tm s ts _ _ _ _ _ _ _ _ _ Hh Hf]; rewrite Hh, Hf.
  - done.
  - rewrite dom_insert_L. set_solver.
  - rewrite !dom_insert_L. set_solver.
  - rewrite dom_insert_L. set_solver.
  - rewrite dom_delete_L. intros x Hx.
    destruct (decide (x = s)) as [->|]; set_solver.
  - rewrite !dom_insert_L. set_solver.
Qed.

Lemma heap_effect_links_closed st st' :
  links_closed st → heap_effect st st' → links_closed st'.
Proof.
  intros Hlc Heff a t x Ha Hx.
  pose proof (heap_effect_addresses st st' Heff) as Hmono.
  assert (Hold : ∀ a0 t0, heap st !! a0 = Some t0 → pty_other t0 = Some x →
                          x ∈ dom (heap st') ∪ freed st').
  { intros a0 t0 H1 H2. apply Hmono. by apply (Hlc a0 t0). }
  destruct Heff as [Hh Hf|a1 t1 t1' Ha1 _ Ho Hh Hf
          |m tm s ts Hm _ Hs _ _ Hots Hh Hf
          |m tm s ts ts' Hm _ _ Hs _ Hots Hh Hf|m tm s ts Hm _ _ Hs Hh Hf
          |m tm s ts Hm _ Hs _ Hms _ Hotm _ Hots Hh Hf].
  - rewrite Hh in Ha. by apply (Hold a t).
  - rewrite Hh in Ha. destruct (decide (a = a1)) as [->|Hne].
    + rewrite lookup_insert_eq in Ha. injection Ha as <-.
      apply (Hold a1 t1); [done|congruence].
    + rewrite lookup_insert_ne in Ha by done. by apply (Hold a t).
  - rewrite Hh in Ha. destruct (decide (a = s)) as [->|Hne].
    + rewrite lookup_insert_eq in Ha. injection Ha as <-.
      assert (x = m) as -> by congruence.
      apply Hmono, elem_of_union_l, elem_of_dom. eauto.
    + rewrite lookup_insert_ne in Ha by done.
      destruct (decide (a = m)) as [->|Hne'].
      * rewrite lookup_insert_eq in Ha. injection Ha as <-. simpl in Hx.
        injection Hx as <-. rewrite Hh. apply elem_of_union_l, elem_of_dom.
        rewrite lookup_insert_eq. eauto.
      * rewrite lookup_insert_ne in Ha by done. by apply (Hold a t).
  - rewrite Hh in Ha. destruct (decide (a = s)) as [->|Hne].
    + rewrite lookup_insert_eq in Ha. injection Ha as <-. congruence.
    + rewrite lookup_insert_ne in Ha by done. by apply (Hold a t).
  - rewrite Hh in Ha. apply lookup_delete_Some in Ha as [_ Ha].
    by apply (Hold a t).
  - rewrite Hh in Ha. destruct (decide (a = m)) as [->|Hne].
    + rewrite lookup_insert_eq in Ha. injection Ha as <-.
      assert (x = s) as -> by congruence.
      rewrite Hh. apply elem_of_union_l, elem_of_dom.
      rewrite lookup_insert_ne, lookup_insert_eq by done. eauto.
    + rewrite lookup_insert_ne in Ha by done.
      destruct (decide (a = s)) as [->|Hne'].
      * rewrite lookup_insert_eq in Ha. injection Ha as <-.
        assert (x = m) as -> by congruence.
        rewrite Hh. apply elem_of_union_l, elem_of_dom.
        rewrite lookup_insert_eq. eauto.
      * rewrite lookup_insert_ne in Ha by done. by apply (Hold a t).
Qed.

Lemma heap_effect_master_links st st' :
  links_closed st → master_links st → heap_effect st st' → master_links st'.
Proof.
  intros Hlc Hml Heff a t x tx Ha Hd Hx Htx.
  destruct Heff as [Hh Hf|a1 t1 t1' Ha1 Hd1 Ho Hh Hf
          |m tm s ts Hm Hdm Hs _ Hds Hots Hh Hf
          |m tm s ts ts' Hm Hdm Hom Hs Hds Hots Hh Hf
          |m tm s ts Hm Hdm Hom Hs Hh Hf
          |m tm s ts Hm Hmf Hs Hsf Hms Hdm Hotm Hds Hots Hh Hf];
    rewrite Hh in Ha, Htx.
  - by apply (Hml a t x tx).
  - (* one object updated, with the same driver and link *)
    assert (∃ t0, heap st !! a = Some t0 ∧ driver t0 = pty_master
                  ∧ pty_other t0 = Some x) as (t0 & Ha0 & Hd0 & Hx0).
    { destruct (decide (a = a1)) as [->|Hne].
      - rewrite lookup_insert_eq in Ha. injection Ha as <-.
        exists t1. repeat split; congruence.
      - rewrite lookup_insert_ne in Ha by done. eauto. }
    destruct (decide (x = a1)) as [->|Hne].
    + rewrite lookup_insert_eq in Htx. injection Htx as <-.
      rewrite Hd1. by apply (Hml a t0 a1 t1).
    + rewrite lookup_insert_ne in Htx by done. by apply (Hml a t0 x tx).
  - (* init *)
    destruct (decide (x = s)) as [->|Hxs].
    { rewrite lookup_insert_eq in Htx. by injection Htx as <-. }
    rewrite lookup_insert_ne in Htx by done.
    destruct (decide (a = s)) as [->|Has].
    { rewrite lookup_insert_eq in Ha. injection Ha as <-. congruence. }
    rewrite lookup_insert_ne in Ha by done.
    destruct (decide (a = m)) as [->|Ham].
    { rewrite lookup_insert_eq in Ha. injection Ha as <-. simpl in Hx.
      congruence. }
    rewrite lookup_insert_ne in Ha by done.
    destruct (decide (x = m)) as [->|Hxm].
    + rewrite lookup_insert_eq in Htx. injection Htx as <-. simpl.
      by apply (Hml a t m tm).
    + rewrite lookup_insert_ne in Htx by done. by apply (Hml a t x tx).
  - (* cleanup, the slave stays *)
    assert (Hslave : driver ts = pty_slave) by by apply (Hml m tm s ts).
    destruct (decide (a = s)) as [->|Has].
    { rewrite lookup_insert_eq in Ha. injection Ha as <-. congruence. }
    rewrite lookup_insert_ne in Ha by done.
    destruct (decide (x = s)) as [->|Hxs].
    + rewrite lookup_insert_eq in Htx. injection Htx as <-. congruence.
    + rewrite lookup_insert_ne in Htx by done. by apply (Hml a t x tx).
  - (* cleanup, the slave goes *)
    apply lookup_delete_Some in Ha as [_ Ha].
    apply lookup_delete_Some in Htx as [_ Htx].
    by apply (Hml a t x tx).
  - (* a new pair *)
    destruct (decide (x = s)) as [->|Hxs].
    { rewrite lookup_insert_ne, lookup_insert_eq in Htx by done.
      by injection Htx as <-. }
    destruct (decide (a = m)) as [->|Ham].
    { rewrite lookup_insert_eq in Ha. injection Ha as <-. congruence. }
    rewrite lookup_insert_ne in Ha by done.
    destruct (decide (a = s)) as [->|Has].
    { rewrite lookup_insert_eq in Ha. injection Ha as <-. congruence. }
    rewrite lookup_insert_ne in Ha by done.
    destruct (decide (x = m)) as [->|Hxm].
    + exfalso. pose proof (Hlc a t m Ha Hx) as Hin.
      apply elem_of_union in Hin as [Hin|Hin]; [|done].
      apply elem_of_dom in Hin as [? Hin]. congruence.
    + rewrite !lookup_insert_ne in Htx by done. by apply (Hml a t x tx).
Qed.

(** No operation stores null into the link of a live master. *)
Lemma heap_effect_link_kept st st' (m : addr) (tm tm' : tty) :
  master_links st → heap_effect st st' →
  heap st !! m = Some tm → driver tm = pty_master → is_Some (pty_other tm) →
  heap st' !! m = Some tm' → is_Some (pty_other tm').
Proof.
  intros Hml Heff Hm Hd Hsome Hm'.
  destruct Heff as [Hh Hf|a1 t1 t1' Ha1 Hd1 Ho Hh Hf
          |m0 tm0 s ts Hm0 Hdm Hs _ Hds Hots Hh Hf
          |m0 tm0 s ts ts' Hm0 Hdm Hom Hs Hds Hots Hh Hf
          |m0 tm0 s ts Hm0 Hdm Hom Hs Hh Hf
          |m0 tm0 s ts Hm0 Hmf Hs Hsf Hms Hdm Hotm Hds Hots Hh Hf];
    rewrite Hh in Hm'.
  - congruence.
  - destruct (decide (m = a1)) as [->|Hne].
    + rewrite lookup_insert_eq in Hm'. injection Hm' as <-.
      rewrite Ho. congruence.
    + rewrite lookup_insert_ne in Hm' by done. congruence.
  - destruct (decide (m = s)) as [->|Hne]; [congruence|].
    rewrite lookup_insert_ne in Hm' by done.
    destruct (decide (m = m0)) as [->|Hne'].
    + rewrite lookup_insert_eq in Hm'. injection Hm' as <-. simpl. eauto.
    + rewrite lookup_insert_ne in Hm' by done. congruence.
  - assert (Hslave : driver ts = pty_slave) by by apply (Hml m0 tm0 s ts).
    destruct (decide (m = s)) as [->|Hne]; [congruence|].
    rewrite lookup_insert_ne in Hm' by done. congruence.
  - apply lookup_delete_Some in Hm' as [_ Hm']. congruence.
  - destruct (decide (m = m0)) as [->|Hne]; [congruence|].
    rewrite lookup_insert_ne in Hm' by done.
    destruct (decide (m = s)) as [->|Hne']; [congruence|].
    rewrite lookup_insert_ne in Hm' by done. congruence.
Qed.

(** ** The pair link as a precondition *)

(** C10: [pty_write] and the two requests [pty_ioctl] knows use the link
    without looking at it: with a null link they fault, with a link to a
    live object they return.  [pty_master_init] sets the master's link, and
    on a state whose links have the shape [pair_inv], no operation of the
    core makes the link of a live master null (and the shape is kept).  The
    slave has no such guarantee: after [pty_master_cleanup] a slave that
    still exists has a null link, and [pty_write] on it faults. *)
Theorem pair_link_precondition (st : kstate) :
  ttys_wf st → pair_inv st →
  (∀ (t : addr) (x : tty) buf blocking arg,
     heap st !! t = Some x → pty_other x = None →
     pty_write t buf blocking st = Fault NullDeref
     ∧ pty_ioctl t TIOCSPTLCK_ arg st = Fault NullDeref
     ∧ pty_ioctl t TIOCGPTN_ arg st = Fault NullDeref)
  ∧ (∀ (t : addr) (x : tty) (s : addr) (ts : tty) buf blocking cmd arg,
       heap st !! t = Some x → pty_other x = Some s → heap st !! s = Some ts →
       (∃ r st', pty_write t buf blocking st = Ok (r, st'))
       ∧ (∃ r st', pty_ioctl t cmd arg st = Ok (r, st')))
  ∧ (∀ (m : addr) r st',
       pty_master_init m st = Ok (r, st') →
       ∃ tm' s, heap st' !! m = Some tm' ∧ pty_other tm' = Some s
                ∧ is_Some (heap st' !! s))
  ∧ (∀ (o : core_op) st',
       run_op o st = Ok (tt, st') →
       ttys_wf st' ∧ pair_inv st'
       ∧ ∀ (m : addr) (tm tm' : tty),
           heap st !! m = Some tm → driver tm = pty_master →
           is_Some (pty_other tm) →
           heap st' !! m = Some tm' → is_Some (pty_other tm'))
  ∧ (∀ (m : addr) (tm : tty) (s : addr) st' (ts' : tty) buf blocking,
       heap st !! m = Some tm → pty_other tm = Some s →
       pty_master_cleanup m st = Ok (tt, st') →
       heap st' !! s = Some ts' →
       pty_other ts' = None
       ∧ pty_write s buf blocking st' = Fault NullDeref).
Proof.
  intros Hwf [Hlc Hml]. split; [|split; [|split; [|split]]].
  - intros t x buf blocking arg Ht Ho.
    rewrite pty_write_char, !pty_ioctl_char, Ht, Ho.
    split; [done|]. split.
    + destruct (decide (_ ∨ _)) as [_|H]; [done|]. exfalso. auto.
    + destruct (decide (_ ∨ _)) as [_|H]; [done|]. exfalso. auto.
  - intros t x s ts buf blocking cmd arg Ht Ho Hs.
    rewrite pty_write_char, pty_ioctl_char, Ht, Ho, Hs.
    split; [eauto|].
    destruct (decide (_ ∨ _)); [|eauto].
    destruct (decide (cmd = TIOCSPTLCK_)); eauto.
  - intros m r st'. rewrite pty_master_init_char.
    destruct (heap st !! m) as [tm|] eqn:Hm; [|done].
    destruct (decide (0 <= num tm < _)); [|done].
    intros [= _ <-]. simpl.
    pose proof (fresh_not_live st) as Hfresh.
    eexists _, _. split.
    { rewrite lookup_insert_ne; [apply lookup_insert_eq|].
      intros E. rewrite E in Hfresh. congruence. }
    split; [done|]. rewrite lookup_insert_eq. eauto.
  - intros o st' Hrun.
    destruct (run_op_effect o st st' Hwf Hrun) as [Heff Hlen].
    split; [unfold ttys_wf in *; congruence|].
    split.
    + split; [by eapply heap_effect_links_closed
             |by eapply heap_effect_master_links].
    + intros m tm tm'. by apply heap_effect_link_kept.
  - intros m tm s st' ts' buf blocking Hm Ho.
    rewrite pty_master_cleanup_char, Hm, Ho.
    destruct (heap st !! s) as [ts|] eqn:Hs; [|done].
    intros [= <-]. destruct (decide (refcount ts - 1 = 0)); simpl.
    + by rewrite lookup_delete_eq.
    + rewrite lookup_insert_eq. intros [= <-]. split; [done|].
      rewrite pty_write_char. simpl. by rewrite lookup_insert_eq.
Qed.

Lemma st_pair_lookup (a : addr) (t : tty) :
  heap st_pair !! a = Some t →
  (a = 1%positive ∧ t = example_master) ∨ (a = 2%positive ∧ t = example_slave).
Proof.
  unfold st_pair. cbn [heap]. intros H.
  destruct (decide (a = 1%positive)) as [->|H1].
  { rewrite lookup_insert_eq in H. injection H as <-. by left. }
  rewrite lookup_insert_ne in H by done.
  destruct (decide (a = 2%positive)) as [->|H2].
  { rewrite lookup_singleton_eq in H. injection H as <-. by right. }
  rewrite lookup_singleton_ne in H by done. done.
Qed.

Lemma st_pair_inv : pair_inv st_pair.
Proof.
  split.
  - intros a t x Ha Hx. apply elem_of_union_l, elem_of_dom.
    apply st_pair_lookup in Ha as [[-> ->]|[-> ->]]; injection Hx as <-;
      by eexists.
  - intros a t x tx Ha Hd Hx Htx.
    apply st_pair_lookup in Ha as [[-> ->]|[-> ->]]; [|done].
    injection Hx as <-.
    by apply st_pair_lookup in Htx as [[? ->]|[? ->]].
Qed.

Lemma pair_link_precondition_witness :
  (∃ tm', heap st_pair_cleaned !! 1%positive = Some tm'
          ∧ is_Some (pty_other tm'))
  ∧ pty_write 2%positive [] true st_pair_cleaned = Fault NullDeref.
Proof.
  assert (Hrun : pty_master_cleanup 1%positive st_pair = Ok (tt, st_pair_cleaned))
    by (vm_compute; reflexivity).
  assert (Hop : run_op (OpCleanup 1%positive) st_pair = Ok (tt, st_pair_cleaned))
    by (vm_compute; reflexivity).
  assert (Hm' : heap st_pair_cleaned !! 1%positive = Some example_master)
    by (vm_compute; reflexivity).
  assert (Hs' : heap st_pair_cleaned !! 2%positive
                = Some (mk_tty pty_slave 0 1 None false true [] []))
    by (vm_compute; reflexivity).
  destruct (pair_link_precondition st_pair) as (_ & _ & _ & Hkeep & Hslave).
  - reflexivity.
  - exact st_pair_inv.
  - split.
    + exists example_master. split; [exact Hm'|].
      destruct (Hkeep _ _ Hop) as (_ & _ & Hkept).
      apply (Hkept 1%positive example_master example_master);
        [reflexivity|reflexivity| |exact Hm'].
      simpl. eauto.
    + apply (Hslave 1%positive example_master 2%positive st_pair_cleaned
               (mk_tty pty_slave 0 1 None false true [] []) [] true);
        [reflexivity|reflexivity|exact Hrun|exact Hs'].
Defined.

(** * Further properties of fs/pty.c *)

(** ** The existence check and resolution, case by case *)

Lemma pty_presentb_beyond st n :
  Z.of_nat (length (slave_ttys st)) <= n → pty_presentb st n = false.
Proof.
  intros H. unfold pty_presentb. destruct (decide (0 <= n)); [|done].
  rewrite lookup_ge_None_2 by lia. done.
Qed.

(** X1: for every number other than [MAX_PTYS] itself, [devpts_pty_exists]
    returns whether the number is in the table; it takes the table lock
    and reads the one slot exactly when the number is in [0, MAX_PTYS),
    and otherwise leaves the state untouched. *)
Theorem devpts_pty_exists_total (st : kstate) (n : Z) :
  ttys_wf st → n ≠ MAX_PTYS →
  devpts_pty_exists n st =
    Ok (pty_presentb st n,
        with_trace (trace st ++
                    if decide (0 <= n < MAX_PTYS)
                    then [EvLock ttys_lock; EvSlotRead n; EvUnlock ttys_lock]
                    else []) st).
Proof.
  intros Hwf Hn. destruct (decide (n < MAX_PTYS)) as [Hlt|Hge].
  - rewrite devpts_pty_exists_below by done. unfold probe_events.
    destruct (decide (n < 0)); destruct (decide (0 <= n < MAX_PTYS));
      (done || lia).
  - rewrite devpts_pty_exists_outside by lia.
    destruct (decide (0 <= n < MAX_PTYS)); [lia|].
    rewrite pty_presentb_beyond, with_trace_nil_r; [done|].
    unfold ttys_wf in Hwf. rewrite Hwf. rewrite MAX_PTYS_eq in *. lia.
Qed.

Lemma devpts_pty_exists_total_witness :
  devpts_pty_exists 0 st_pair =
    Ok (true, with_trace [EvLock ttys_lock; EvSlotRead 0; EvUnlock ttys_lock]
                         st_pair)
  ∧ devpts_pty_exists 5000 st_pair = Ok (false, st_pair)
  ∧ devpts_pty_exists (-3) st_pair = Ok (false, st_pair).
Proof.
  split; [|split].
  - apply (devpts_pty_exists_total st_pair 0); [reflexivity|vm_compute; lia].
  - apply (devpts_pty_exists_total st_pair 5000); [reflexivity|vm_compute; lia].
  - apply (devpts_pty_exists_total st_pair (-3)); [reflexivity|vm_compute; lia].
Defined.

(** The results of [devpts_get_pty_num]. *)
Lemma devpts_get_pty_num_cases (st : kstate) (path : string) (n : Z)
    (st' : kstate) :
  ttys_wf st →
  devpts_get_pty_num path st = Ok (n, st') →
  same_objects st st'
  ∧ ((n = -1 ∧ path = EmptyString)
     ∨ n = _ENOENT
     ∨ (0 <= n < MAX_PTYS ∧ pty_presentb st n = true
        ∧ ∃ name, path = String "/" name ∧ name ≠ EmptyString
                  ∧ isdigits name = true ∧ read_digits 0 name = n)).
Proof.
  intros Hwf Hrun. split; [by eapply devpts_get_pty_num_same|].
  destruct path as [|c0 name].
  { rewrite devpts_get_pty_num_root in Hrun. apply Ok_inv in Hrun as [<- _].
    by left. }
  destruct (decide (c0 = "/"%char ∧ name ≠ EmptyString ∧ isdigits name = true))
    as [(-> & Hne & Hd)|Hbad].
  - pose proof (devpts_get_pty_num_digits st name Hwf Hne Hd) as Hnum.
    cbv zeta in Hnum. rewrite Hnum in Hrun.
    pose proof (read_digits_nonneg name 0 ltac:(lia)) as Hnn.
    destruct (decide (MAX_PTYS < read_digits 0 name)).
    { apply Ok_inv in Hrun as [<- _]. right. by left. }
    destruct (decide (read_digits 0 name = MAX_PTYS)); [done|].
    apply Ok_inv in Hrun as [<- _].
    destruct (slave_ttys st !! Z.to_nat (read_digits 0 name))
      as [[a|]|] eqn:Hslot; [|right; by left..].
    right. right. split; [lia|]. split.
    + unfold pty_presentb. destruct (decide (0 <= read_digits 0 name)); [|lia].
      by rewrite Hslot.
    + exists name. done.
  - rewrite devpts_get_pty_num_malformed in Hrun.
    + apply Ok_inv in Hrun as [<- _]. right. by left.
    + done.
    + intros name' [= -> <-].
      destruct (decide (name = EmptyString)) as [|Hne]; [by left|]. right.
      destruct (isdigits name) eqn:Hd; [|done].
      exfalso. apply Hbad. done.
Qed.

(** X2: for every path except a slash followed by digits that denote
    [MAX_PTYS] itself, [devpts_get_pty_num] returns: -1 for the empty
    path and only for it; the number denoted by the digits after the
    slash when that number is below [MAX_PTYS] and in the table; and
    [_ENOENT] for every other path, be it malformed, a number above
    [MAX_PTYS], which is refused without a look at the table, or a number
    that is not in the table.  The state changes by the trace only, which
    grows by nothing or by one locked read of a slot below [MAX_PTYS]. *)
Theorem devpts_get_pty_num_range (st : kstate) (path : string) :
  ttys_wf st →
  (∀ name, path = String "/" name → isdigits name = true →
           read_digits 0 name ≠ MAX_PTYS) →
  ∃ (n : Z) (tr : list event),
    devpts_get_pty_num path st = Ok (n, with_trace (trace st ++ tr) st)
    ∧ ((n = -1 ∧ path = EmptyString)
       ∨ (n = _ENOENT ∧ path ≠ EmptyString
          ∧ ∀ name, path = String "/" name → name ≠ EmptyString →
                    isdigits name = true →
                    pty_presentb st (read_digits 0 name) = false)
       ∨ (0 <= n < MAX_PTYS ∧ pty_presentb st n = true
          ∧ ∃ name, path = String "/" name ∧ name ≠ EmptyString
                    ∧ isdigits name = true ∧ read_digits 0 name = n))
    ∧ (tr = []
       ∨ ∃ v, 0 <= v < MAX_PTYS
              ∧ tr = [EvLock ttys_lock; EvSlotRead v; EvUnlock ttys_lock])
    ∧ (∀ name, path = String "/" name → isdigits name = true →
               MAX_PTYS < read_digits 0 name → tr = []).
Proof.
  intros Hwf Hcap.
  destruct path as [|c0 name].
  { exists (-1), []. rewrite devpts_get_pty_num_root, with_trace_nil_r.
    split; [done|]. split; [by left|]. split; [by left|]. by intros name [=]. }
  destruct (decide (c0 = "/"%char ∧ name ≠ EmptyString ∧ isdigits name = true))
    as [(-> & Hne & Hd)|Hbad].
  - pose proof (devpts_get_pty_num_digits st name Hwf Hne Hd) as Hnum.
    cbv zeta in Hnum.
    pose proof (read_digits_nonneg name 0 ltac:(lia)) as Hnn.
    pose proof (Hcap name eq_refl Hd) as Hcap'.
    destruct (decide (MAX_PTYS < read_digits 0 name)) as [Hbig|Hsmall].
    { exists _ENOENT, []. rewrite Hnum, with_trace_nil_r.
      split; [done|]. split; [|split; [by left|done]].
      right. left. split; [done|]. split; [done|].
      intros name' [= <-] _ _. apply pty_presentb_beyond.
      unfold ttys_wf in Hwf. rewrite Hwf. lia. }
    destruct (decide (read_digits 0 name = MAX_PTYS)); [done|].
    eexists _, _. split; [exact Hnum|].
    split; [|split].
    + destruct (slave_ttys st !! Z.to_nat (read_digits 0 name))
        as [[a|]|] eqn:Hslot.
      * right. right. split; [lia|]. split.
        { unfold pty_presentb.
          destruct (decide (0 <= read_digits 0 name)); [|lia].
          by rewrite Hslot. }
        exists name. done.
      * right. left. split; [done|]. split; [done|].
        intros name' [= <-] _ _. unfold pty_presentb.
        destruct (decide (0 <= read_digits 0 name)); [|done].
        by rewrite Hslot.
      * right. left. split; [done|]. split; [done|].
        intros name' [= <-] _ _. unfold pty_presentb.
        destruct (decide (0 <= read_digits 0 name)); [|done].
        by rewrite Hslot.
    + right. exists (read_digits 0 name). split; [lia|done].
    + intros name' [= <-] _ Hbig. lia.
  - exists _ENOENT, []. rewrite devpts_get_pty_num_malformed, with_trace_nil_r.
    + split; [done|]. split; [|split; [by left|done]].
      right. left. split; [done|]. split; [done|].
      intros name' [= -> <-] Hne Hd. exfalso. apply Hbad. done.
    + done.
    + intros name' [= -> <-].
      destruct (decide (name = EmptyString)) as [|Hne]; [by left|]. right.
      destruct (isdigits name) eqn:Hd; [|done].
      exfalso. apply Hbad. done.
Qed.

Lemma devpts_get_pty_num_range_witness :
  ∃ n tr,
    devpts_get_pty_num "/0" st_pair
    = Ok (n, with_trace (trace st_pair ++ tr) st_pair)
    ∧ (tr = []
       ∨ ∃ v, 0 <= v < MAX_PTYS
              ∧ tr = [EvLock ttys_lock; EvSlotRead v; EvUnlock ttys_lock]).
Proof.
  destruct (devpts_get_pty_num_range st_pair "/0")
    as (n & tr & Hrun & _ & Htr & _).
  - reflexivity.
  - intros name Hname _.
    assert (name = "0"%string) as -> by (by injection Hname).
    vm_compute. discriminate.
  - exists n, tr. split; [exact Hrun|exact Htr].
Defined.

(** ** stat *)

Section StatProps.

Variable owner : addr → pty_owner.
Variable major : Z.
Variable dev_make : Z → Z → Z.

Lemma devpts_stat_num_root sb st :
  devpts_stat_num owner major dev_make (-1) sb st = Ok (root_stat sb, st).
Proof. done. Qed.

Lemma devpts_stat_num_present (n : nat) (a : addr) (t : tty) sb st :
  slave_ttys st !! n = Some (Some a) → heap st !! a = Some t →
  devpts_stat_num owner major dev_make (Z.of_nat n) sb st =
    Ok (slave_stat owner major dev_make (Z.of_nat n) a,
        with_trace (trace st ++ stat_events (Z.of_nat n) a) st).
Proof.
  intros Hslot Ha. unfold devpts_stat_num, lock, unlock.
  destruct (decide (Z.of_nat n = -1)); [lia|].
  rewrite (bind_Ok _ _ _ _ _ (emit_Ok _ _)).
  erewrite bind_Ok; [|apply ttys_read_Ok; exact Hslot]. cbv beta iota.
  erewrite bind_Ok; [|apply tty_load_Ok; exact Ha].
  rewrite !(bind_Ok _ _ _ _ _ (emit_Ok _ _)).
  unfold mret, M_ret, with_trace, slave_stat, stat_events. simpl.
  by rewrite <- !app_assoc.
Qed.

Lemma devpts_stat_num_absent (n : nat) sb st :
  slave_ttys st !! n = Some None →
  devpts_stat_num owner major dev_make (Z.of_nat n) sb st = Fault AssertFail.
Proof.
  intros Hslot. unfold devpts_stat_num, lock.
  destruct (decide (Z.of_nat n = -1)); [lia|].
  rewrite (bind_Ok _ _ _ _ _ (emit_Ok _ _)).
  erewrite bind_Ok; [|apply ttys_read_Ok; exact Hslot]. done.
Qed.

Lemma devpts_stat_num_same n sb st r st' :
  devpts_stat_num owner major dev_make n sb st = Ok (r, st') →
  same_objects st st'.
Proof.
  unfold devpts_stat_num, lock, unlock.
  destruct (decide (n = -1)).
  { intros [_ ->]%mret_inv. apply same_objects_refl. }
  intros (? & st1 & H1%emit_same & H)%bind_inv.
  apply bind_inv in H as (slot & st2 & H2%ttys_read_same & H).
  destruct slot as [a|]; [|done].
  apply bind_inv in H as (t & st3 & [-> _]%tty_load_inv & H).
  apply bind_inv in H as (? & st4 & H4%emit_same & H).
  apply bind_inv in H as (? & st5 & H5%emit_same & H).
  apply bind_inv in H as (? & st6 & H6%emit_same & [_ ->]%mret_inv).
  repeat (eapply same_objects_trans; [eassumption|]).
  apply same_objects_refl.
Qed.

Lemma devpts_stat_same path sb st r st' :
  devpts_stat owner major dev_make path sb st = Ok (r, st') →
  same_objects st st'.
Proof.
  unfold devpts_stat.
  intros (n & st1 & H1%devpts_get_pty_num_same & H)%bind_inv.
  destruct (decide (n = _ENOENT)).
  { by apply mret_inv in H as [_ ->]. }
  apply bind_inv in H as (? & st2 & H2%devpts_stat_num_same & [_ ->]%mret_inv).
  by eapply same_objects_trans.
Qed.

Lemma devpts_fstat_same fid sb st r st' :
  devpts_fstat owner major dev_make fid sb st = Ok (r, st') →
  same_objects st st'.
Proof.
  unfold devpts_fstat.
  intros (f & st1 & H1%fd_load_same & H)%bind_inv.
  apply bind_inv in H as (? & st2 & H2%devpts_stat_num_same & [_ ->]%mret_inv).
  by eapply same_objects_trans.
Qed.

End StatProps.

(** ** The slave table holds live slaves *)

Lemma table_live_same st st' :
  same_objects st st' → table_live st → table_live st'.
Proof.
  intros (Hh & _ & Ht) Hlive i a. rewrite Ht, Hh. apply Hlive.
Qed.

(** One object is rewritten, keeping its driver and its number. *)
Lemma table_live_update st (a : addr) (t t' : tty) h' :
  table_live st → heap st !! a = Some t →
  driver t' = driver t → num t' = num t →
  h' = <[a := t']> (heap st) →
  ∀ (i : nat) (b : addr),
    slave_ttys st !! i = Some (Some b) →
    ∃ x, h' !! b = Some x ∧ driver x = pty_slave ∧ num x = Z.of_nat i.
Proof.
  intros Hlive Ha Hd Hn -> i b Hslot.
  destruct (Hlive i b Hslot) as (x & Hx & Hdx & Hnx).
  destruct (decide (b = a)) as [->|Hne].
  - rewrite lookup_insert_eq. exists t'.
    assert (x = t) as -> by congruence. repeat split; congruence.
  - rewrite lookup_insert_ne by done. eauto.
Qed.

Lemma table_live_write (t : addr) buf blocking st r st' :
  table_live st → pty_write t buf blocking st = Ok (r, st') → table_live st'.
Proof.
  intros Hlive. rewrite pty_write_char.
  destruct (heap st !! t) as [x|]; [|done].
  destruct (pty_other x) as [s|]; [|done].
  destruct (heap st !! s) as [ts|] eqn:Hs; [|done].
  intros [_ <-]%Ok_inv. intros i b Hslot.
  by eapply (table_live_update st s ts (set_input (input ts ++ buf) ts)).
Qed.

Lemma table_live_ioctl (t : addr) cmd arg st r st' :
  table_live st → pty_ioctl t cmd arg st = Ok (r, st') → table_live st'.
Proof.
  intros Hlive. rewrite pty_ioctl_char.
  destruct (heap st !! t) as [x|]; [|done].
  destruct (decide (_ ∨ _)); [|by intros [_ <-]%Ok_inv].
  destruct (pty_other x) as [s|]; [|done].
  destruct (heap st !! s) as [ts|] eqn:Hs; [|done].
  destruct (decide (cmd = TIOCSPTLCK_)); [|by intros [_ <-]%Ok_inv].
  intros [_ <-]%Ok_inv. intros i b Hslot.
  by eapply (table_live_update st s ts (set_locked (negb (arg =? 0)) ts)).
Qed.

Lemma table_live_init (m : addr) st r st' :
  table_live st → pty_master_init m st = Ok (r, st') → table_live st'.
Proof.
  intros Hlive. rewrite pty_master_init_char.
  destruct (heap st !! m) as [tm|] eqn:Hm; [|done].
  destruct (decide (0 <= num tm < _)) as [Hn|]; [|done].
  intros [_ <-]%Ok_inv. intros i b. cbn [slave_ttys heap].
  pose proof (fresh_not_live st) as Hfresh.
  set (s := fresh (dom (heap st) ∪ freed st)) in *.
  destruct (decide (i = Z.to_nat (num tm))) as [->|Hi].
  - rewrite list_lookup_insert_eq by lia. intros [= <-].
    rewrite lookup_insert_eq. eexists. split; [done|]. simpl.
    split; [done|lia].
  - rewrite list_lookup_insert_ne by done. intros Hslot.
    destruct (Hlive i b Hslot) as (x & Hx & Hdx & Hnx).
    assert (b ≠ s) by congruence. rewrite lookup_insert_ne by done.
    destruct (decide (b = m)) as [->|Hbm].
    + rewrite lookup_insert_eq. eexists. split; [done|].
      assert (x = tm) as -> by congruence. done.
    + rewrite lookup_insert_ne by done. eauto.
Qed.

Lemma clear_slot_lookup n l (i : nat) (b : addr) :
  clear_slot n l !! i = Some (Some b) →
  l !! i = Some (Some b) ∧ Z.of_nat i ≠ n.
Proof.
  unfold clear_slot. destruct (decide (0 <= n)) as [Hn|Hn].
  - destruct (decide (i = Z.to_nat n)) as [->|Hi].
    + intros H. apply list_lookup_insert_Some in H as [(_ & [=] & _)|[Hne _]].
      done.
    + rewrite list_lookup_insert_ne by done. intros H. split; [done|lia].
  - intros H. split; [done|lia].
Qed.

Lemma table_live_cleanup (m : addr) st r st' :
  table_live st → pty_master_cleanup m st = Ok (r, st') → table_live st'.
Proof.
  intros Hlive. rewrite pty_master_cleanup_char.
  destruct (heap st !! m) as [tm|]; [|done].
  destruct (pty_other tm) as [s|]; [|done].
  destruct (heap st !! s) as [ts|] eqn:Hs; [|done].
  intros [_ <-]%Ok_inv.
  destruct (decide (refcount ts - 1 = 0)); intros i b; cbn [slave_ttys heap].
  - intros Hslot.
    assert (slave_ttys st !! i = Some (Some b)
            ∧ (driver ts = pty_slave → Z.of_nat i ≠ num ts)) as [Hold Hne].
    { destruct (driver ts); [done|].
      apply clear_slot_lookup in Hslot as [? ?]. done. }
    destruct (Hlive i b Hold) as (x & Hx & Hdx & Hnx).
    assert (b ≠ s).
    { intros ->. assert (x = ts) as -> by congruence. by apply Hne. }
    rewrite lookup_delete_ne by done. eauto.
  - intros Hslot.
    by eapply (table_live_update st s ts
                 (set_refcount (refcount ts - 1)
                    (set_hung_up true (set_other None ts)))).
Qed.

Lemma table_live_ptmx_open (fid : fdid) st r st' :
  ttys_wf st → table_live st → ptmx_open fid st = Ok (r, st') →
  table_live st'.
Proof.
  intros Hwf Hlive Hopen.
  destruct (first_empty_or_full st Hwf) as [(n & Hn & Hs & Hb)|Hall].
  - destruct (fds st !! fid) as [f|] eqn:Hf.
    + destruct (ptmx_open_found st fid f n Hwf Hf Hn Hs Hb)
        as (m & s & Hms & Hm & Hsl & Hmf & Hsf & Hok).
      rewrite Hok in Hopen. apply Ok_inv in Hopen as [_ <-].
      intros i b. cbn [slave_ttys heap].
      destruct (decide (i = n)) as [->|Hi].
      * rewrite list_lookup_insert_eq by (unfold ttys_wf in Hwf; lia).
        intros [= <-]. rewrite lookup_insert_ne, lookup_insert_eq by done.
        eexists. split; [done|]. done.
      * rewrite list_lookup_insert_ne by done. intros Hslot.
        destruct (Hlive i b Hslot) as (x & Hx & Hdx & Hnx).
        rewrite !lookup_insert_ne by congruence. eauto.
    + (* without the file description the call faults *)
      exfalso. revert Hopen. unfold ptmx_open, lock, unlock.
      rewrite (bind_Ok _ _ _ _ _ (emit_Ok _ _)).
      erewrite bind_Ok; cycle 1.
      { apply (ptmx_scan_found _ 0 n);
          [lia|done|done| |rewrite MAX_PTYS_eq in *; lia].
        intros j Hj. apply Hb. lia. }
      rewrite (bind_Ok _ _ _ _ _ (emit_Ok _ _)).
      destruct (decide (Z.of_nat n = MAX_PTYS)); [lia|].
      match goal with
      | |- (tty_get pty_master ?x ≫= _) ?y = _ → _ =>
          destruct (tty_get_master_run y x) as (_ & _ & _ & _ & _ & Hg);
            [simpl; unfold ttys_wf in Hwf; lia|]
      end.
      rewrite (bind_Ok _ _ _ _ _ Hg).
      unfold mbind, M_bind, fd_modify. simpl. by rewrite Hf.
  - rewrite (ptmx_open_full st fid Hwf Hall) in Hopen.
    apply Ok_inv in Hopen as [_ <-]. by apply (table_live_same st).
Qed.

(** Every operation keeps the table pointing to live slaves. *)
Lemma run_op_table_live (o : core_op) st st' :
  ttys_wf st → table_live st → run_op o st = Ok (tt, st') → table_live st'.
Proof.
  intros Hwf Hlive.
  destruct o as [t|t|t buf b|t cmd arg|t|fid|path|fid|fid]; simpl.
  - intros (x & st1 & [-> (a & [= <-] & Hx)]%tty_load_inv & H)%bind_inv.
    destruct (driver x) eqn:Hd; simpl in H;
      apply bind_inv in H as (r & st2 & H2 & [_ ->]%mret_inv).
    + by eapply table_live_init.
    + by apply mret_inv in H2 as [_ ->].
  - intros (x & st1 & [-> (a & [= <-] & Hx)]%tty_load_inv & H)%bind_inv.
    destruct (driver x) eqn:Hd; simpl in H;
      apply bind_inv in H as (r & st2 & H2 & [_ ->]%mret_inv).
    + by apply mret_inv in H2 as [_ ->].
    + by apply pty_slave_open_same in H2 as ->.
  - intros (x & st1 & [-> (a & [= <-] & Hx)]%tty_load_inv & H)%bind_inv.
    destruct (driver x) eqn:Hd; simpl in H;
      apply bind_inv in H as (r & st2 & H2 & [_ ->]%mret_inv);
      by eapply table_live_write.
  - intros (x & st1 & [-> (a & [= <-] & Hx)]%tty_load_inv & H)%bind_inv.
    destruct (driver x) eqn:Hd; simpl in H.
    + apply bind_inv in H as (r & st2 & H2 & [_ ->]%mret_inv).
      by eapply table_live_ioctl.
    + by apply mret_inv in H as [_ ->].
  - intros (x & st1 & [-> (a & [= <-] & Hx)]%tty_load_inv & H)%bind_inv.
    destruct (driver x) eqn:Hd; simpl in H.
    + by eapply table_live_cleanup.
    + by apply mret_inv in H as [_ ->].
  - intros (r & st1 & H1 & [_ ->]%mret_inv)%bind_inv.
    by eapply table_live_ptmx_open.
  - intros (r & st1 & H1 & [_ ->]%mret_inv)%bind_inv.
    apply (table_live_same st); [by eapply devpts_open_same|done].
  - intros (r & st1 & H1 & [_ ->]%mret_inv)%bind_inv.
    apply (table_live_same st); [by eapply devpts_getpath_same|done].
  - intros (r & st1 & H1 & [_ ->]%mret_inv)%bind_inv.
    apply (table_live_same st); [by eapply devpts_readdir_same|done].
Qed.

Lemma initial_invariants st :
  initial st → ttys_wf st ∧ pair_inv st ∧ table_live st.
Proof.
  intros [Hh Ht]. split; [|split; [split|]].
  - unfold ttys_wf. by rewrite Ht, length_replicate.
  - intros a t x Ha. by rewrite Hh, lookup_empty in Ha.
  - intros a t x tx Ha. by rewrite Hh, lookup_empty in Ha.
  - intros i a. rewrite Ht. intros [[=] _]%lookup_replicate_1.
Qed.

(** X3: in every state the core reaches from a system without terminal
    objects, the slave table has [MAX_PTYS] slots, every slot that is
    taken holds a live object of the slave driver whose number is the
    slot's index, the link of a live master never points to a live master,
    and every link points to an address that is or once was live. *)
Theorem reachable_invariants (st : kstate) :
  reachable st → ttys_wf st ∧ pair_inv st ∧ table_live st.
Proof.
  induction 1 as [st Hinit|o st st' Hreach (Hwf & [Hlc Hml] & Hlive) Hrun].
  - by apply initial_invariants.
  - destruct (run_op_effect o st st' Hwf Hrun) as [Heff Hlen].
    split; [unfold ttys_wf in *; congruence|]. split.
    + split; [by eapply heap_effect_links_closed
             |by eapply heap_effect_master_links].
    + by eapply run_op_table_live.
Qed.

Lemma st_one_pair_reachable : reachable st_one_pair.
Proof.
  apply (reach_step (OpPtmxOpen 1%positive) st_empty).
  - apply reach_initial. split; reflexivity.
  - vm_compute. reflexivity.
Qed.

Lemma reachable_invariants_witness :
  ttys_wf st_one_pair ∧ pair_inv st_one_pair ∧ table_live st_one_pair.
Proof. apply (reachable_invariants st_one_pair), st_one_pair_reachable. Defined.

(** ** stat, open and readdir against each other *)

Lemma pty_presentb_true st n :
  pty_presentb st n = true ↔
  0 <= n ∧ ∃ a, slave_ttys st !! Z.to_nat n = Some (Some a).
Proof.
  unfold pty_presentb. destruct (decide (0 <= n)) as [Hn|Hn].
  - destruct (slave_ttys st !! Z.to_nat n) as [[a|]|].
    + split; [|done]. intros _. split; [done|]. by exists a.
    + split; [done|]. by intros [_ [? [=]]].
    + split; [done|]. by intros [_ [? [=]]].
  - split; [done|]. intros [? _]. lia.
Qed.

Lemma pty_presentb_same st st' n :
  same_objects st st' → pty_presentb st' n = pty_presentb st n.
Proof. intros (_ & _ & Ht). unfold pty_presentb. by rewrite Ht. Qed.

(** A root handle's [devpts_readdir] that yields an entry yields the entry
    of a number in the table. *)
Lemma devpts_readdir_entry st fid f e st1 :
  ttys_wf st → fds st !! fid = Some f →
  INT_MIN < offset f <= INT_MAX →
  devpts_readdir fid st = Ok ((1, Some e), st1) →
  ∃ n, e = entry_of n ∧ offset f <= n < MAX_PTYS ∧ 0 <= n
       ∧ pty_presentb st n = true ∧ same_objects st st1.
Proof.
  intros Hwf Hf Hoff Hrun.
  pose proof (devpts_readdir_same _ _ _ _ Hrun) as Hsame.
  assert (Hroot : pty_num f = -1).
  { revert Hrun. unfold devpts_readdir.
    rewrite (bind_Ok _ _ _ _ _ (fd_load_Ok _ _ _ Hf)).
    by destruct (decide (pty_num f = -1)). }
  destruct (first_present_or_none st (Z.to_nat (MAX_PTYS - offset f)) (offset f))
    as [(n & Hn & Hp & Habs)|Hnone].
  - rewrite (devpts_readdir_found st fid f n) in Hrun by (done || lia).
    apply Ok_inv in Hrun as [[= <-] _]. exists n.
    split; [done|]. split; [lia|].
    split; [apply pty_presentb_true in Hp; lia|]. done.
  - rewrite (devpts_readdir_none st fid f) in Hrun; [done..|].
    intros i Hi. apply Hnone. lia.
Qed.

Section StatTheorems.

Variable owner : addr → pty_owner.
Variable major : Z.
Variable dev_make : Z → Z → Z.

Local Abbreviation stat_num := (devpts_stat_num owner major dev_make).
Local Abbreviation stat := (devpts_stat owner major dev_make).
Local Abbreviation fstat := (devpts_fstat owner major dev_make).
Local Abbreviation sstat := (slave_stat owner major dev_make).

(** [devpts_stat] after resolution. *)
Lemma devpts_stat_run st path sb n st1 :
  ttys_wf st → table_live st →
  devpts_get_pty_num path st = Ok (n, st1) →
  (n = _ENOENT ∧ stat path sb st = Ok ((_ENOENT, sb), st1))
  ∨ (n = -1 ∧ path = EmptyString
     ∧ stat path sb st = Ok ((0, root_stat sb), st1))
  ∨ (0 <= n < MAX_PTYS
     ∧ ∃ (a : addr) (t : tty),
         slave_ttys st !! Z.to_nat n = Some (Some a)
         ∧ heap st !! a = Some t
         ∧ stat path sb st =
             Ok ((0, sstat n a),
                 with_trace (trace st1 ++ stat_events n a) st1)).
Proof.
  intros Hwf Hlive Hnum.
  destruct (devpts_get_pty_num_cases st path n st1 Hwf Hnum)
    as [Hsame [[-> ->]|[->|(Hn & Hp & _)]]].
  - right. left. split; [done|]. split; [done|]. unfold devpts_stat.
    rewrite (bind_Ok _ _ _ _ _ Hnum).
    destruct (decide (-1 = _ENOENT)); [done|].
    by rewrite (bind_Ok _ _ _ _ _ (devpts_stat_num_root _ _ _ _ _)).
  - left. split; [done|]. unfold devpts_stat.
    rewrite (bind_Ok _ _ _ _ _ Hnum).
    by destruct (decide (_ENOENT = _ENOENT)).
  - right. right. split; [done|].
    apply pty_presentb_true in Hp as [_ [a Ha]].
    destruct (Hlive _ _ Ha) as (t & Ht & _).
    exists a, t. split; [done|]. split; [done|]. unfold devpts_stat.
    rewrite (bind_Ok _ _ _ _ _ Hnum).
    destruct (decide (n = _ENOENT)); [unfold _ENOENT in *; lia|].
    destruct Hsame as (Hh & _ & Htbl).
    pose proof (devpts_stat_num_present owner major dev_make
                  (Z.to_nat n) a t sb st1) as Hrun.
    rewrite Z2Nat.id in Hrun by lia.
    rewrite (bind_Ok _ _ _ _ _ (Hrun ltac:(by rewrite Htbl)
                                     ltac:(by rewrite Hh))).
    done.
Qed.

(** X4: where the table holds live slaves, [devpts_stat] returns whenever
    resolution of the path returns, without tripping its assertion: it
    gives [_ENOENT] and leaves the buffer alone when resolution does, a
    directory with mode 0755 and inode 1 for the empty path, and for
    pair [n] a character device with the slave's permissions, owner and
    group, inode [n + 3] and device number [dev_make(major, n)], taking
    the table lock and inside it the slave's lock. *)
Theorem devpts_stat_spec (st : kstate) (path : string) (sb : statbuf)
    (n : Z) (st1 : kstate) :
  ttys_wf st → table_live st →
  devpts_get_pty_num path st = Ok (n, st1) →
  (n = _ENOENT ∧ stat path sb st = Ok ((_ENOENT, sb), st1))
  ∨ (n = -1 ∧ path = EmptyString
     ∧ stat path sb st = Ok ((0, root_stat sb), st1))
  ∨ (0 <= n < MAX_PTYS
     ∧ ∃ (a : addr) (t : tty),
         slave_ttys st !! Z.to_nat n = Some (Some a)
         ∧ heap st !! a = Some t
         ∧ stat path sb st =
             Ok ((0, sstat n a),
                 with_trace (trace st1 ++ stat_events n a) st1)).
Proof. apply devpts_stat_run. Qed.

(** X5: where the table holds live slaves, [devpts_stat] and
    [devpts_open] accept the same paths: one succeeds exactly when the
    other does, one answers [_ENOENT] exactly when the other does, and
    one faults exactly when the other does. *)
Theorem devpts_stat_open_agree (st : kstate) (path : string) (sb : statbuf) :
  ttys_wf st → table_live st →
  ((∃ fid st', devpts_open path st = Ok (Ptr fid, st'))
   ↔ (∃ sb' st', stat path sb st = Ok ((0, sb'), st')))
  ∧ ((∃ st', devpts_open path st = Ok (ErrPtr _ENOENT, st'))
     ↔ (∃ st', stat path sb st = Ok ((_ENOENT, sb), st')))
  ∧ (∀ e, devpts_open path st = Fault e ↔ stat path sb st = Fault e).
Proof.
  intros Hwf Hlive.
  destruct (devpts_get_pty_num path st) as [[n st1]|e] eqn:Hnum.
  - rewrite (devpts_open_run st path n st1 Hnum).
    destruct (devpts_stat_run st path sb n st1 Hwf Hlive Hnum)
      as [[-> ->]|[(-> & _ & ->)|(Hn & a & t & _ & _ & ->)]].
    + destruct (decide (_ENOENT = _ENOENT)); [|done].
      unfold _ENOENT. naive_solver.
    + destruct (decide (-1 = _ENOENT)); [done|].
      unfold _ENOENT. naive_solver.
    + destruct (decide (n = _ENOENT)); [unfold _ENOENT in *; lia|].
      unfold _ENOENT. naive_solver.
  - unfold devpts_open, devpts_stat. rewrite !(bind_Fault _ _ _ _ Hnum).
    naive_solver.
Qed.

(** X6: where the table holds live slaves, [devpts_fstat] on the handle
    that [devpts_open] produced for a path reports what [devpts_stat]
    reports for the path. *)
Theorem devpts_fstat_after_open (st : kstate) (path : string) (fid : fdid)
    (st1 : kstate) (sb : statbuf) :
  ttys_wf st → table_live st →
  devpts_open path st = Ok (Ptr fid, st1) →
  ∃ sb' st2 st3,
    stat path sb st = Ok ((0, sb'), st2)
    ∧ fstat fid sb st1 = Ok ((0, sb'), st3).
Proof.
  intros Hwf Hlive Hopen.
  pose proof (devpts_open_same _ _ _ _ Hopen) as (Hh & _ & Htbl).
  destruct (devpts_open_inv st path fid st1 Hwf Hopen)
    as (n & Hfd & _ & Hcases).
  destruct (devpts_get_pty_num path st) as [[n' st0]|e] eqn:Hnum; cycle 1.
  { unfold devpts_open in Hopen. by rewrite (bind_Fault _ _ _ _ Hnum) in Hopen. }
  assert (n' = n) as ->.
  { rewrite (devpts_open_run st path n' st0 Hnum) in Hopen.
    destruct (decide (n' = _ENOENT)); [done|].
    apply Ok_inv in Hopen as [[= <-] <-]. simpl in Hfd.
    rewrite lookup_insert_eq in Hfd. by injection Hfd. }
  unfold devpts_fstat. rewrite (bind_Ok _ _ _ _ _ (fd_load_Ok _ _ _ Hfd)).
  simpl pty_num.
  destruct (devpts_stat_run st path sb n st0 Hwf Hlive Hnum)
    as [[-> _]|[(-> & _ & Hst)|(Hn & a & t & Ha & Ht & Hst)]].
  - destruct Hcases as [[_ [=]]|(name & _ & _ & _ & _ & Hr & _)].
    unfold _ENOENT in Hr. lia.
  - eexists _, _, _. split; [exact Hst|].
    by rewrite (bind_Ok _ _ _ _ _ (devpts_stat_num_root _ _ _ _ _)).
  - eexists _, _, _. split; [exact Hst|].
    pose proof (devpts_stat_num_present owner major dev_make
                  (Z.to_nat n) a t sb st1) as Hrun.
    rewrite Z2Nat.id in Hrun by lia.
    rewrite (bind_Ok _ _ _ _ _ (Hrun ltac:(by rewrite Htbl)
                                     ltac:(by rewrite Hh))).
    done.
Qed.

(** X7: where the table holds live slaves, the entry a root handle's
    [devpts_readdir] yields names a path that [devpts_stat] accepts, and
    the inode the entry carries is the inode stat reports for that path;
    it is never the root's inode. *)
Theorem devpts_readdir_stat_inode (st : kstate) (fid : fdid) (f : fd)
    (e : dir_entry) (st1 : kstate) (sb : statbuf) :
  ttys_wf st → table_live st → fds st !! fid = Some f →
  INT_MIN < offset f <= INT_MAX →
  devpts_readdir fid st = Ok ((1, Some e), st1) →
  ∃ sb' st2,
    stat (String "/" (name e)) sb st1 = Ok ((0, sb'), st2)
    ∧ stat_inode sb' = inode e
    ∧ inode e ≠ stat_inode (root_stat sb).
Proof.
  intros Hwf Hlive Hf Hoff Hrun.
  destruct (devpts_readdir_entry st fid f e st1 Hwf Hf Hoff Hrun)
    as (n & -> & Hn & Hn0 & Hp & Hsame).
  assert (Hwf1 : ttys_wf st1).
  { destruct Hsame as (_ & _ & Ht). unfold ttys_wf in *. by rewrite Ht. }
  assert (Hlive1 : table_live st1) by by apply (table_live_same st).
  destruct (sprintf_d_digits n Hn0) as (Hne & Hd & Hv).
  pose proof (devpts_get_pty_num_digits st1 _ Hwf1 Hne Hd) as Hnum.
  cbv zeta in Hnum. rewrite Hv in Hnum.
  destruct (decide (MAX_PTYS < n)); [lia|].
  destruct (decide (n = MAX_PTYS)); [lia|].
  rewrite <- (pty_presentb_same st st1 n Hsame) in Hp.
  apply pty_presentb_true in Hp as [_ [a Ha]]. rewrite Ha in Hnum.
  simpl name.
  destruct (devpts_stat_run st1 _ sb n _ Hwf1 Hlive1 Hnum)
    as [[E _]|[(E & _)|(_ & a' & t & _ & _ & Hst)]];
    [unfold _ENOENT in E; lia|lia|].
  eexists _, _. split; [exact Hst|]. simpl. split; [done|lia].
Qed.

(** X8: a handle keeps its pair number, and [devpts_fstat] does not check
    it again: once the slot of that number is empty, the assertion in
    [devpts_stat_num] fails. *)
Theorem devpts_fstat_stale (st : kstate) (fid : fdid) (f : fd)
    (sb : statbuf) :
  fds st !! fid = Some f → 0 <= pty_num f →
  slave_ttys st !! Z.to_nat (pty_num f) = Some None →
  fstat fid sb st = Fault AssertFail.
Proof.
  intros Hf Hn Hslot. unfold devpts_fstat.
  rewrite (bind_Ok _ _ _ _ _ (fd_load_Ok _ _ _ Hf)).
  apply bind_Fault.
  pose proof (devpts_stat_num_absent owner major dev_make
                (Z.to_nat (pty_num f)) sb st Hslot) as H.
  by rewrite Z2Nat.id in H by lia.
Qed.

End StatTheorems.

Lemma st_pair_table_live : table_live st_pair.
Proof.
  intros i a. unfold st_pair. cbn [slave_ttys heap].
  destruct (decide (i = 0%nat)) as [->|Hi].
  - intros [= <-]. exists example_slave. by repeat split.
  - rewrite list_lookup_insert_ne by done.
    intros [[=] _]%lookup_replicate_1.
Qed.

Lemma devpts_stat_spec_witness :
  ∃ st',
    devpts_stat example_owner 136 example_dev_make "/0" example_statbuf st_pair
    = Ok ((0, mk_statbuf 8592 0 5 3 34816), st').
Proof.
  assert (Hnum : devpts_get_pty_num "/0" st_pair
                 = Ok (0, exec (devpts_get_pty_num "/0") st_pair))
    by (vm_compute; reflexivity).
  destruct (devpts_stat_spec example_owner 136 example_dev_make st_pair "/0"
              example_statbuf 0 _ ltac:(reflexivity) st_pair_table_live Hnum)
    as [[E _]|[[E _]|(_ & a & t & Ha & _ & Hst)]].
  - discriminate E.
  - discriminate E.
  - injection Ha as <-. eexists. exact Hst.
Defined.

Lemma devpts_stat_open_agree_witness :
  ∃ sb' st',
    devpts_stat example_owner 136 example_dev_make "/0" example_statbuf st_pair
    = Ok ((0, sb'), st').
Proof.
  apply (devpts_stat_open_agree example_owner 136 example_dev_make st_pair "/0"
           example_statbuf ltac:(reflexivity) st_pair_table_live).
  exists 3%positive, st_pair_open_0. vm_compute. reflexivity.
Defined.

Lemma devpts_fstat_after_open_witness :
  ∃ sb' st2 st3,
    devpts_stat example_owner 136 example_dev_make "/0" example_statbuf st_pair
    = Ok ((0, sb'), st2)
    ∧ devpts_fstat example_owner 136 example_dev_make 3%positive
        example_statbuf st_pair_open_0 = Ok ((0, sb'), st3).
Proof.
  apply (devpts_fstat_after_open example_owner 136 example_dev_make st_pair
           "/0" 3%positive st_pair_open_0 example_statbuf).
  - reflexivity.
  - exact st_pair_table_live.
  - vm_compute. reflexivity.
Defined.

Lemma devpts_readdir_stat_inode_witness :
  ∃ sb' st2,
    devpts_stat example_owner 136 example_dev_make "/0" example_statbuf
      (exec (devpts_readdir 2%positive) st_pair) = Ok ((0, sb'), st2)
    ∧ stat_inode sb' = 3.
Proof.
  destruct (devpts_readdir_stat_inode example_owner 136 example_dev_make
              st_pair 2%positive (mk_fd None (-1) 0) (entry_of 0)
              (exec (devpts_readdir 2%positive) st_pair) example_statbuf)
    as (sb' & st2 & Hst & Hino & _).
  - reflexivity.
  - exact st_pair_table_live.
  - reflexivity.
  - simpl. unfold INT_MIN, INT_MAX. lia.
  - vm_compute. reflexivity.
  - exists sb', st2. split; [exact Hst|exact Hino].
Defined.

Lemma devpts_fstat_stale_witness :
  devpts_fstat example_owner 136 example_dev_make 1%positive example_statbuf
    st_empty = Fault AssertFail.
Proof.
  apply (devpts_fstat_stale example_owner 136 example_dev_make st_empty
           1%positive (mk_fd None 0 0)).
  - reflexivity.
  - simpl. lia.
  - reflexivity.
Defined.

(** ** The driver hooks: what they change and when they are defined *)

(** X9: whatever the request and the argument, a [pty_ioctl] that returns
    has changed nothing but the [pty.locked] flag of the object the link
    points to: table, file descriptions and trace are the same, no object
    appears or disappears, and every object keeps all its other fields. *)
Theorem pty_ioctl_frame (st : kstate) (t : addr) (cmd arg : Z) (r : Z * Z)
    (st' : kstate) :
  pty_ioctl t cmd arg st = Ok (r, st') →
  freed st' = freed st ∧ slave_ttys st' = slave_ttys st
  ∧ fds st' = fds st ∧ trace st' = trace st
  ∧ (∀ a, heap st' !! a = None ↔ heap st !! a = None)
  ∧ (∀ a x', heap st' !! a = Some x' →
       ∃ x, heap st !! a = Some x ∧ x' = set_locked (pty_locked x') x
            ∧ (pty_locked x' ≠ pty_locked x →
               cmd = TIOCSPTLCK_
               ∧ ∃ y, heap st !! t = Some y ∧ pty_other y = Some a)).
Proof.
  rewrite pty_ioctl_char.
  assert (Hid : freed st = freed st ∧ slave_ttys st = slave_ttys st
    ∧ fds st = fds st ∧ trace st = trace st
    ∧ (∀ a, heap st !! a = None ↔ heap st !! a = None)
    ∧ (∀ a x', heap st !! a = Some x' →
         ∃ x, heap st !! a = Some x ∧ x' = set_locked (pty_locked x') x
              ∧ (pty_locked x' ≠ pty_locked x →
                 cmd = TIOCSPTLCK_
                 ∧ ∃ y, heap st !! t = Some y ∧ pty_other y = Some a))).
  { do 4 (split; [done|]). split; [done|]. intros a x' Hx. exists x'.
    split; [done|]. split; [by destruct x'|done]. }
  destruct (heap st !! t) as [y|] eqn:Ht; [|done].
  destruct (decide (_ ∨ _)); [|by intros [_ <-]%Ok_inv].
  destruct (pty_other y) as [s|] eqn:Ho; [|done].
  destruct (heap st !! s) as [ts|] eqn:Hs; [|done].
  destruct (decide (cmd = TIOCSPTLCK_)) as [->|]; [|by intros [_ <-]%Ok_inv].
  intros [_ <-]%Ok_inv. cbn [heap freed slave_ttys fds trace with_heap].
  do 4 (split; [done|]). split.
  - intros a. destruct (decide (a = s)) as [->|Hne].
    + rewrite lookup_insert_eq, Hs. done.
    + by rewrite lookup_insert_ne.
  - intros a x'. destruct (decide (a = s)) as [->|Hne].
    + rewrite lookup_insert_eq. intros [= <-]. exists ts.
      split; [done|]. split; [done|]. intros _. split; [done|]. eauto.
    + rewrite lookup_insert_ne by done. intros Hx. exists x'.
      split; [done|]. split; [by destruct x'|done].
Qed.

Lemma pty_ioctl_frame_witness :
  ∃ st', pty_ioctl 1%positive TIOCSPTLCK_ 1 st_pair = Ok ((0, 1), st')
         ∧ slave_ttys st' = slave_ttys st_pair ∧ trace st' = trace st_pair.
Proof.
  assert (H : pty_ioctl 1%positive TIOCSPTLCK_ 1 st_pair
              = Ok ((0, 1), exec (pty_ioctl 1%positive TIOCSPTLCK_ 1) st_pair))
    by (vm_compute; reflexivity).
  destruct (pty_ioctl_frame _ _ _ _ _ _ H) as (_ & Ht & _ & Htr & _).
  eexists. split; [exact H|]. split; [exact Ht|exact Htr].
Defined.

(** X10: [pty_write] is a pure forwarder.  It is the body of pty.c:55-57
    at the input primitive, and for every input primitive that body, on
    a terminal whose link is [s], gives exactly the result and the state
    of the primitive called on [s] with the caller's bytes and blocking
    flag: whatever the primitive returns is what the write returns.  With
    the input primitive as modelled, the bytes arrive on the queue of
    [s], the terminal written to keeps its own queue and every other
    field, and a second write arrives behind the first. *)
Theorem pty_write_forward (st : kstate) (t : addr) (x : tty) (s : addr)
    (ts : tty) (b1 b2 : list ascii) (bl1 bl2 : bool) :
  heap st !! t = Some x → pty_other x = Some s → heap st !! s = Some ts →
  t ≠ s →
  pty_write = pty_write_with tty_input
  ∧ (∀ (input_prim : option addr → list ascii → bool → M Z)
       (buf : list ascii) (bl : bool),
       pty_write_with input_prim t buf bl st = input_prim (Some s) buf bl st)
  ∧ ∃ st1 st2,
      pty_write t b1 bl1 st = Ok (0, st1)
      ∧ pty_write t b2 bl2 st1 = Ok (0, st2)
      ∧ trace st1 = trace st ++ [EvInput s b1 bl1]
      ∧ trace st2 = trace st ++ [EvInput s b1 bl1; EvInput s b2 bl2]
      ∧ heap st1 !! s = Some (set_input (input ts ++ b1) ts)
      ∧ heap st2 !! s = Some (set_input (input ts ++ b1 ++ b2) ts)
      ∧ heap st2 !! t = Some x
      ∧ (∀ a, a ≠ s → heap st2 !! a = heap st !! a)
      ∧ slave_ttys st2 = slave_ttys st ∧ fds st2 = fds st.
Proof.
  intros Ht Ho Hs Hne.
  split; [reflexivity|]. split.
  { intros input_prim buf bl. unfold pty_write_with.
    rewrite (bind_Ok _ _ _ _ _ (tty_load_Ok _ _ _ Ht)). by rewrite Ho. }
  eexists _, _. split.
  { rewrite pty_write_char, Ht, Ho, Hs. reflexivity. }
  split.
  { rewrite pty_write_char. cbn [heap with_heap with_trace].
    rewrite lookup_insert_ne, Ht, Ho, lookup_insert_eq by done. reflexivity. }
  cbn [heap trace slave_ttys fds with_heap with_trace].
  split; [done|]. split; [by rewrite <- app_assoc|].
  split; [by rewrite lookup_insert_eq|].
  split. { rewrite lookup_insert_eq. simpl. by rewrite <- app_assoc. }
  split. { by rewrite !lookup_insert_ne. }
  split; [|done]. intros a Ha. by rewrite !lookup_insert_ne.
Qed.

Lemma pty_write_forward_witness :
  pty_write_with (λ _ _ _, mret 7) 1%positive ["h"%char] true st_pair
  = Ok (7, st_pair)
  ∧ ∃ st1 st2,
      pty_write 1%positive ["h"%char] true st_pair = Ok (0, st1)
      ∧ pty_write 1%positive ["i"%char] false st1 = Ok (0, st2)
      ∧ input <$> (heap st2 !! 2%positive) = Some ["h"%char; "i"%char].
Proof.
  destruct (pty_write_forward st_pair 1%positive example_master 2%positive
              example_slave ["h"%char] ["i"%char] true false)
    as (_ & Hprim & st1 & st2 & H1 & H2 & _ & _ & _ & Hs & _).
  - reflexivity.
  - reflexivity.
  - reflexivity.
  - done.
  - split.
    + rewrite Hprim. reflexivity.
    + exists st1, st2. split; [exact H1|]. split; [exact H2|].
      rewrite Hs. reflexivity.
Defined.

(** X11: [pty_master_init] never returns an error code: it returns 0
    exactly when the terminal object is live and its number indexes the
    slave table, and in every other case the call is undefined (a stale
    object, or a store outside the table). *)
Theorem pty_master_init_defined (st : kstate) (m : addr) :
  ((∃ r st', pty_master_init m st = Ok (r, st'))
   ↔ ∃ tm, heap st !! m = Some tm
           ∧ 0 <= num tm < Z.of_nat (length (slave_ttys st)))
  ∧ (∀ r st', pty_master_init m st = Ok (r, st') → r = 0)
  ∧ (∀ tm, heap st !! m = Some tm →
           ¬ (0 <= num tm < Z.of_nat (length (slave_ttys st))) →
           pty_master_init m st = Fault (OutOfBounds (num tm))).
Proof.
  rewrite pty_master_init_char.
  destruct (heap st !! m) as [tm|] eqn:Hm.
  - destruct (decide (0 <= num tm < _)) as [Hn|Hn].
    + split; [|split].
      * split; [eauto|]. intros _. eauto.
      * by intros r st' [<- _]%Ok_inv.
      * by intros tm' [= <-] Hn'.
    + split; [|split].
      * split; [by intros (? & ? & [=])|]. intros (tm' & [= <-] & Hn'). done.
      * by intros r st' [=].
      * intros tm' [= <-] _. done.
  - split; [|split].
    + split; [by intros (? & ? & [=])|]. by intros (tm' & [=] & _).
    + by intros r st' [=].
    + by intros tm' [=].
Qed.

(** X12: [pty_master_cleanup] writes to the slave only: the master object,
    with its link still pointing to the slave, and every other object are
    as before, and so are the file descriptions. *)
Theorem pty_master_cleanup_frame (st : kstate) (m : addr) (tm : tty)
    (s : addr) (st' : kstate) :
  heap st !! m = Some tm → pty_other tm = Some s → m ≠ s →
  pty_master_cleanup m st = Ok (tt, st') →
  heap st' !! m = Some tm
  ∧ (∀ a, a ≠ s → heap st' !! a = heap st !! a)
  ∧ fds st' = fds st.
Proof.
  intros Hm Ho Hne. rewrite pty_master_cleanup_char, Hm, Ho.
  destruct (heap st !! s) as [ts|]; [|done].
  intros [_ <-]%Ok_inv.
  destruct (decide (refcount ts - 1 = 0)); cbn [heap fds].
  - split; [by rewrite lookup_delete_ne|]. split; [|done].
    intros a Ha. by rewrite lookup_delete_ne.
  - split; [by rewrite lookup_insert_ne|]. split; [|done].
    intros a Ha. by rewrite lookup_insert_ne.
Qed.

Lemma pty_master_cleanup_frame_witness :
  heap st_pair_cleaned !! 1%positive = Some example_master.
Proof.
  destruct (pty_master_cleanup_frame st_pair 1%positive example_master
              2%positive st_pair_cleaned) as [H _].
  - reflexivity.
  - reflexivity.
  - discriminate.
  - vm_compute. reflexivity.
  - exact H.
Defined.

(** X13: the slave's lock follows the master's last set-lock request: right
    after [pty_master_init] the slave cannot be opened, and after a
    set-lock request on a master whose slave is linked back, the slave's
    open returns 0 exactly when the argument was 0. *)
Theorem slave_lock_gating (st : kstate) (m : addr) (tm : tty) :
  heap st !! m = Some tm →
  (∀ st1, pty_master_init m st = Ok (0, st1) →
     ∃ s, pty_other <$> (heap st1 !! m) = Some (Some s)
          ∧ pty_slave_open s st1 = Ok (_EIO, st1))
  ∧ (∀ (s : addr) (ts : tty) (arg : Z),
       pty_other tm = Some s → heap st !! s = Some ts →
       pty_other ts ≠ None →
       ∃ st2, pty_ioctl m TIOCSPTLCK_ arg st = Ok ((0, arg), st2)
              ∧ pty_slave_open s st2
                = Ok ((if arg =? 0 then 0 else _EIO), st2)).
Proof.
  intros Hm. split.
  - intros st1. rewrite pty_master_init_char, Hm.
    destruct (decide (0 <= num tm < _)); [|done].
    intros [_ <-]%Ok_inv. cbn [heap].
    pose proof (fresh_not_live st) as Hfresh.
    set (s := fresh (dom (heap st) ∪ freed st)) in *.
    assert (s ≠ m) by congruence.
    exists s. split.
    { by rewrite lookup_insert_ne, lookup_insert_eq. }
    unfold pty_slave_open. erewrite bind_Ok; cycle 1.
    { apply tty_load_Ok. cbn [heap]. apply lookup_insert_eq. }
    done.
  - intros s ts arg Ho Hs Hlink.
    rewrite pty_ioctl_char, Hm, Ho, Hs.
    destruct (decide (_ ∨ _)) as [_|H]; [|exfalso; auto].
    destruct (decide (TIOCSPTLCK_ = TIOCSPTLCK_)); [|done].
    eexists. split; [done|].
    unfold pty_slave_open. erewrite bind_Ok; cycle 1.
    { apply tty_load_Ok. cbn [heap with_heap]. apply lookup_insert_eq. }
    simpl. destruct (decide (pty_other ts = None)); [done|].
    by destruct (arg =? 0).
Qed.

Lemma slave_lock_gating_witness :
  ∃ st2, pty_ioctl 1%positive TIOCSPTLCK_ 1 st_pair = Ok ((0, 1), st2)
         ∧ pty_slave_open 2%positive st2 = Ok (_EIO, st2).
Proof.
  destruct (slave_lock_gating st_pair 1%positive example_master) as [_ H].
  - reflexivity.
  - destruct (H 2%positive example_slave 1) as (st2 & H1 & H2).
    + reflexivity.
    + reflexivity.
    + done.
    + exists st2. split; [exact H1|exact H2].
Defined.

Lemma pty_master_init_defined_witness :
  ∃ r st', pty_master_init 1%positive st_new_master = Ok (r, st').
Proof.
  apply (proj1 (pty_master_init_defined st_new_master 1%positive)).
  exists (mk_tty pty_master 0 0 None false false [] []).
  split; [reflexivity|]. simpl. lia.
Defined.

(** ** readdir stays inside the table *)

Lemma readdir_events_reads c len ev i :
  In ev (readdir_events c len) → ev = EvSlotRead i →
  0 <= i ∧ c <= i < c + len.
Proof.
  unfold readdir_events. intros Hin ->.
  apply in_concat in Hin as (l & Hl & Hin).
  apply list_elem_of_In, list_elem_of_fmap in Hl as (j & -> & Hj).
  apply elem_of_seqZ in Hj. unfold probe_events in Hin.
  destruct (decide (j < 0)); [done|].
  simpl in Hin. destruct Hin as [[=]|[[= <-]|[[=]|[]]]]. lia.
Qed.

(** X14: on a root handle whose cursor is an [int], [devpts_readdir] always
    returns, with 0 and no entry or with 1 and the entry of a number in
    the table at or after the cursor; it changes nothing but the trace,
    and every slot of the slave table it reads has an index in
    [0, MAX_PTYS) at or after the cursor, and the only other events it adds are the
    taking and the release of the table lock. *)
Theorem devpts_readdir_total (st : kstate) (fid : fdid) (f : fd) :
  ttys_wf st → fds st !! fid = Some f → pty_num f = -1 →
  INT_MIN < offset f <= INT_MAX →
  ∃ r tr,
    devpts_readdir fid st = Ok (r, with_trace (trace st ++ tr) st)
    ∧ (r = (0, None)
       ∨ ∃ n, r = (1, Some (entry_of n)) ∧ offset f <= n < MAX_PTYS
              ∧ pty_presentb st n = true)
    ∧ (∀ ev i, In ev tr → ev = EvSlotRead i →
               0 <= i < MAX_PTYS ∧ offset f <= i)
    ∧ (∀ ev, In ev tr →
             ev = EvLock ttys_lock ∨ ev = EvUnlock ttys_lock
             ∨ ∃ i, ev = EvSlotRead i).
Proof.
  intros Hwf Hf Hroot Hoff.
  assert (Hshape : ∀ c len ev, In ev (readdir_events c len) →
            ev = EvLock ttys_lock ∨ ev = EvUnlock ttys_lock
            ∨ ∃ i, ev = EvSlotRead i).
  { intros c len ev. unfold readdir_events. intros Hin.
    apply in_concat in Hin as (l & Hl & Hin).
    apply list_elem_of_In, list_elem_of_fmap in Hl as (j & -> & Hj).
    unfold probe_events in Hin. destruct (decide (j < 0)); [done|].
    simpl in Hin. destruct Hin as [<-|[<-|[<-|[]]]]; eauto. }
  destruct (first_present_or_none st (Z.to_nat (MAX_PTYS - offset f)) (offset f))
    as [(n & Hn & Hp & Habs)|Hnone].
  - eexists _, _. split.
    { apply (devpts_readdir_found st fid f n); (done || lia). }
    split. { right. exists n. split; [done|]. split; [lia|done]. }
    split; [|by apply Hshape].
    intros ev i Hin Hev.
    destruct (readdir_events_reads _ _ _ _ Hin Hev). lia.
  - eexists _, _. split.
    { apply (devpts_readdir_none st fid f); try done.
      intros i Hi. apply Hnone. lia. }
    split; [by left|]. split; [|by apply Hshape].
    intros ev i Hin Hev.
    destruct (readdir_events_reads _ _ _ _ Hin Hev). lia.
Qed.

Lemma devpts_readdir_total_witness :
  ∃ r st', devpts_readdir 2%positive st_pair = Ok (r, st').
Proof.
  destruct (devpts_readdir_total st_pair 2%positive (mk_fd None (-1) 0))
    as (r & tr & H & _).
  - reflexivity.
  - reflexivity.
  - reflexivity.
  - simpl. unfold INT_MIN, INT_MAX. lia.
  - exists r. eexists. exact H.
Defined.

(** ** Allocation, seen from outside *)

(** A successful [ptmx_open], read backwards. *)
Lemma ptmx_open_success_inv (st : kstate) (fid : fdid) (st' : kstate) :
  ttys_wf st → ptmx_open fid st = Ok (0, st') →
  ∃ (f : fd) (n : nat) (m s : addr),
    fds st !! fid = Some f
    ∧ Z.of_nat n < MAX_PTYS ∧ slave_ttys st !! n = Some None
    ∧ (∀ j, (j < n)%nat → slot_present st j)
    ∧ m ≠ s ∧ heap st !! m = None ∧ heap st !! s = None
    ∧ heap st' = <[m := set_tty_fds [fid] (new_master (Z.of_nat n) s)]>
                   (<[s := new_slave (Z.of_nat n) m]> (heap st))
    ∧ freed st' = freed st
    ∧ slave_ttys st' = <[n := Some s]> (slave_ttys st)
    ∧ fds st' = <[fid := set_fd_tty (Some m) f]> (fds st).
Proof.
  intros Hwf Hopen.
  destruct (first_empty_or_full st Hwf) as [(n & Hn & Hs & Hb)|Hall].
  - destruct (fds st !! fid) as [f|] eqn:Hf.
    + destruct (ptmx_open_found st fid f n Hwf Hf Hn Hs Hb)
        as (m & s & Hms & Hm & Hsl & _ & _ & Hok).
      rewrite Hok in Hopen. apply Ok_inv in Hopen as [_ <-].
      exists f, n, m, s. cbn [heap freed slave_ttys fds]. done.
    + exfalso. revert Hopen. unfold ptmx_open, lock, unlock.
      rewrite (bind_Ok _ _ _ _ _ (emit_Ok _ _)).
      erewrite bind_Ok; cycle 1.
      { apply (ptmx_scan_found _ 0 n);
          [lia|done|done| |rewrite MAX_PTYS_eq in *; lia].
        intros j Hj. apply Hb. lia. }
      rewrite (bind_Ok _ _ _ _ _ (emit_Ok _ _)).
      destruct (decide (Z.of_nat n = MAX_PTYS)); [lia|].
      match goal with
      | |- (tty_get pty_master ?x ≫= _) ?y = _ → _ =>
          destruct (tty_get_master_run y x) as (_ & _ & _ & _ & _ & Hg);
            [simpl; unfold ttys_wf in Hwf; lia|]
      end.
      rewrite (bind_Ok _ _ _ _ _ Hg).
      unfold mbind, M_bind, fd_modify. simpl. by rewrite Hf.
  - rewrite (ptmx_open_full st fid Hwf Hall) in Hopen.
    apply Ok_inv in Hopen as [[=] _].
Qed.

(** X15: after a successful [ptmx_open] the descriptor holds a new master,
    the master and a new slave point to each other and carry the same
    number, the slave is locked with reference count 1 and sits in the
    table slot of that number, which was empty before, the descriptor is
    on the master's descriptor list, and no older object has changed. *)
Theorem ptmx_open_pairing (st : kstate) (fid : fdid) (st' : kstate) :
  ttys_wf st → ptmx_open fid st = Ok (0, st') →
  ∃ (m s : addr) (tm ts : tty) (n : nat),
    fd_tty <$> (fds st' !! fid) = Some (Some m)
    ∧ heap st !! m = None ∧ heap st !! s = None ∧ m ≠ s
    ∧ heap st' !! m = Some tm ∧ heap st' !! s = Some ts
    ∧ driver tm = pty_master ∧ driver ts = pty_slave
    ∧ num tm = Z.of_nat n ∧ num ts = Z.of_nat n
    ∧ pty_other tm = Some s ∧ pty_other ts = Some m
    ∧ pty_locked ts = true ∧ refcount ts = 1
    ∧ tty_fds tm = [fid]
    ∧ slave_ttys st !! n = Some None
    ∧ slave_ttys st' !! n = Some (Some s)
    ∧ (∀ j, j ≠ n → slave_ttys st' !! j = slave_ttys st !! j)
    ∧ (∀ a, a ≠ m → a ≠ s → heap st' !! a = heap st !! a).
Proof.
  intros Hwf Hopen.
  destruct (ptmx_open_success_inv st fid st' Hwf Hopen)
    as (f & n & m & s & Hf & Hn & Hslot & Hb & Hms & Hm & Hs & Hh & _ & Ht & Hfd).
  exists m, s, (set_tty_fds [fid] (new_master (Z.of_nat n) s)),
    (new_slave (Z.of_nat n) m), n.
  rewrite Hh, Ht, Hfd.
  split; [by rewrite lookup_insert_eq|].
  do 3 (split; [done|]).
  split; [by rewrite lookup_insert_eq|].
  split; [by rewrite lookup_insert_ne, lookup_insert_eq|].
  do 10 (split; [done|]).
  split. { apply list_lookup_insert_eq. by apply lookup_lt_Some in Hslot. }
  split. { intros j Hj. by rewrite list_lookup_insert_ne. }
  intros a Ham Has. by rewrite !lookup_insert_ne.
Qed.

Lemma ptmx_open_pairing_witness :
  ∃ (m s : addr) (tm ts : tty),
    heap st_one_pair !! m = Some tm ∧ heap st_one_pair !! s = Some ts
    ∧ pty_other tm = Some s ∧ pty_other ts = Some m.
Proof.
  destruct (ptmx_open_pairing st_empty 1%positive st_one_pair)
    as (m & s & tm & ts & n & _ & _ & _ & _ & Hm & Hs & _ & _ & _ & _
        & Ho1 & Ho2 & _).
  - reflexivity.
  - vm_compute. reflexivity.
  - exists m, s, tm, ts.
    split; [exact Hm|split; [exact Hs|split; [exact Ho1|exact Ho2]]].
Defined.

(** X16: two calls of [ptmx_open] in a row give two masters that are both
    live, with different slaves, and the second has the greater number. *)
Theorem ptmx_open_twice (st : kstate) (fid1 fid2 : fdid) (st1 st2 : kstate) :
  ttys_wf st →
  ptmx_open fid1 st = Ok (0, st1) → ptmx_open fid2 st1 = Ok (0, st2) →
  ∃ (m1 m2 : addr) (t1 t2 : tty),
    fd_tty <$> (fds st1 !! fid1) = Some (Some m1)
    ∧ fd_tty <$> (fds st2 !! fid2) = Some (Some m2)
    ∧ heap st2 !! m1 = Some t1 ∧ heap st2 !! m2 = Some t2
    ∧ m1 ≠ m2 ∧ num t1 < num t2
    ∧ pty_other t1 ≠ pty_other t2.
Proof.
  intros Hwf Hopen1 Hopen2.
  destruct (ptmx_open_success_inv st fid1 st1 Hwf Hopen1)
    as (f1 & n1 & m1 & s1 & Hf1 & Hn1 & Hslot1 & Hb1 & Hms1 & Hm1 & Hs1
        & Hh1 & _ & Ht1 & Hfd1).
  assert (Hwf1 : ttys_wf st1).
  { unfold ttys_wf in *. by rewrite Ht1, length_insert. }
  destruct (ptmx_open_success_inv st1 fid2 st2 Hwf1 Hopen2)
    as (f2 & n2 & m2 & s2 & Hf2 & Hn2 & Hslot2 & Hb2 & Hms2 & Hm2 & Hs2
        & Hh2 & _ & Ht2 & Hfd2).
  assert (Hlt1 : (n1 < length (slave_ttys st))%nat)
    by by apply lookup_lt_Some in Hslot1.
  assert (Hn12 : (n1 < n2)%nat).
  { destruct (decide (n2 = n1)) as [->|Hne].
    { rewrite Ht1, list_lookup_insert_eq in Hslot2 by done. done. }
    destruct (decide (n2 < n1)%nat) as [Hlt|]; [|lia].
    rewrite Ht1, list_lookup_insert_ne in Hslot2 by done.
    destruct (Hb1 n2 Hlt) as [a Ha]. congruence. }
  assert (Hm1' : heap st1 !! m1
                 = Some (set_tty_fds [fid1] (new_master (Z.of_nat n1) s1))).
  { by rewrite Hh1, lookup_insert_eq. }
  assert (Hs1' : heap st1 !! s1 = Some (new_slave (Z.of_nat n1) m1)).
  { by rewrite Hh1, lookup_insert_ne, lookup_insert_eq. }
  assert (m1 ≠ m2) by congruence.
  assert (m1 ≠ s2) by congruence.
  assert (s1 ≠ s2) by congruence.
  exists m1, m2, (set_tty_fds [fid1] (new_master (Z.of_nat n1) s1)),
    (set_tty_fds [fid2] (new_master (Z.of_nat n2) s2)).
  split; [by rewrite Hfd1, lookup_insert_eq|].
  split; [by rewrite Hfd2, lookup_insert_eq|].
  split; [by rewrite Hh2, !lookup_insert_ne|].
  split; [by rewrite Hh2, lookup_insert_eq|].
  split; [done|]. split; [simpl; lia|]. simpl. congruence.
Qed.

Lemma ptmx_open_twice_witness :
  ∃ (m1 m2 : addr) (t1 t2 : tty),
    heap (exec (ptmx_open 1%positive) st_one_pair) !! m1 = Some t1
    ∧ heap (exec (ptmx_open 1%positive) st_one_pair) !! m2 = Some t2
    ∧ num t1 < num t2.
Proof.
  destruct (ptmx_open_twice st_empty 1%positive 1%positive st_one_pair
              (exec (ptmx_open 1%positive) st_one_pair))
    as (m1 & m2 & t1 & t2 & _ & _ & H1 & H2 & _ & Hlt & _).
  - reflexivity.
  - vm_compute. reflexivity.
  - vm_compute. reflexivity.
  - exists m1, m2, t1, t2.
    split; [exact H1|split; [exact H2|exact Hlt]].
Defined.

(** X17: the pair [ptmx_open] has allocated is visible in devpts at once:
    the path made of a slash and the master's number in decimal opens to a
    handle carrying that number, and [devpts_readdir] on a root handle
    whose cursor stands at that number yields the entry of that number. *)
Theorem ptmx_open_visible (st : kstate) (fid : fdid) (st1 : kstate) :
  ttys_wf st → ptmx_open fid st = Ok (0, st1) →
  ∃ (m : addr) (tm : tty) (h : fdid) (st2 : kstate),
    fd_tty <$> (fds st1 !! fid) = Some (Some m)
    ∧ heap st1 !! m = Some tm
    ∧ devpts_open (String "/" (sprintf_d (num tm))) st1 = Ok (Ptr h, st2)
    ∧ pty_num <$> (fds st2 !! h) = Some (num tm)
    ∧ (∀ (d : fdid) (fd_d : fd),
         fds st1 !! d = Some fd_d → pty_num fd_d = -1 →
         offset fd_d = num tm →
         ∃ st3, devpts_readdir d st1 = Ok ((1, Some (entry_of (num tm))), st3)).
Proof.
  intros Hwf Hopen.
  destruct (ptmx_open_success_inv st fid st1 Hwf Hopen)
    as (f & n & m & s & Hf & Hn & Hslot & Hb & Hms & Hm & Hs & Hh & _ & Ht & Hfd).
  assert (Hwf1 : ttys_wf st1).
  { unfold ttys_wf in *. by rewrite Ht, length_insert. }
  assert (Hslot1 : slave_ttys st1 !! n = Some (Some s)).
  { rewrite Ht. apply list_lookup_insert_eq. by apply lookup_lt_Some in Hslot. }
  destruct (sprintf_d_digits (Z.of_nat n) ltac:(lia)) as (Hne & Hd & Hv).
  pose proof (devpts_get_pty_num_digits st1 _ Hwf1 Hne Hd) as Hnum.
  cbv zeta in Hnum. rewrite Hv, Nat2Z.id, Hslot1 in Hnum.
  destruct (decide (MAX_PTYS < Z.of_nat n)); [lia|].
  destruct (decide (Z.of_nat n = MAX_PTYS)); [lia|].
  pose proof (devpts_open_run st1 _ _ _ Hnum) as Hrun.
  destruct (decide (Z.of_nat n = _ENOENT)); [unfold _ENOENT in *; lia|].
  eexists m, _, _, _.
  split; [by rewrite Hfd, lookup_insert_eq|].
  split; [by rewrite Hh, lookup_insert_eq|].
  split; [exact Hrun|].
  split. { cbn [fds with_fds]. by rewrite lookup_insert_eq. }
  simpl num. intros d fd_d Hd' Hroot Hoff. eexists.
  rewrite (devpts_readdir_found st1 d fd_d (Z.of_nat n) Hwf1 Hd' Hroot);
    [reflexivity| | | |].
  - rewrite Hoff. unfold INT_MIN, INT_MAX. rewrite MAX_PTYS_eq in *. lia.
  - lia.
  - apply pty_presentb_true. split; [lia|]. rewrite Nat2Z.id. eauto.
  - intros i Hi. lia.
Qed.

Lemma ptmx_open_visible_witness :
  ∃ (h : fdid) (st2 : kstate),
    devpts_open "/0" st_one_pair = Ok (Ptr h, st2)
    ∧ pty_num <$> (fds st2 !! h) = Some 0.
Proof.
  destruct (ptmx_open_visible st_empty 1%positive st_one_pair)
    as (m & tm & h & st2 & Hfd & Hm & Hopen & Hnum & _).
  - reflexivity.
  - vm_compute. reflexivity.
  - assert (Htm : tm = set_tty_fds [1%positive] (new_master 0 2%positive)).
    { assert (E : fd_tty <$> (fds st_one_pair !! 1%positive)
                  = Some (Some 1%positive)) by (vm_compute; reflexivity).
      rewrite E in Hfd. injection Hfd as <-.
      assert (E' : heap st_one_pair !! 1%positive
                   = Some (set_tty_fds [1%positive] (new_master 0 2%positive)))
        by (vm_compute; reflexivity).
      rewrite E' in Hm. by injection Hm. }
    subst tm. exists h, st2. split; [exact Hopen|exact Hnum].
Defined.

(** ** devpts leaves what exists alone *)

Lemma emit_fds e st r st' : emit e st = Ok (r, st') → fds st' = fds st.
Proof. unfold emit. by intros [= _ <-]. Qed.

Lemma ttys_read_fds i st r st' :
  ttys_read i st = Ok (r, st') → fds st' = fds st.
Proof.
  unfold ttys_read. destruct (_ && _); [|done].
  destruct (slave_ttys st !! Z.to_nat i); [|done].
  by intros [= _ <-].
Qed.

Lemma fd_load_fds fid st r st' :
  fd_load fid st = Ok (r, st') → fds st' = fds st.
Proof.
  unfold fd_load. destruct (fds st !! fid); [|done]. by intros [= _ <-].
Qed.

Lemma devpts_pty_exists_fds i st r st' :
  devpts_pty_exists i st = Ok (r, st') → fds st' = fds st.
Proof.
  unfold devpts_pty_exists, lock, unlock.
  destruct (decide (i < 0 ∨ i > MAX_PTYS)).
  { by intros [-> ->]%mret_inv. }
  intros (? & st1 & H1%emit_fds & H)%bind_inv.
  apply bind_inv in H as (? & st2 & H2%ttys_read_fds & H).
  apply bind_inv in H as (? & st3 & H3%emit_fds & [_ ->]%mret_inv).
  congruence.
Qed.

Lemma devpts_get_pty_num_fds path st r st' :
  devpts_get_pty_num path st = Ok (r, st') → fds st' = fds st.
Proof.
  unfold devpts_get_pty_num. destruct path as [|c0 name].
  { by intros [-> ->]%mret_inv. }
  destruct (_ || _).
  { by intros [-> ->]%mret_inv. }
  destruct (negb (isdigits name)).
  { by intros [-> ->]%mret_inv. }
  destruct (decide (atol name > INT_MAX)).
  { by intros [-> ->]%mret_inv. }
  intros (e & st1 & H1%devpts_pty_exists_fds & H)%bind_inv.
  destruct (negb e); apply mret_inv in H as [_ ->]; exact H1.
Qed.

Lemma fds_kept_eq st st' : fds st' = fds st → fds_kept st st'.
Proof. intros E fid f. by rewrite E. Qed.

Lemma devpts_open_kept path st r st' :
  devpts_open path st = Ok (r, st') → fds_kept st st'.
Proof.
  intros Hopen. pose proof Hopen as H. unfold devpts_open in H.
  apply bind_inv in H as (n & st1 & H1 & _).
  rewrite (devpts_open_run st path n st1 H1) in Hopen.
  apply devpts_get_pty_num_fds in H1.
  destruct (decide (n = _ENOENT)).
  { apply Ok_inv in Hopen as [_ <-]. by apply fds_kept_eq. }
  apply Ok_inv in Hopen as [_ <-].
  intros fid f Hf. cbn [fds with_fds].
  assert (fid ≠ fresh (dom (fds st1))).
  { intros ->. rewrite H1 in *.
    pose proof (is_fresh (dom (fds st))) as Hfresh.
    apply Hfresh, elem_of_dom. eauto. }
  rewrite lookup_insert_ne by done. by rewrite H1.
Qed.

Lemma devpts_getpath_fds fid st r st' :
  devpts_getpath fid st = Ok (r, st') → fds st' = fds st.
Proof.
  unfold devpts_getpath. intros (f & st1 & H1%fd_load_fds & H)%bind_inv.
  destruct (decide (pty_num f = -1)); apply mret_inv in H as [_ ->]; exact H1.
Qed.

Lemma readdir_scan_fds fuel : ∀ p st r st',
  readdir_scan fuel p st = Ok (r, st') → fds st' = fds st.
Proof.
  induction fuel as [|fuel IH]; intros p st r st';
    rewrite readdir_scan_unfold;
    (destruct (decide (p = INT_MAX)); [done|]);
    (destruct (decide (p + 1 < MAX_PTYS)); [|by intros [_ ->]%mret_inv]);
    intros (e & st1 & H1%devpts_pty_exists_fds & H)%bind_inv;
    (destruct (negb e); [|apply mret_inv in H as [_ ->]; exact H1]).
  - done.
  - apply IH in H. congruence.
Qed.

Lemma devpts_readdir_fds fid st r st' :
  devpts_readdir fid st = Ok (r, st') → fds st' = fds st.
Proof.
  unfold devpts_readdir. intros (f & st1 & H1%fd_load_fds & H)%bind_inv.
  destruct (decide (pty_num f = -1)); [|done].
  apply bind_inv in H as (n & st2 & H2%readdir_scan_fds & H).
  destruct (decide (n >= MAX_PTYS)); apply mret_inv in H as [_ ->];
    congruence.
Qed.

Section Frame.

Variable owner : addr → pty_owner.
Variable major : Z.
Variable dev_make : Z → Z → Z.

Lemma devpts_stat_num_fds n sb st r st' :
  devpts_stat_num owner major dev_make n sb st = Ok (r, st') →
  fds st' = fds st.
Proof.
  unfold devpts_stat_num, lock, unlock.
  destruct (decide (n = -1)).
  { by intros [_ ->]%mret_inv. }
  intros (? & st1 & H1%emit_fds & H)%bind_inv.
  apply bind_inv in H as (slot & st2 & H2%ttys_read_fds & H).
  destruct slot as [a|]; [|done].
  apply bind_inv in H as (t & st3 & [-> _]%tty_load_inv & H).
  apply bind_inv in H as (? & st4 & H4%emit_fds & H).
  apply bind_inv in H as (? & st5 & H5%emit_fds & H).
  apply bind_inv in H as (? & st6 & H6%emit_fds & [_ ->]%mret_inv).
  congruence.
Qed.

Lemma devpts_stat_fds path sb st r st' :
  devpts_stat owner major dev_make path sb st = Ok (r, st') →
  fds st' = fds st.
Proof.
  unfold devpts_stat.
  intros (n & st1 & H1%devpts_get_pty_num_fds & H)%bind_inv.
  destruct (decide (n = _ENOENT)).
  { by apply mret_inv in H as [_ ->]. }
  apply bind_inv in H as (? & st2 & H2%devpts_stat_num_fds & [_ ->]%mret_inv).
  congruence.
Qed.

Lemma devpts_fstat_fds fid sb st r st' :
  devpts_fstat owner major dev_make fid sb st = Ok (r, st') →
  fds st' = fds st.
Proof.
  unfold devpts_fstat.
  intros (f & st1 & H1%fd_load_fds & H)%bind_inv.
  apply bind_inv in H as (? & st2 & H2%devpts_stat_num_fds & [_ ->]%mret_inv).
  congruence.
Qed.

(** X18: no operation of the devpts file system changes a terminal
    object, the set of released addresses, the slave table or an
    existing descriptor: [devpts_open], [devpts_getpath],
    [devpts_readdir], [devpts_stat] and [devpts_fstat] leave all of
    them as they are; in particular no call moves the offset of the
    descriptor it is given. *)
Theorem devpts_frame (st st' : kstate) :
  (∃ path r, devpts_open path st = Ok (r, st'))
  ∨ (∃ fid r, devpts_getpath fid st = Ok (r, st'))
  ∨ (∃ fid r, devpts_readdir fid st = Ok (r, st'))
  ∨ (∃ path sb r, devpts_stat owner major dev_make path sb st = Ok (r, st'))
  ∨ (∃ fid sb r, devpts_fstat owner major dev_make fid sb st = Ok (r, st')) →
  same_objects st st' ∧ fds_kept st st'.
Proof.
  intros [(path & r & H)|[(fid & r & H)|[(fid & r & H)
           |[(path & sb & r & H)|(fid & sb & r & H)]]]].
  - eauto using devpts_open_same, devpts_open_kept.
  - eauto using devpts_getpath_same, devpts_getpath_fds, fds_kept_eq.
  - eauto using devpts_readdir_same, devpts_readdir_fds, fds_kept_eq.
  - split; [by eapply devpts_stat_same|].
    eapply fds_kept_eq, devpts_stat_fds, H.
  - split; [by eapply devpts_fstat_same|].
    eapply fds_kept_eq, devpts_fstat_fds, H.
Qed.

End Frame.

Lemma devpts_frame_witness :
  same_objects st_pair (exec (devpts_open "/0") st_pair)
  ∧ fds_kept st_pair (exec (devpts_open "/0") st_pair).
Proof.
  apply (devpts_frame example_owner 0 example_dev_make).
  left. exists "/0"%string. eexists. vm_compute. reflexivity.
Defined.

(** ** Locks *)

Lemma locks_after_app tr1 : ∀ tr2 h,
  locks_after (tr1 ++ tr2) h = locks_after tr1 h ≫= locks_after tr2.
Proof.
  induction tr1 as [|e tr1 IH]; intros tr2 h; [done|].
  destruct e; simpl; try apply IH.
  - destruct h as [|l' h]; [done|]. destruct (decide (l' = l)); [apply IH|done].
  - destruct (decide (ttys_lock ∈ h)); [apply IH|done].
Qed.

Lemma locks_run_refl h st : locks_run h h st st.
Proof. exists []. by rewrite app_nil_r. Qed.

Lemma locks_run_trans h1 h2 h3 st1 st2 st3 :
  locks_run h1 h2 st1 st2 → locks_run h2 h3 st2 st3 → locks_run h1 h3 st1 st3.
Proof.
  intros (tr1 & E1 & L1) (tr2 & E2 & L2). exists (tr1 ++ tr2).
  split; [by rewrite E2, E1, app_assoc|].
  by rewrite locks_after_app, L1.
Qed.

Lemma locks_run_quiet h st st' : trace st' = trace st → locks_run h h st st'.
Proof. intros E. exists []. by rewrite app_nil_r. Qed.

Lemma locks_run_events h h' st st' tr :
  trace st' = trace st ++ tr → locks_after tr h = Some h' →
  locks_run h h' st st'.
Proof. intros. by exists tr. Qed.

Lemma emit_locks e h h' st r st' :
  emit e st = Ok (r, st') → locks_after [e] h = Some h' →
  locks_run h h' st st'.
Proof. unfold emit. intros [_ <-]%Ok_inv L. by exists [e]. Qed.

Lemma ttys_read_locks i h st r st' :
  ttys_read i st = Ok (r, st') → ttys_lock ∈ h → locks_run h h st st'.
Proof.
  unfold ttys_read. destruct (_ && _); [|done].
  destruct (slave_ttys st !! Z.to_nat i); [|done].
  intros [_ <-]%Ok_inv Hin. exists [EvSlotRead i]. split; [done|].
  simpl. by destruct (decide (ttys_lock ∈ h)).
Qed.

Lemma tty_modify_trace p g st r st' :
  tty_modify p g st = Ok (r, st') → trace st' = trace st.
Proof.
  unfold tty_modify. destruct p as [a|]; [|done].
  destruct (heap st !! a); [|done]. by intros [_ <-]%Ok_inv.
Qed.

Lemma fd_load_trace fid st r st' :
  fd_load fid st = Ok (r, st') → trace st' = trace st.
Proof.
  unfold fd_load. destruct (fds st !! fid); [|done]. by intros [_ <-]%Ok_inv.
Qed.

Lemma fd_modify_trace fid g st r st' :
  fd_modify fid g st = Ok (r, st') → trace st' = trace st.
Proof.
  unfold fd_modify. destruct (fds st !! fid); [|done]. by intros [_ <-]%Ok_inv.
Qed.

(** The slot is only tested under [ttys_lock], which is released again. *)
Lemma devpts_pty_exists_locks i st r st' :
  devpts_pty_exists i st = Ok (r, st') → locks_run [] [] st st'.
Proof.
  unfold devpts_pty_exists, lock, unlock.
  destruct (decide (i < 0 ∨ i > MAX_PTYS)).
  { intros [_ ->]%mret_inv. apply locks_run_refl. }
  intros (? & st1 & H1 & H)%bind_inv.
  apply bind_inv in H as (? & st2 & H2 & H).
  apply bind_inv in H as (? & st3 & H3 & [_ ->]%mret_inv).
  eapply (emit_locks _ [] [ttys_lock]) in H1; [|done].
  eapply (ttys_read_locks _ [ttys_lock]) in H2; [|by constructor].
  eapply (emit_locks _ [ttys_lock] []) in H3; [|done].
  eauto using locks_run_trans.
Qed.

Lemma devpts_get_pty_num_locks path st r st' :
  devpts_get_pty_num path st = Ok (r, st') → locks_run [] [] st st'.
Proof.
  unfold devpts_get_pty_num. destruct path as [|c0 name].
  { intros [_ ->]%mret_inv. apply locks_run_refl. }
  destruct (_ || _).
  { intros [_ ->]%mret_inv. apply locks_run_refl. }
  destruct (negb (isdigits name)).
  { intros [_ ->]%mret_inv. apply locks_run_refl. }
  destruct (decide (atol name > INT_MAX)).
  { intros [_ ->]%mret_inv. apply locks_run_refl. }
  intros (e & st1 & H1%devpts_pty_exists_locks & H)%bind_inv.
  destruct (negb e); apply mret_inv in H as [_ ->]; exact H1.
Qed.

Lemma devpts_open_locks path st r st' :
  devpts_open path st = Ok (r, st') → locks_run [] [] st st'.
Proof.
  intros Hopen. pose proof Hopen as H. unfold devpts_open in H.
  apply bind_inv in H as (n & st1 & H1 & _).
  rewrite (devpts_open_run st path n st1 H1) in Hopen.
  apply devpts_get_pty_num_locks in H1.
  destruct (decide (n = _ENOENT)); apply Ok_inv in Hopen as [_ <-]; [done|].
  eapply locks_run_trans; [exact H1|]. by apply locks_run_quiet.
Qed.

Lemma devpts_getpath_locks fid st r st' :
  devpts_getpath fid st = Ok (r, st') → locks_run [] [] st st'.
Proof.
  unfold devpts_getpath. intros (f & st1 & H1%fd_load_trace & H)%bind_inv.
  destruct (decide (pty_num f = -1)); apply mret_inv in H as [_ ->];
    by apply locks_run_quiet.
Qed.

Lemma readdir_scan_locks fuel : ∀ p st r st',
  readdir_scan fuel p st = Ok (r, st') → locks_run [] [] st st'.
Proof.
  induction fuel as [|fuel IH]; intros p st r st';
    rewrite readdir_scan_unfold;
    (destruct (decide (p = INT_MAX)); [done|]);
    (destruct (decide (p + 1 < MAX_PTYS));
     [|intros [_ ->]%mret_inv; apply locks_run_refl]);
    intros (e & st1 & H1%devpts_pty_exists_locks & H)%bind_inv;
    (destruct (negb e); [|apply mret_inv in H as [_ ->]; exact H1]).
  - done.
  - eauto using locks_run_trans.
Qed.

Lemma devpts_readdir_locks fid st r st' :
  devpts_readdir fid st = Ok (r, st') → locks_run [] [] st st'.
Proof.
  unfold devpts_readdir. intros (f & st1 & H1%fd_load_trace & H)%bind_inv.
  destruct (decide (pty_num f = -1)); [|done].
  apply bind_inv in H as (n & st2 & H2%readdir_scan_locks & H).
  apply (locks_run_quiet []) in H1.
  destruct (decide (n >= MAX_PTYS)); apply mret_inv in H as [_ ->];
    eauto using locks_run_trans.
Qed.

(** The loop of [ptmx_open] runs with [ttys_lock] held. *)
Lemma ptmx_scan_locks fuel : ∀ p h st r st',
  ptmx_scan fuel p st = Ok (r, st') → ttys_lock ∈ h → locks_run h h st st'.
Proof.
  induction fuel as [|fuel IH]; intros p h st r st'; simpl;
    (destruct (decide (p < MAX_PTYS));
     [|intros [_ ->]%mret_inv _; apply locks_run_refl]).
  - done.
  - intros (slot & st1 & H1 & H)%bind_inv Hin.
    eapply ttys_read_locks in H1; [|exact Hin].
    destruct slot.
    + eapply locks_run_trans; [exact H1|]. by eapply IH.
    + by apply mret_inv in H as [_ ->].
Qed.

Lemma pty_master_init_locks (m : addr) h st r st' :
  pty_master_init m st = Ok (r, st') → locks_run h h st st'.
Proof.
  rewrite pty_master_init_char. destruct (heap st !! m) as [tm|]; [|done].
  destruct (decide _); [|done]. cbv zeta. intros [_ <-]%Ok_inv.
  eapply locks_run_events; [cbn [trace]; reflexivity|done].
Qed.

Lemma tty_get_locks d n h st r st' :
  tty_get d n st = Ok (r, st') → locks_run h h st st'.
Proof.
  unfold tty_get. intros (a & st1 & H1 & H)%bind_inv.
  assert (L1 : locks_run h h st st1).
  { unfold tty_alloc in H1. apply Ok_inv in H1 as [_ <-].
    by apply locks_run_quiet. }
  apply bind_inv in H as (err & st2 & H2 & H).
  assert (L2 : locks_run h h st1 st2).
  { destruct d; simpl in H2.
    - by eapply pty_master_init_locks.
    - unfold pty_return_eio in H2. apply mret_inv in H2 as [_ ->].
      apply locks_run_refl. }
  destruct (decide (err < 0)).
  { apply mret_inv in H as [_ ->]. eauto using locks_run_trans. }
  apply bind_inv in H as (t & st3 & [-> _]%tty_load_inv & H).
  apply bind_inv in H as (? & st4 & H4%tty_modify_trace & [_ ->]%mret_inv).
  apply (locks_run_quiet h) in H4. eauto using locks_run_trans.
Qed.

Lemma ptmx_open_locks fid st r st' :
  ptmx_open fid st = Ok (r, st') → locks_run [] [] st st'.
Proof.
  unfold ptmx_open, lock, unlock.
  intros (? & st1 & H1 & H)%bind_inv.
  apply bind_inv in H as (n & st2 & H2 & H).
  apply bind_inv in H as (? & st3 & H3 & H).
  eapply (emit_locks _ [] [ttys_lock]) in H1; [|done].
  eapply (ptmx_scan_locks _ _ [ttys_lock]) in H2; [|by constructor].
  eapply (emit_locks _ [ttys_lock] []) in H3; [|done].
  assert (L3 : locks_run [] [] st st3).
  { eapply locks_run_trans; [exact H1|].
    eapply locks_run_trans; [exact H2|exact H3]. }
  destruct (decide (n = MAX_PTYS)).
  { by apply mret_inv in H as [_ ->]. }
  apply bind_inv in H as (p & st4 & H4%(tty_get_locks _ _ []) & H).
  destruct p as [a|e].
  - apply bind_inv in H as (? & st5 & H5%fd_modify_trace & H).
    apply bind_inv in H as (? & st6 & H6 & H).
    apply bind_inv in H as (? & st7 & H7%tty_modify_trace & H).
    apply bind_inv in H as (? & st8 & H8 & [_ ->]%mret_inv).
    apply (locks_run_quiet []) in H5.
    eapply (emit_locks _ [] [tty_fds_lock a]) in H6; [|done].
    apply (locks_run_quiet [tty_fds_lock a]) in H7.
    eapply (emit_locks _ [tty_fds_lock a] []) in H8;
      [|simpl; by destruct (decide _)].
    eapply locks_run_trans; [exact L3|].
    eapply locks_run_trans; [exact H4|].
    eapply locks_run_trans; [exact H5|].
    eapply locks_run_trans; [exact H6|].
    eapply locks_run_trans; [exact H7|exact H8].
  - apply mret_inv in H as [_ ->].
    eapply locks_run_trans; [exact L3|exact H4].
Qed.

Lemma pty_master_cleanup_locks (m : addr) st r st' :
  pty_master_cleanup m st = Ok (r, st') → locks_run [] [] st st'.
Proof.
  rewrite pty_master_cleanup_char. destruct (heap st !! m) as [tm|]; [|done].
  destruct (pty_other tm) as [s|]; [|done].
  destruct (heap st !! s) as [ts|]; [|done].
  intros [_ <-]%Ok_inv.
  exists (cleanup_events s).
  split; [by destruct (decide _)|].
  unfold cleanup_events. simpl. by destruct (decide _).
Qed.

Lemma pty_write_locks (t : addr) buf blocking st r st' :
  pty_write t buf blocking st = Ok (r, st') → locks_run [] [] st st'.
Proof.
  rewrite pty_write_char. destruct (heap st !! t) as [x|]; [|done].
  destruct (pty_other x) as [s|]; [|done].
  destruct (heap st !! s) as [ts|]; [|done].
  intros [_ <-]%Ok_inv. by exists [EvInput s buf blocking].
Qed.

Lemma pty_ioctl_locks (t : addr) cmd arg st r st' :
  pty_ioctl t cmd arg st = Ok (r, st') → locks_run [] [] st st'.
Proof.
  rewrite pty_ioctl_char. destruct (heap st !! t) as [x|]; [|done].
  destruct (decide (cmd = TIOCSPTLCK_ ∨ cmd = TIOCGPTN_)).
  - destruct (pty_other x) as [s|]; [|done].
    destruct (heap st !! s) as [ts|]; [|done].
    destruct (decide (cmd = TIOCSPTLCK_)); intros [_ <-]%Ok_inv;
      by apply locks_run_quiet.
  - intros [_ <-]%Ok_inv. apply locks_run_refl.
Qed.

Lemma run_op_locks (o : core_op) st st' :
  run_op o st = Ok (tt, st') → locks_run [] [] st st'.
Proof.
  destruct o as [t|t|t buf b|t cmd arg|t|fid|path|fid|fid]; simpl.
  - intros (x & st1 & [-> _]%tty_load_inv & H)%bind_inv.
    destruct (driver x); simpl in H;
      apply bind_inv in H as (r & st2 & H2 & [_ ->]%mret_inv).
    + by eapply pty_master_init_locks.
    + apply mret_inv in H2 as [_ ->]. apply locks_run_refl.
  - intros (x & st1 & [-> _]%tty_load_inv & H)%bind_inv.
    destruct (driver x); simpl in H;
      apply bind_inv in H as (r & st2 & H2 & [_ ->]%mret_inv).
    + apply mret_inv in H2 as [_ ->]. apply locks_run_refl.
    + apply pty_slave_open_same in H2 as ->. apply locks_run_refl.
  - intros (x & st1 & [-> _]%tty_load_inv & H)%bind_inv.
    destruct (driver x); simpl in H;
      apply bind_inv in H as (r & st2 & H2 & [_ ->]%mret_inv);
      by eapply pty_write_locks.
  - intros (x & st1 & [-> _]%tty_load_inv & H)%bind_inv.
    destruct (driver x); simpl in H.
    + apply bind_inv in H as (r & st2 & H2 & [_ ->]%mret_inv).
      by eapply pty_ioctl_locks.
    + apply mret_inv in H as [_ ->]. apply locks_run_refl.
  - intros (x & st1 & [-> _]%tty_load_inv & H)%bind_inv.
    destruct (driver x); simpl in H.
    + by eapply pty_master_cleanup_locks.
    + apply mret_inv in H as [_ ->]. apply locks_run_refl.
  - intros (r & st1 & H1 & [_ ->]%mret_inv)%bind_inv.
    by eapply ptmx_open_locks.
  - intros (r & st1 & H1 & [_ ->]%mret_inv)%bind_inv.
    by eapply devpts_open_locks.
  - intros (r & st1 & H1 & [_ ->]%mret_inv)%bind_inv.
    by eapply devpts_getpath_locks.
  - intros (r & st1 & H1 & [_ ->]%mret_inv)%bind_inv.
    by eapply devpts_readdir_locks.
Qed.

Section Locks.

Variable owner : addr → pty_owner.
Variable major : Z.
Variable dev_make : Z → Z → Z.

Lemma devpts_stat_num_locks n sb st r st' :
  devpts_stat_num owner major dev_make n sb st = Ok (r, st') →
  locks_run [] [] st st'.
Proof.
  unfold devpts_stat_num, lock, unlock.
  destruct (decide (n = -1)).
  { intros [_ ->]%mret_inv. apply locks_run_refl. }
  intros (? & st1 & H1 & H)%bind_inv.
  apply bind_inv in H as (slot & st2 & H2 & H).
  destruct slot as [a|]; [|done].
  apply bind_inv in H as (t & st3 & [-> _]%tty_load_inv & H).
  apply bind_inv in H as (? & st4 & H4 & H).
  apply bind_inv in H as (? & st5 & H5 & H).
  apply bind_inv in H as (? & st6 & H6 & [_ ->]%mret_inv).
  eapply (emit_locks _ [] [ttys_lock]) in H1; [|done].
  eapply (ttys_read_locks _ [ttys_lock]) in H2; [|by constructor].
  eapply (emit_locks _ [ttys_lock] [tty_lock a; ttys_lock]) in H4; [|done].
  eapply (emit_locks _ [tty_lock a; ttys_lock] [ttys_lock]) in H5;
    [|simpl; by destruct (decide _)].
  eapply (emit_locks _ [ttys_lock] []) in H6; [|done].
  eauto 10 using locks_run_trans.
Qed.

(** X19: every call into this file that returns has released every lock
    it took, releasing last what it took first, and has read a slot of
    the slave table only while it held [ttys_lock].  This holds for the
    hooks of both drivers, reached through their operation tables, for
    [ptmx_open] and for the five devpts operations, from every state. *)
Theorem locking_discipline (st st' : kstate) :
  (∃ o, run_op o st = Ok (tt, st'))
  ∨ (∃ path sb r, devpts_stat owner major dev_make path sb st = Ok (r, st'))
  ∨ (∃ fid sb r, devpts_fstat owner major dev_make fid sb st = Ok (r, st')) →
  ∃ tr, trace st' = trace st ++ tr ∧ locks_after tr [] = Some [].
Proof.
  intros [(o & H)|[(path & sb & r & H)|(fid & sb & r & H)]].
  - by eapply run_op_locks.
  - unfold devpts_stat in H.
    apply bind_inv in H as (n & st1 & H1%devpts_get_pty_num_locks & H).
    destruct (decide (n = _ENOENT)).
    { by apply mret_inv in H as [_ ->]. }
    apply bind_inv in H
      as (? & st2 & H2%devpts_stat_num_locks & [_ ->]%mret_inv).
    by eapply locks_run_trans.
  - unfold devpts_fstat in H.
    apply bind_inv in H as (f & st1 & H1%fd_load_trace & H).
    apply bind_inv in H
      as (? & st2 & H2%devpts_stat_num_locks & [_ ->]%mret_inv).
    eapply locks_run_trans; [by apply locks_run_quiet|done].
Qed.

End Locks.

Lemma locking_discipline_witness :
  ∃ tr, trace (exec (pty_master_cleanup 1%positive) st_pair)
        = trace st_pair ++ tr
        ∧ locks_after tr [] = Some [].
Proof.
  apply (locking_discipline example_owner 0 example_dev_make).
  left. exists (OpCleanup 1%positive). vm_compute. reflexivity.
Defined.

(** X20: when the master is cleaned up, the slave is out of reach
    afterwards: if the master held the last reference, the slave object is
    destroyed and its slot in the table no longer holds it; otherwise the
    slave stays live with one reference less, is hung up, has no master
    any more, and its open hook answers [_EIO] whatever its lock flag
    says. *)
Theorem cleanup_closes_slave (st : kstate) (m s : addr) (tm ts : tty) :
  heap st !! m = Some tm → pty_other tm = Some s → m ≠ s →
  heap st !! s = Some ts →
  ∃ st', pty_master_cleanup m st = Ok (tt, st')
    ∧ if decide (refcount ts = 1) then
        heap st' !! s = None ∧ s ∈ freed st'
        ∧ (driver ts = pty_slave → 0 <= num ts →
           slave_ttys st' !! Z.to_nat (num ts) ≠ Some (Some s))
      else
        ∃ ts', heap st' !! s = Some ts'
          ∧ hung_up ts' = true ∧ pty_other ts' = None
          ∧ refcount ts' = refcount ts - 1
          ∧ pty_locked ts' = pty_locked ts
          ∧ pty_slave_open s st' = Ok (_EIO, st').
Proof.
  intros Hm Ho Hne Hs. eexists. split.
  { rewrite pty_master_cleanup_char, Hm, Ho, Hs. reflexivity. }
  destruct (decide (refcount ts = 1)) as [H1|H1].
  - destruct (decide (refcount ts - 1 = 0)); [|lia]. cbn [heap freed slave_ttys].
    split; [apply lookup_delete_eq|]. split; [set_solver|].
    intros -> Hn. unfold clear_slot. destruct (decide (0 <= num ts)); [|lia].
    destruct (decide (Z.to_nat (num ts) < length (slave_ttys st))%nat).
    + by rewrite list_lookup_insert_eq.
    + rewrite lookup_ge_None_2; [done|]. rewrite length_insert. lia.
  - destruct (decide (refcount ts - 1 = 0)); [lia|].
    eexists. split; [cbn [heap]; apply lookup_insert_eq|].
    do 4 (split; [done|]).
    unfold pty_slave_open. erewrite bind_Ok; cycle 1.
    { apply tty_load_Ok. cbn [heap]. apply lookup_insert_eq. }
    done.
Qed.

Lemma cleanup_closes_slave_witness :
  ∃ st' ts', pty_master_cleanup 1%positive st_pair = Ok (tt, st')
    ∧ heap st' !! 2%positive = Some ts'
    ∧ pty_slave_open 2%positive st' = Ok (_EIO, st').
Proof.
  destruct (cleanup_closes_slave st_pair 1%positive 2%positive
              example_master example_slave)
    as (st' & Hrun & Hpost).
  - reflexivity.
  - reflexivity.
  - discriminate.
  - reflexivity.
  - destruct (decide (refcount example_slave = 1)) as [E|_];
      [vm_compute in E; discriminate E|].
    destruct Hpost as (ts' & Hs & _ & _ & _ & _ & Hopen).
    exists st', ts'.
    split; [exact Hrun|split; [exact Hs|exact Hopen]].
Defined.

(** X21: allocation and cleanup undo each other on the slave table: when
    the master that [ptmx_open] has just made is cleaned up, the new slave
    is destroyed, the slave table is again what it was before the
    allocation, so the number is free for the next [ptmx_open], and every
    object that existed before is untouched. *)
Theorem ptmx_open_cleanup_roundtrip (st : kstate) (fid : fdid) (st1 : kstate) :
  ttys_wf st → ptmx_open fid st = Ok (0, st1) →
  ∃ (m s : addr) (st2 : kstate),
    fd_tty <$> (fds st1 !! fid) = Some (Some m)
    ∧ pty_other <$> (heap st1 !! m) = Some (Some s)
    ∧ pty_master_cleanup m st1 = Ok (tt, st2)
    ∧ slave_ttys st2 = slave_ttys st
    ∧ heap st2 !! s = None ∧ freed st2 = {[s]} ∪ freed st
    ∧ (∀ a, a ≠ m → heap st2 !! a = heap st !! a).
Proof.
  intros Hwf Hopen.
  destruct (ptmx_open_success_inv st fid st1 Hwf Hopen)
    as (f & n & m & s & Hf & Hn & Hslot & Hb & Hms & Hm & Hs & Hh & Hfr & Ht
        & Hfd).
  assert (Hm1 : heap st1 !! m
                = Some (set_tty_fds [fid] (new_master (Z.of_nat n) s))).
  { by rewrite Hh, lookup_insert_eq. }
  assert (Hs1 : heap st1 !! s = Some (new_slave (Z.of_nat n) m)).
  { by rewrite Hh, lookup_insert_ne, lookup_insert_eq. }
  exists m, s. eexists.
  split; [by rewrite Hfd, lookup_insert_eq|].
  split; [by rewrite Hm1|].
  split.
  { rewrite pty_master_cleanup_char, Hm1. cbn [pty_other set_tty_fds new_master].
    rewrite Hs1. reflexivity. }
  cbn [refcount new_slave driver num].
  destruct (decide (1 - 1 = 0)); [|lia]. cbn [heap freed slave_ttys].
  split.
  { unfold clear_slot. destruct (decide (0 <= Z.of_nat n)); [|lia].
    rewrite Ht, Nat2Z.id, list_insert_insert_eq. by apply list_insert_id. }
  split; [apply lookup_delete_eq|]. split; [by rewrite Hfr|].
  intros a Ha. destruct (decide (a = s)) as [->|Has].
  - by rewrite lookup_delete_eq, Hs.
  - by rewrite lookup_delete_ne, Hh, !lookup_insert_ne.
Qed.

Lemma ptmx_open_cleanup_roundtrip_witness :
  ∃ (m : addr) (st2 : kstate),
    pty_master_cleanup m st_one_pair = Ok (tt, st2)
    ∧ slave_ttys st2 = slave_ttys st_empty.
Proof.
  destruct (ptmx_open_cleanup_roundtrip st_empty 1%positive st_one_pair)
    as (m & s & st2 & _ & _ & Hrun & Htbl & _).
  - reflexivity.
  - vm_compute. reflexivity.
  - exists m, st2. split; [exact Hrun|exact Htbl].
Defined.

(** ** Numbers never change *)

Lemma numbers_kept_same st st' : heap st' = heap st → numbers_kept st st'.
Proof.
  intros E a t' H. left. exists t'. rewrite <- E. auto.
Qed.

Lemma numbers_kept_update st st' (a : addr) (t t' : tty) :
  heap st !! a = Some t → num t' = num t →
  pty_other t' = pty_other t ∨ pty_other t' = None →
  heap st' = <[a := t']> (heap st) → numbers_kept st st'.
Proof.
  intros Ha Hn Ho Hh b tb Hb. rewrite Hh in Hb. left.
  destruct (decide (b = a)) as [->|Hne].
  - rewrite lookup_insert_eq in Hb. injection Hb as <-. exists t.
    destruct Ho; auto.
  - rewrite lookup_insert_ne in Hb by done. exists tb. auto.
Qed.

Lemma numbers_kept_delete st st' (s : addr) :
  heap st' = delete s (heap st) → numbers_kept st st'.
Proof.
  intros Hh b tb Hb. rewrite Hh in Hb.
  apply lookup_delete_Some in Hb as [_ Hb]. left. exists tb. auto.
Qed.

Lemma pty_write_numbers (t : addr) buf blocking st r st' :
  pty_write t buf blocking st = Ok (r, st') → numbers_kept st st'.
Proof.
  rewrite pty_write_char. destruct (heap st !! t) as [x|]; [|done].
  destruct (pty_other x) as [s|]; [|done].
  destruct (heap st !! s) as [ts|] eqn:Hs; [|done].
  intros [_ <-]%Ok_inv.
  by apply (numbers_kept_update _ _ s ts (set_input (input ts ++ buf) ts));
    auto.
Qed.

Lemma pty_ioctl_numbers (t : addr) cmd arg st r st' :
  pty_ioctl t cmd arg st = Ok (r, st') → numbers_kept st st'.
Proof.
  rewrite pty_ioctl_char. destruct (heap st !! t) as [x|]; [|done].
  destruct (decide (cmd = TIOCSPTLCK_ ∨ cmd = TIOCGPTN_)).
  - destruct (pty_other x) as [s|]; [|done].
    destruct (heap st !! s) as [ts|] eqn:Hs; [|done].
    destruct (decide (cmd = TIOCSPTLCK_)); intros [_ <-]%Ok_inv.
    + by apply (numbers_kept_update _ _ s ts
                  (set_locked (negb (arg =? 0)) ts)); auto.
    + by apply numbers_kept_same.
  - intros [_ <-]%Ok_inv. by apply numbers_kept_same.
Qed.

Lemma pty_master_init_numbers (m : addr) st r st' :
  pty_master_init m st = Ok (r, st') → numbers_kept st st'.
Proof.
  rewrite pty_master_init_char. destruct (heap st !! m) as [tm|] eqn:Hm; [|done].
  destruct (decide _); [|done]. cbv zeta. intros [_ <-]%Ok_inv.
  pose proof (fresh_not_live st) as Hlive.
  pose proof (fresh_not_freed st) as Hfreed.
  set (s := fresh (dom (heap st) ∪ freed st)) in *.
  assert (Hms : m ≠ s) by congruence.
  intros b tb Hb. cbn [heap] in Hb.
  destruct (decide (b = s)) as [->|Hbs]; [by right|].
  rewrite lookup_insert_ne in Hb by done. left.
  destruct (decide (b = m)) as [->|Hbm].
  - rewrite lookup_insert_eq in Hb. injection Hb as <-. exists tm.
    split; [done|]. split; [done|]. right. right.
    eexists s, _. split; [done|]. split; [done|]. split; [done|].
    split; [cbn [heap]; apply lookup_insert_eq|done].
  - rewrite lookup_insert_ne in Hb by done. exists tb. auto.
Qed.

Lemma pty_master_cleanup_numbers (m : addr) st r st' :
  pty_master_cleanup m st = Ok (r, st') → numbers_kept st st'.
Proof.
  rewrite pty_master_cleanup_char. destruct (heap st !! m) as [tm|]; [|done].
  destruct (pty_other tm) as [s|]; [|done].
  destruct (heap st !! s) as [ts|] eqn:Hs; [|done].
  intros [_ <-]%Ok_inv. destruct (decide (refcount ts - 1 = 0)).
  - by apply (numbers_kept_delete _ _ s).
  - by apply (numbers_kept_update _ _ s ts
                (set_refcount (refcount ts - 1)
                   (set_hung_up true (set_other None ts)))); auto.
Qed.

(** The two ways [ptmx_open] returns. *)
Lemma ptmx_open_cases (fid : fdid) st r st' :
  ttys_wf st → ptmx_open fid st = Ok (r, st') →
  (r = _ENOSPC ∧ heap st' = heap st ∧ freed st' = freed st)
  ∨ (r = 0 ∧ ∃ (n : nat) (m s : addr),
       m ≠ s ∧ heap st !! m = None ∧ heap st !! s = None
       ∧ m ∉ freed st ∧ s ∉ freed st
       ∧ heap st' = <[m := set_tty_fds [fid] (new_master (Z.of_nat n) s)]>
                      (<[s := new_slave (Z.of_nat n) m]> (heap st))
       ∧ freed st' = freed st).
Proof.
  intros Hwf Hopen.
  destruct (first_empty_or_full st Hwf) as [(n & Hn & Hs & Hb)|Hall].
  - destruct (fds st !! fid) as [f|] eqn:Hf.
    + destruct (ptmx_open_found st fid f n Hwf Hf Hn Hs Hb)
        as (m & s & Hms & Hm & Hsl & Hmf & Hsf & Hok).
      rewrite Hok in Hopen. apply Ok_inv in Hopen as [<- <-].
      right. split; [done|]. exists n, m, s. cbn [heap freed]. done.
    + exfalso. revert Hopen. unfold ptmx_open, lock, unlock.
      rewrite (bind_Ok _ _ _ _ _ (emit_Ok _ _)).
      erewrite bind_Ok; cycle 1.
      { apply (ptmx_scan_found _ 0 n);
          [lia|done|done| |rewrite MAX_PTYS_eq in *; lia].
        intros j Hj. apply Hb. lia. }
      rewrite (bind_Ok _ _ _ _ _ (emit_Ok _ _)).
      destruct (decide (Z.of_nat n = MAX_PTYS)); [lia|].
      match goal with
      | |- (tty_get pty_master ?x ≫= _) ?y = _ → _ =>
          destruct (tty_get_master_run y x) as (_ & _ & _ & _ & _ & Hg);
            [simpl; unfold ttys_wf in Hwf; lia|]
      end.
      rewrite (bind_Ok _ _ _ _ _ Hg).
      unfold mbind, M_bind, fd_modify. simpl. by rewrite Hf.
  - rewrite (ptmx_open_full st fid Hwf Hall) in Hopen.
    apply Ok_inv in Hopen as [<- <-]. left. done.
Qed.

Lemma ptmx_open_numbers (fid : fdid) st r st' :
  ttys_wf st → ptmx_open fid st = Ok (r, st') → numbers_kept st st'.
Proof.
  intros Hwf Hopen.
  destruct (ptmx_open_cases fid st r st' Hwf Hopen)
    as [(_ & Hh & _)|(_ & n & m & s & Hms & Hm & Hs & Hmf & Hsf & Hh & _)].
  - by apply numbers_kept_same.
  - intros b tb Hb. rewrite Hh in Hb.
    destruct (decide (b = m)) as [->|Hbm]; [by right|].
    rewrite lookup_insert_ne in Hb by done.
    destruct (decide (b = s)) as [->|Hbs]; [by right|].
    rewrite lookup_insert_ne in Hb by done. left. exists tb. auto.
Qed.

Lemma run_op_numbers (o : core_op) st st' :
  ttys_wf st → run_op o st = Ok (tt, st') → numbers_kept st st'.
Proof.
  intros Hwf. destruct o as [t|t|t buf b|t cmd arg|t|fid|path|fid|fid]; simpl.
  - intros (x & st1 & [-> _]%tty_load_inv & H)%bind_inv.
    destruct (driver x); simpl in H;
      apply bind_inv in H as (r & st2 & H2 & [_ ->]%mret_inv).
    + by eapply pty_master_init_numbers.
    + apply mret_inv in H2 as [_ ->]. by apply numbers_kept_same.
  - intros (x & st1 & [-> _]%tty_load_inv & H)%bind_inv.
    destruct (driver x); simpl in H;
      apply bind_inv in H as (r & st2 & H2 & [_ ->]%mret_inv).
    + apply mret_inv in H2 as [_ ->]. by apply numbers_kept_same.
    + apply pty_slave_open_same in H2 as ->. by apply numbers_kept_same.
  - intros (x & st1 & [-> _]%tty_load_inv & H)%bind_inv.
    destruct (driver x); simpl in H;
      apply bind_inv in H as (r & st2 & H2 & [_ ->]%mret_inv);
      by eapply pty_write_numbers.
  - intros (x & st1 & [-> _]%tty_load_inv & H)%bind_inv.
    destruct (driver x); simpl in H.
    + apply bind_inv in H as (r & st2 & H2 & [_ ->]%mret_inv).
      by eapply pty_ioctl_numbers.
    + apply mret_inv in H as [_ ->]. by apply numbers_kept_same.
  - intros (x & st1 & [-> _]%tty_load_inv & H)%bind_inv.
    destruct (driver x); simpl in H.
    + by eapply pty_master_cleanup_numbers.
    + apply mret_inv in H as [_ ->]. by apply numbers_kept_same.
  - intros (r & st1 & H1 & [_ ->]%mret_inv)%bind_inv.
    by eapply ptmx_open_numbers.
  - intros (r & st1 & (Hh & _)%devpts_open_same & [_ ->]%mret_inv)%bind_inv.
    by apply numbers_kept_same.
  - intros (r & st1 & (Hh & _)%devpts_getpath_same & [_ ->]%mret_inv)%bind_inv.
    by apply numbers_kept_same.
  - intros (r & st1 & (Hh & _)%devpts_readdir_same & [_ ->]%mret_inv)%bind_inv.
    by apply numbers_kept_same.
Qed.

(** The number of a pair stays with it through every operation. *)
Lemma pair_number_step (o : core_op) (m : addr) (n : Z) st st' :
  ttys_wf st → run_op o st = Ok (tt, st') →
  pair_number m n st → pair_number m n st'.
Proof.
  intros Hwf Hrun [Hin Hnum].
  pose proof (run_op_effect o st st' Hwf Hrun) as [Heff _].
  pose proof (heap_effect_addresses st st' Heff) as Hmono.
  pose proof (run_op_numbers o st st' Hwf Hrun) as Hkept.
  split; [by apply Hmono|].
  intros tm' Hm'.
  destruct (Hkept m tm' Hm') as [(tm & Hm & Hn & Hlink)|[Hnone Hnf]]; cycle 1.
  { exfalso. apply elem_of_union in Hin as [Hd|Hf]; [|done].
    apply elem_of_dom in Hd as [? Hd]. congruence. }
  destruct (Hnum tm Hm) as [Hntm Hs].
  split; [congruence|].
  intros s Ho'.
  destruct Hlink as [Ho|[Ho|(s' & ts' & Ho & Hs'n & Hs'f & Hs' & Hns')]].
  - rewrite Ho in Ho'. destruct (Hs s Ho') as [Hsin Hsnum].
    split; [by apply Hmono|].
    intros ts1 Hs1.
    destruct (Hkept s ts1 Hs1) as [(ts0 & Hs0 & Hn0 & _)|[Hnone Hnf]].
    + rewrite Hn0. by apply Hsnum.
    + exfalso. apply elem_of_union in Hsin as [Hd|Hf]; [|done].
      apply elem_of_dom in Hd as [? Hd]. congruence.
  - congruence.
  - rewrite Ho in Ho'. injection Ho' as <-.
    split.
    + apply elem_of_union. left. apply elem_of_dom. eauto.
    + intros ts1 Hs1. rewrite Hs' in Hs1. injection Hs1 as <-. congruence.
Qed.

Lemma run_ops_pair_number (m : addr) (n : Z) st st' :
  run_ops st st' → ttys_wf st → pair_number m n st →
  ttys_wf st' ∧ pair_number m n st'.
Proof.
  induction 1 as [st|o st st1 st2 Hops IH Hrun]; intros Hwf Hp; [done|].
  destruct (IH Hwf Hp) as [Hwf1 Hp1].
  split.
  - pose proof (run_op_effect o st1 st2 Hwf1 Hrun) as [_ Hlen].
    unfold ttys_wf in *. congruence.
  - by eapply pair_number_step.
Qed.

(** ** The master's control requests *)

(** C6, on a master [m] whose link is the live object [s]: the set-lock
    request returns 0 and leaves the slave's [pty.locked] true exactly
    when the argument is not zero, with every other field of the slave,
    every other object, the table, the descriptors and the trace as they
    were; the get-number request writes the slave's number into the
    argument and returns 0; any other request returns [_EINVAL] with the
    state and the argument untouched.  And the number is the one assigned
    at allocation: when [m] is the master that [ptmx_open] produced for
    the number it selected, then in every state reached from there by
    core operations master and slave still carry that number and the
    get-number request writes it. *)
Theorem pty_ioctl_spec (st : kstate) (m : addr) (tm : tty) (s : addr)
    (ts : tty) (cmd arg : Z) :
  heap st !! m = Some tm → pty_other tm = Some s → heap st !! s = Some ts →
  (cmd = TIOCSPTLCK_ →
     ∃ st' ts',
       pty_ioctl m cmd arg st = Ok ((0, arg), st')
       ∧ st' = with_heap (<[s := set_locked (negb (arg =? 0)) ts]> (heap st)) st
       ∧ heap st' !! s = Some ts'
       ∧ (pty_locked ts' = true ↔ arg ≠ 0)
       ∧ driver ts' = driver ts ∧ num ts' = num ts
       ∧ refcount ts' = refcount ts ∧ pty_other ts' = pty_other ts
       ∧ hung_up ts' = hung_up ts ∧ input ts' = input ts
       ∧ tty_fds ts' = tty_fds ts
       ∧ (∀ a, a ≠ s → heap st' !! a = heap st !! a)
       ∧ freed st' = freed st ∧ slave_ttys st' = slave_ttys st
       ∧ fds st' = fds st ∧ trace st' = trace st)
  ∧ (cmd = TIOCGPTN_ →
       pty_ioctl m cmd arg st = Ok ((0, to_dword (num ts)), st))
  ∧ (cmd ≠ TIOCSPTLCK_ → cmd ≠ TIOCGPTN_ →
       pty_ioctl m cmd arg st = Ok ((_EINVAL, arg), st))
  ∧ (∀ (st0 st1 : kstate) (fid : fdid) (n : nat),
       ttys_wf st0 →
       Z.of_nat n < MAX_PTYS →
       slave_ttys st0 !! n = Some None →
       (∀ j, (j < n)%nat → slot_present st0 j) →
       ptmx_open fid st0 = Ok (0, st1) →
       fd_tty <$> (fds st1 !! fid) = Some (Some m) →
       run_ops st1 st →
       num tm = Z.of_nat n ∧ num ts = Z.of_nat n
       ∧ pty_ioctl m TIOCGPTN_ arg st = Ok ((0, Z.of_nat n), st)).
Proof.
  intros Hm Ho Hs.
  assert (Hget : pty_ioctl m TIOCGPTN_ arg st = Ok ((0, to_dword (num ts)), st)).
  { unfold pty_ioctl. rewrite (bind_Ok _ _ _ _ _ (tty_load_Ok _ _ _ Hm)).
    rewrite Ho. simpl.
    by rewrite (bind_Ok _ _ _ _ _ (tty_load_Ok _ _ _ Hs)). }
  split; [|split; [|split]].
  - intros ->. eexists _, _. split.
    { unfold pty_ioctl.
      rewrite (bind_Ok _ _ _ _ _ (tty_load_Ok _ _ _ Hm)).
      rewrite Ho. simpl.
      by rewrite (bind_Ok _ _ _ _ _ (tty_modify_Ok _ _ _ _ Hs)). }
    split; [reflexivity|].
    split; [cbn [heap with_heap]; apply lookup_insert_eq|].
    split.
    { cbn [pty_locked set_locked]. rewrite negb_true_iff, Z.eqb_neq. done. }
    do 7 (split; [reflexivity|]).
    split.
    { intros a Ha. cbn [heap with_heap]. by rewrite lookup_insert_ne. }
    done.
  - intros ->. exact Hget.
  - intros H1 H2. unfold pty_ioctl.
    rewrite (bind_Ok _ _ _ _ _ (tty_load_Ok _ _ _ Hm)).
    destruct (decide (cmd = TIOCSPTLCK_)); [done|].
    by destruct (decide (cmd = TIOCGPTN_)).
  - intros st0 st1 fid n Hwf Hn Hslot Hb Hopen Hfd Hops.
    assert (Hwf1 : ttys_wf st1 ∧ pair_number m (Z.of_nat n) st1).
    { destruct (ptmx_open_success_inv st0 fid st1 Hwf Hopen)
        as (f & n' & m' & s' & Hf & Hn' & Hslot' & Hb' & Hms & Hm' & Hs' & Hh
            & _ & Ht & Hfds).
      assert (n' = n) as ->.
      { destruct (lt_eq_lt_dec n' n) as [[Hlt|Heq]|Hgt]; [|done|].
        - destruct (Hb n' Hlt) as [a Ha]. congruence.
        - destruct (Hb' n Hgt) as [a Ha]. congruence. }
      rewrite Hfds, lookup_insert_eq in Hfd. injection Hfd as ->.
      split.
      { unfold ttys_wf in *. by rewrite Ht, length_insert. }
      split.
      { apply elem_of_union. left. apply elem_of_dom.
        rewrite Hh, lookup_insert_eq. eauto. }
      intros tm1 Hm1. rewrite Hh, lookup_insert_eq in Hm1.
      injection Hm1 as <-. split; [done|].
      intros s1 [= <-]. split.
      { apply elem_of_union. left. apply elem_of_dom.
        rewrite Hh, lookup_insert_ne, lookup_insert_eq by done. eauto. }
      intros ts1 Hs1.
      rewrite Hh, lookup_insert_ne, lookup_insert_eq in Hs1 by done.
      by injection Hs1 as <-. }
    destruct Hwf1 as [Hwf1 Hp1].
    destruct (run_ops_pair_number m (Z.of_nat n) st1 st Hops Hwf1 Hp1)
      as [_ [_ Hp]].
    destruct (Hp tm Hm) as [Hntm Hlink].
    destruct (Hlink s Ho) as [_ Hnts].
    pose proof (Hnts ts Hs) as Hn_ts.
    split; [done|]. split; [done|].
    rewrite Hget, Hn_ts. do 3 f_equal. unfold to_dword.
    apply Z.mod_small. rewrite MAX_PTYS_eq in Hn. lia.
Qed.

Lemma pty_ioctl_spec_witness :
  (∃ st' ts',
     pty_ioctl 1%positive TIOCSPTLCK_ 1 st_pair = Ok ((0, 1), st')
     ∧ heap st' !! 2%positive = Some ts' ∧ pty_locked ts' = true)
  ∧ pty_ioctl 1%positive TIOCGPTN_ 77 st_one_pair_unlocked
    = Ok ((0, 0), st_one_pair_unlocked)
  ∧ pty_ioctl 1%positive 0 77 st_pair = Ok ((_EINVAL, 77), st_pair).
Proof.
  split; [|split].
  - destruct (pty_ioctl_spec st_pair 1%positive example_master 2%positive
                example_slave TIOCSPTLCK_ 1) as (H & _).
    + reflexivity.
    + reflexivity.
    + reflexivity.
    + destruct (H eq_refl) as (st' & ts' & Hrun & _ & Hs & Hlocked & _).
      exists st', ts'. split; [exact Hrun|]. split; [exact Hs|].
      apply Hlocked. discriminate.
  - destruct (pty_ioctl_spec st_one_pair_unlocked 1%positive
                (set_tty_fds [1%positive] (new_master 0 2%positive))
                2%positive (set_locked false (new_slave 0 1%positive))
                TIOCGPTN_ 77) as (_ & _ & _ & H).
    + vm_compute. reflexivity.
    + reflexivity.
    + vm_compute. reflexivity.
    + destruct (H st_empty st_one_pair 1%positive 0%nat) as (_ & _ & Hrun).
      * reflexivity.
      * rewrite MAX_PTYS_eq. simpl. lia.
      * reflexivity.
      * intros j Hj. lia.
      * vm_compute. reflexivity.
      * vm_compute. reflexivity.
      * eapply (run_ops_step (OpIoctl 1%positive TIOCSPTLCK_ 0));
          [apply run_ops_refl|]. vm_compute. reflexivity.
      * exact Hrun.
  - destruct (pty_ioctl_spec st_pair 1%positive example_master 2%positive
                example_slave 0 77) as (_ & _ & H & _).
    + reflexivity.
    + reflexivity.
    + reflexivity.
    + apply H; discriminate.
Defined.
